(** * cgdb: the scroller buffer and the window-manager splitter

    A shallow embedding of [cgdb/scroller.c] and [lib/wm/wm_splitter.c],
    and the properties of both that the specification states.

    Conventions of the embedding.
    - A C [int] is a [Z]; signed overflow is undefined in C and the model
      covers the executions without it.
    - A C string is the list of its characters before the terminating NUL
      ([list Z], each character a value in 0..255); a [char*] into a string
      is an index into that list, and reading the index [length s] reads
      the NUL.
    - A function that can run into undefined behaviour (an access out of
      the bounds of an array, a division by zero) or that has a loop the
      model bounds by fuel returns an [option]: [None] stands for "no
      defined result".  Theorems that say a function returns give the
      conditions under which the result is [Some].
    - Windows are compared by address in C; a window carries an
      identifier that stands for its address.  The tree of windows is an
      inductive type, a splitter holding its children; the parent link is
      the position in the tree.  The array of children is a list with one
      window per slot: it stands for the C array when the pointers in it
      are distinct, and statements about placements say so.
    - curses is the canvas: a [WINDOW] is the rectangle it was last given,
      and the drawing calls of the scroller are collected in a list.
    - The single-precision arithmetic of layout is not modelled: its two
      uses are parameters of the layout functions. *)

From stdpp Require Import base numbers list option.

Local Open Scope Z_scope.

(** * Part I: definitions *)

(** ** C library: <ctype.h>, <string.h>, <stdlib.h> (the "C" locale) *)

Definition isprint (ch : Z) : bool := (32 <=? ch) && (ch <=? 126).
Definition isspace (ch : Z) : bool := (ch =? 32) || ((9 <=? ch) && (ch <=? 13)).
Definition isdigit (ch : Z) : bool := (48 <=? ch) && (ch <=? 57).

(** [a[i]] read from an array: undefined out of bounds. *)
Definition at_index {A} (a : list A) (i : Z) : option A :=
  if i <? 0 then None else a !! Z.to_nat i.

(** [a[i] = x]: undefined out of bounds. *)
Definition poke {A} (a : list A) (i : Z) (x : A) : option (list A) :=
  if (0 <=? i) && (i <? Z.of_nat (length a)) then Some (<[Z.to_nat i := x]> a)
  else None.

(** [*p] for a pointer at index [p] of a C string: the NUL at the end. *)
Definition peek (s : list Z) (p : nat) : Z := nth p s 0.

(** [strlen] of a character array: the index of its first NUL; undefined
    when the array holds none. *)
Fixpoint strlen_arr (a : list Z) : option Z :=
  match a with
  | [] => None
  | ch :: rest => if ch =? 0 then Some 0 else Z.succ <$> strlen_arr rest
  end.

(** [strlen] of a C string. *)
Definition strlen (s : list Z) : Z := Z.of_nat (length s).

(** [a / b] and [a % b] of C: truncation toward zero, undefined for [b = 0]. *)
Definition c_div (a b : Z) : option Z := if b =? 0 then None else Some (Z.quot a b).
Definition c_mod (a b : Z) : option Z := if b =? 0 then None else Some (Z.rem a b).

Definition LONG_MAX : Z := 9223372036854775807.
Definition LONG_MIN : Z := -9223372036854775808.

(** Conversion of a [long] to [int] (wraps on the usual targets). *)
Definition int_of_long (v : Z) : Z := (v + 2147483648) mod 4294967296 - 2147483648.

Fixpoint span_space (l : list Z) : nat :=
  match l with
  | ch :: rest => if isspace ch then S (span_space rest) else O
  | [] => O
  end.

Fixpoint span_digits (l : list Z) (acc : Z) : Z * nat :=
  match l with
  | ch :: rest =>
      if isdigit ch
      then let '(v, n) := span_digits rest (acc * 10 + (ch - 48)) in (v, S n)
      else (acc, O)
  | [] => (acc, O)
  end.

(** [strtol(s + p, &end, 10)]: the value and the index [end].  White space
    is skipped, one sign is accepted, then decimal digits; with no digit
    the value is 0 and [end] is [p] itself. *)
Definition strtol (s : list Z) (p : nat) : Z * nat :=
  let l := drop p s in
  let ws := span_space l in
  let l1 := drop ws l in
  let '(neg, sg) :=
    match l1 with
    | ch :: _ => if ch =? 45 then (true, 1%nat)
                 else if ch =? 43 then (false, 1%nat) else (false, O)
    | [] => (false, O)
    end in
  let '(v, nd) := span_digits (drop sg l1) 0 in
  match nd with
  | O => (0, p)
  | S _ => (Z.max LONG_MIN (Z.min LONG_MAX (if neg then - v else v)),
            (p + ws + sg + nd)%nat)
  end.

(** [strchr(s + p, ch)] for [ch <> 0]: the index of the first [ch] at or
    after [p], [None] for NULL. *)
Definition strchr (s : list Z) (p : nat) (ch : Z) : option nat :=
  (λ hit, (p + hit.1)%nat) <$> list_find (λ x, x = ch) (drop p s).

(** ** The scroller ([cgdb/scroller.c]) *)

(** [struct scroller]: the line buffer ([buffer], [length] is the length of
    the list), the cursor [current.r], [current.c], [current.pos], and
    what [getmaxyx(scr->win, height, width)] reads from the window. *)
Record scroller := mk_scroller {
  buffer : list (list Z);
  current_r : Z;
  current_c : Z;
  current_pos : Z;
  win_height : Z;
  win_width : Z
}.

Definition set_current_c (scr : scroller) (v : Z) : scroller :=
  mk_scroller (buffer scr) (current_r scr) v (current_pos scr)
              (win_height scr) (win_width scr).
Definition set_current_r (scr : scroller) (v : Z) : scroller :=
  mk_scroller (buffer scr) v (current_c scr) (current_pos scr)
              (win_height scr) (win_width scr).
Definition set_current_pos (scr : scroller) (v : Z) : scroller :=
  mk_scroller (buffer scr) (current_r scr) (current_c scr) v
              (win_height scr) (win_width scr).

(** [scr->length]. *)
Definition scr_length (scr : scroller) : Z := Z.of_nat (length (buffer scr)).

(** [count]: the occurrences of [ch] in [s]. *)
Fixpoint count (s : list Z) (ch : Z) : Z :=
  match s with
  | [] => 0
  | x :: rest => (if x =? ch then 1 else 0) + count rest ch
  end.

Definition tab_size : Z := 8.

(** [do rv[i++] = ' '; while (i % tab_size != 0);] *)
Fixpoint tab_fill (fuel : nat) (rv : list Z) (i : Z) : option (list Z * Z) :=
  match fuel with
  | O => None
  | S fuel' =>
      rv' ← poke rv i 32;
      if Z.rem (i + 1) tab_size =? 0 then Some (rv', i + 1)
      else tab_fill fuel' rv' (i + 1)
  end.

(** The body of the [switch (buf[j])] of [parse]: one input character
    applied to the array [rv] with the caret at [i]. *)
Definition parse_char (rv : list Z) (i : Z) (ch : Z) : option (list Z * Z) :=
  if (ch =? 8) || (ch =? 127) then Some (rv, if 0 <? i then i - 1 else i)
  else if ch =? 9 then tab_fill (Z.to_nat tab_size) rv i
  else if ch =? 13 then Some (rv, 0)
  else if isprint ch then rv' ← poke rv i ch; Some (rv', i + 1)
  else Some (rv, i).

(** [for (j = 0; j < strlen(buf); j++) switch (buf[j]) ...] *)
Fixpoint parse_loop (buf : list Z) (rv : list Z) (i : Z) : option (list Z * Z) :=
  match buf with
  | [] => Some (rv, i)
  | ch :: rest => '(rv', i') ← parse_char rv i ch; parse_loop rest rv' i'
  end.

(** [for (j = strlen(rv) - 1; j > i && isspace(rv[j]); j--);], the final [j]. *)
Fixpoint trim_scan (fuel : nat) (rv : list Z) (i j : Z) : option Z :=
  match fuel with
  | O => None
  | S fuel' =>
      if i <? j
      then ch ← at_index rv j;
           if isspace ch then trim_scan fuel' rv i (j - 1) else Some j
      else Some j
  end.

(** The array [rv] of [parse] after [memset] and [strcpy(rv, orig)]. *)
Definition parse_alloc (orig buf : list Z) : list Z :=
  let length := strlen orig + strlen buf + (tab_size - 1) * count buf 9 in
  orig ++ replicate (Z.to_nat (length + 1 - strlen orig)) 0.

(** The contents of [rv] and the caret after the loop over [buf]. *)
Definition parse_interpret (pos : Z) (orig buf : list Z) : option (list Z * Z) :=
  parse_loop buf (parse_alloc orig buf) pos.

(** [parse]: the scroller with its caret updated and the string returned. *)
Definition parse (scr : scroller) (orig buf : list Z) : option (scroller * list Z) :=
  '(rv, i) ← parse_interpret (current_pos scr) orig buf;
  len ← strlen_arr rv;
  j ← trim_scan (S (Z.to_nat len)) rv i (len - 1);
  rv' ← poke rv (j + 1) 0;
  len' ← strlen_arr rv';
  Some (set_current_pos scr i, take (Z.to_nat len') rv').

(** The "sanity check" that opens [scr_up], [scr_down] and [scr_refresh]:
    [if (c > 0) if (c % width != 0) c = (c / width) * width;] *)
Definition sanity_check (scr : scroller) : option scroller :=
  if 0 <? current_c scr then
    m ← c_mod (current_c scr) (win_width scr);
    if negb (m =? 0) then
      q ← c_div (current_c scr) (win_width scr);
      Some (set_current_c scr (q * win_width scr))
    else Some scr
  else Some scr.

(** The [for (i = 0; i < nlines; i++)] loop of [scr_down]. *)
Fixpoint scr_down_loop (n : nat) (scr : scroller) : option scroller :=
  match n with
  | O => Some scr
  | S n' =>
      line ← at_index (buffer scr) (current_r scr);
      let length := strlen line in
      if current_c scr <? length - win_width scr
      then scr_down_loop n' (set_current_c scr (current_c scr + win_width scr))
      else if current_r scr <? scr_length scr - 1
           then scr_down_loop n' (set_current_c (set_current_r scr (current_r scr + 1)) 0)
           else Some scr
  end.

Definition scr_down (scr : scroller) (nlines : Z) : option scroller :=
  scr' ← sanity_check scr;
  scr_down_loop (Z.to_nat nlines) scr'.

Definition scr_home (scr : scroller) : scroller :=
  set_current_c (set_current_r scr 0) 0.

(** [scr_end].  The quotient [strlen(...) / width] is taken in [size_t]:
    a negative [width] is converted to a number larger than any length,
    so that the quotient, and with it the column, is 0. *)
Definition scr_end (scr : scroller) : option scroller :=
  let scr1 := set_current_r scr (scr_length scr - 1) in
  line ← at_index (buffer scr1) (current_r scr1);
  q ← (if win_width scr1 <? 0 then Some 0 else c_div (strlen line) (win_width scr1));
  Some (set_current_c scr1 (q * win_width scr1)).

(** [scr_new]: a scroller on a new window of the given size, its buffer a
    single empty line.  ([pos_r] and [pos_c] place the window on the
    screen, which the scroller never reads back.) *)
Definition scr_new (pos_r pos_c height width : Z) : scroller :=
  mk_scroller [[]] 0 0 0 height width.

(** [scr_move]: the window is replaced by a new one. *)
Definition scr_move (scr : scroller) (pos_r pos_c height width : Z) : scroller :=
  mk_scroller (buffer scr) (current_r scr) (current_c scr) (current_pos scr) height width.

(** The [for (i = 0; i < nlines; i++)] loop of [scr_up]. *)
Fixpoint scr_up_loop (n : nat) (scr : scroller) : option scroller :=
  match n with
  | O => Some scr
  | S n' =>
      if 0 <? current_c scr
      then scr_up_loop n' (set_current_c scr (current_c scr - win_width scr))
      else if 0 <? current_r scr
           then
             let scr1 := set_current_r scr (current_r scr - 1) in
             line ← at_index (buffer scr1) (current_r scr1);
             let length := strlen line in
             if win_width scr1 <? length
             then q ← c_div (length - 1) (win_width scr1);
                  scr_up_loop n' (set_current_c scr1 (q * win_width scr1))
             else scr_up_loop n' scr1
           else Some scr
  end.

Definition scr_up (scr : scroller) (nlines : Z) : option scroller :=
  scr' ← sanity_check scr;
  scr_up_loop (Z.to_nat nlines) scr'.

Definition set_buffer (scr : scroller) (b : list (list Z)) : scroller :=
  mk_scroller b (current_r scr) (current_c scr) (current_pos scr)
              (win_height scr) (win_width scr).

(** [distance = x ? x - buf : strlen(buf)], for [buf] at the index [start]
    of the text and [x] the next new line from there on. *)
Definition distance_to (text : list Z) (start : nat) (x : option nat) : nat :=
  match x with
  | Some q => (q - start)%nat
  | None => (length text - start)%nat
  end.

(** [while (x != NULL)] of [scr_add]: one line is added to the buffer for
    every new line character from [x] on.  [text] is the argument [buf] of
    [scr_add] as it was passed; the pointers [buf] and [x] of the loop are
    indices into it. *)
Fixpoint scr_add_lines (fuel : nat) (scr : scroller) (text : list Z) (x : option nat)
  : option scroller :=
  match fuel with
  | O => None
  | S fuel' =>
      match x with
      | None => Some scr
      | Some q =>
          let buf := S q in
          let x' := strchr text buf 10 in
          let newbuf := take (distance_to text buf x') (drop buf text) in
          '(scr1, line) ← parse (set_current_pos scr 0) [] newbuf;
          scr_add_lines fuel' (set_buffer scr1 (buffer scr1 ++ [line])) text x'
      end
  end.

(** [scr_add].  The last line of the buffer is read before anything else
    ([length = strlen(scr->buffer[scr->length - 1])]). *)
Definition scr_add (scr : scroller) (buf : list Z) : option scroller :=
  let x := strchr buf 0 10 in
  temp ← at_index (buffer scr) (scr_length scr - 1);
  let distance := distance_to buf 0 x in
  scr1 ← (if (0 <? distance)%nat
          then '(scr1, line) ← parse scr temp (take distance buf);
               Some (set_buffer scr1
                       (<[Z.to_nat (scr_length scr1 - 1) := line]> (buffer scr1)))
          else Some scr);
  scr2 ← scr_add_lines (S (length buf)) scr1 buf x;
  scr_end scr2.

(** One round of the two-round [for] loop of [get_line_height]:
    [strtol(escape_char, &escape_char, 10)], then one ';' is stepped over.
    The guard of that loop reads the '[' under [current_char] and is true. *)
Definition skip_parameter (line : list Z) (escape_char : nat) : nat :=
  let e := (strtol line escape_char).2 in
  if peek line e =? 59 then S e else e.

(** The first loop of [get_line_height]: the cells of [line] that are not
    part of a format sequence. *)
Fixpoint count_cells (fuel : nat) (line : list Z) (current_char : nat) (length : Z)
  : option Z :=
  match fuel with
  | O => None
  | S fuel' =>
      if peek line current_char =? 0 then Some length
      else
        let plain := count_cells fuel' line (S current_char) (length + 1) in
        if peek line current_char =? 91 then
          let escape_char := skip_parameter line (skip_parameter line (S current_char)) in
          if peek line escape_char =? 109
          then count_cells fuel' line (S escape_char) length
          else plain
        else plain
  end.

(** [while ((length -= width) > 0) ++height;] *)
Fixpoint height_loop (fuel : nat) (length width height : Z) : option Z :=
  match fuel with
  | O => None
  | S fuel' =>
      let length := length - width in
      if 0 <? length then height_loop fuel' length width (height + 1)
      else Some height
  end.

(** The number of cells [get_line_height] counts in [line]. *)
Definition line_cells (line : list Z) : option Z :=
  count_cells (S (length line)) line O 0.

Definition get_line_height (line : list Z) (width : Z) : option Z :=
  length ← line_cells line;
  height_loop (S (Z.to_nat length)) length width 1.

(** *** Rendering: [scr_refresh] *)

(** What [scr_refresh] asks of curses, in order. *)
Inductive curses_call :=
| wmove (y x : Z)
| wclrtoeol
| init_pair (pair foreground background : Z)
| wattron (attrs : Z)
| wprintw (text : list Z)
| wattroff (attrs : Z)
| curs_set (visibility : Z)
| wrefresh.

(** The constants of <curses.h> (ncurses). *)
Definition A_NORMAL : Z := 0.
Definition A_BOLD : Z := 2097152.
Definition COLOR_PAIR (n : Z) : Z := Z.land (Z.shiftl n 8) 65280.

(** One round of the two-round [for] loop over [color_code] of
    [scr_refresh]: [color_code[i]] and the pointer after the round.  At the
    NUL the loop is left and [color_code[i]] keeps its initial 0. *)
Definition read_color_code (line : list Z) (current_char : nat) : Z * nat :=
  if peek line current_char =? 0 then (0, current_char)
  else
    let '(v, e) := strtol line current_char in
    (int_of_long v, if peek line e =? 59 then S e else e).

(** The body of [for (i = 0; i < 2; ++i)] over the two colour codes:
    attributes, foreground, background. *)
Definition apply_color_code (st : Z * Z * Z) (code : Z) : Z * Z * Z :=
  let '(attributes, foreground, background) := st in
  if code <=? 8 then (Z.lor attributes code, foreground, background)
  else if (30 <=? code) && (code <=? 37) then (attributes, Z.rem code 10, background)
  else if (40 <=? code) && (code <=? 47) then (attributes, foreground, Z.rem code 10)
  else if (90 <=? code) && (code <=? 97)
       then (Z.lor attributes A_BOLD, Z.rem code 10, background)
  else if (100 <=? code) && (code <=? 107)
       then (Z.lor attributes A_BOLD, foreground, Z.rem code 10)
  else st.

(** The locals of [scr_refresh] that live across its loops, with the
    scroller itself and the calls made so far. *)
Record draw_state := mk_draw {
  d_scr : scroller;
  d_row : Z;
  d_pair_no : Z;
  d_cursor_col : Z;
  d_nlines : Z;
  d_total_length : Z;
  d_out : list curses_call
}.

(** The block of [scr_refresh] that tests the first character of a segment
    for '[': attributes, foreground, background, and [segment_start]
    afterwards. *)
Definition format_sequence (line : list Z) (segment_start : nat) : Z * Z * Z * nat :=
  if peek line segment_start =? 91 then
    let '(code0, p0) := read_color_code line (S segment_start) in
    let '(code1, p1) := read_color_code line p0 in
    if peek line p1 =? 109
    then (apply_color_code (apply_color_code (A_NORMAL, -1, -1) code0) code1, S p1)
    else (A_NORMAL, -1, -1, segment_start)
  else (A_NORMAL, -1, -1, segment_start).

(** [segment_end]: the next '[' after the first character, or the end. *)
Definition next_segment (line : list Z) (segment_start : nat) : nat :=
  default (length line) (strchr line (S segment_start) 91).

(** [while (segment_start < line_end)]: the segments of one line. *)
Fixpoint draw_segments (fuel : nat) (line : list Z) (segment_start : nat)
    (st : draw_state) : option draw_state :=
  match fuel with
  | O => None
  | S fuel' =>
      if (segment_start <? length line)%nat then
        let segment_end := next_segment line segment_start in
        let '(attributes, foreground, background, segment_start') :=
          format_sequence line segment_start in
        let segment_length := Z.of_nat segment_end - Z.of_nat segment_start' in
        if segment_length <? 0 then None
        else
          let text := take (Z.to_nat segment_length) (drop segment_start' line) in
          let pair_no := d_pair_no st + 1 in
          let attrs := Z.lor (COLOR_PAIR pair_no) attributes in
          let total_length := d_total_length st + segment_length in
          draw_segments fuel' line segment_end
            (mk_draw (set_current_c (d_scr st) total_length) (d_row st) pair_no
                     (d_cursor_col st) (d_nlines st) total_length
                     (d_out st ++ [init_pair pair_no foreground background;
                                   wattron attrs; wprintw text; wattroff attrs]))
      else Some st
  end.

(** [for (clear_line = 0; clear_line < line_height; ++clear_line)] *)
Definition clear_rows (height nlines line_height : Z) : list curses_call :=
  flat_map (λ clear_line, [wmove (height - nlines - Z.of_nat clear_line) 0; wclrtoeol])
           (seq 0 (Z.to_nat line_height)).

(** One turn of [while (nlines <= height)], its guard being true. *)
Definition draw_line (st : draw_state) : option draw_state :=
  let scr := d_scr st in
  let height := win_height scr in
  let width := win_width scr in
  if d_row st <? 0 then
    Some (mk_draw scr (d_row st) (d_pair_no st) (d_cursor_col st) (d_nlines st + 1)
                  (d_total_length st)
                  (d_out st ++ [wmove (height - d_nlines st) 0; wclrtoeol]))
  else
    line ← at_index (buffer scr) (d_row st);
    line_height ← get_line_height line width;
    st1 ← draw_segments (S (length line)) line O
            (mk_draw scr (d_row st) (d_pair_no st) (d_cursor_col st) (d_nlines st) 0
                     (d_out st ++ clear_rows height (d_nlines st) line_height));
    cursor_col ← (if d_nlines st1 =? 1 then c_mod (d_total_length st1) width
                  else Some (d_cursor_col st1));
    Some (mk_draw (d_scr st1) (d_row st1 - 1) (d_pair_no st1) cursor_col
                  (d_nlines st1 + line_height) (d_total_length st1) (d_out st1)).

Fixpoint draw_loop (fuel : nat) (st : draw_state) : option draw_state :=
  match fuel with
  | O => None
  | S fuel' =>
      if d_nlines st <=? win_height (d_scr st)
      then st' ← draw_line st; draw_loop fuel' st'
      else Some st
  end.

(** The state in which [scr_refresh] enters its drawing loop. *)
Definition draw_init (scr : scroller) : draw_state :=
  mk_draw scr (current_r scr) 100 0 1 0 [].

(** The drawing loop of [scr_refresh], from the sanity check on. *)
Definition scr_refresh_draw (scr : scroller) : option draw_state :=
  scr0 ← sanity_check scr;
  draw_loop (S (Z.to_nat (win_height scr0))) (draw_init scr0).

(** [scr_refresh]: the scroller afterwards and the calls made. *)
Definition scr_refresh (scr : scroller) (focus : bool)
  : option (scroller * list curses_call) :=
  st ← scr_refresh_draw scr;
  let scr' := d_scr st in
  line ← at_index (buffer scr') (current_r scr');
  length ← (if (0 <=? current_c scr') && (current_c scr' <=? strlen line)
            then Some (strlen line - current_c scr') else None);
  let caret :=
    if focus && (current_r scr' =? scr_length scr' - 1) && (length <=? win_width scr')
    then [curs_set 1;
          wmove (win_height scr' - 1)
                (if current_pos scr' <? d_cursor_col st then current_pos scr'
                 else d_cursor_col st)]
    else [curs_set 0] in
  Some (scr', d_out st ++ caret ++ [wrefresh]).

(** [scr_down(scr, 1)], [n] times in a row. *)
Fixpoint scr_down_ticks (n : nat) (scr : scroller) : option scroller :=
  match n with
  | O => Some scr
  | S n' => scr' ← scr_down scr 1; scr_down_ticks n' scr'
  end.

(** The quotient of [a] by [b > 0] rounded up. *)
Definition ceil_div (a b : Z) : Z := - ((- a) / b).

(** The visual height as the specification first writes it:
    [1 + max(0, ceil((L - W) / W) + 1)] if [L > W], else [1]. *)
Definition stated_visual_height (L W : Z) : Z :=
  if W <? L then 1 + Z.max 0 (ceil_div (L - W) W + 1) else 1.

(** ** The window manager ([lib/wm/wm_splitter.c]) *)

Inductive wm_orientation := WM_HORIZONTAL | WM_VERTICAL.

Definition orientation_eqb (a b : wm_orientation) : bool :=
  match a, b with
  | WM_HORIZONTAL, WM_HORIZONTAL | WM_VERTICAL, WM_VERTICAL => true
  | _, _ => false
  end.

(** A curses [WINDOW] as the window manager sees it: what [getbegyx] and
    [getmaxyx] read, and what [wresize] and [mvwin] set. *)
Record WINDOW := mk_WINDOW { begy : Z; begx : Z; maxy : Z; maxx : Z }.

(** The fields of [struct wm_window] the splitter works with.  [w_id]
    stands for the address of the window: the C code compares windows by
    pointer. *)
Record wm_fields := mk_fields {
  w_id : nat;
  cwindow : WINDOW;
  w_top : Z;
  w_left : Z;
  real_height : Z;
  real_width : Z
}.

(** A window is a pane, whose [minimum_size] method answers
    [(min_height, min_width)], or a splitter ([is_splitter]) with its
    orientation and its array of children ([num_children] is the length
    of the list). *)
#[warnings="-register-all"]
Inductive wm_window :=
| Pane (f : wm_fields) (min_height min_width : Z)
| Splitter (f : wm_fields) (orientation : wm_orientation) (children : list wm_window).

(** [struct wm_splitter]: [s_window] is its member [window].  The capacity
    [array_length] of the array is left out: it is doubled before it
    could be exceeded. *)
Record wm_splitter := mk_splitter {
  s_window : wm_fields;
  orientation : wm_orientation;
  children : list wm_window
}.

Definition splitter_window (s : wm_splitter) : wm_window :=
  Splitter (s_window s) (orientation s) (children s).

Definition fields (w : wm_window) : wm_fields :=
  match w with Pane f _ _ => f | Splitter f _ _ => f end.

Definition with_fields (g : wm_fields → wm_fields) (w : wm_window) : wm_window :=
  match w with
  | Pane f h v => Pane (g f) h v
  | Splitter f o cs => Splitter (g f) o cs
  end.

Definition window_id (w : wm_window) : nat := w_id (fields w).

(** The nesting depth of a window: what bounds the recursion of layout. *)
Fixpoint depth (w : wm_window) : nat :=
  match w with
  | Pane _ _ _ => O
  | Splitter _ _ cs => S (foldr Nat.max O (map depth cs))
  end.

(** [get_position] and [get_dimension]: position and size along the split. *)
Definition get_position (o : wm_orientation) (w : wm_window) : Z :=
  match o with WM_HORIZONTAL => w_top (fields w) | WM_VERTICAL => w_left (fields w) end.
Definition get_dimension (o : wm_orientation) (w : wm_window) : Z :=
  match o with
  | WM_HORIZONTAL => real_height (fields w)
  | WM_VERTICAL => real_width (fields w)
  end.

(** [get_position(...) += d] and [get_dimension(...) += d]. *)
Definition add_position (o : wm_orientation) (d : Z) (w : wm_window) : wm_window :=
  with_fields (λ f,
    match o with
    | WM_HORIZONTAL =>
        mk_fields (w_id f) (cwindow f) (w_top f + d) (w_left f) (real_height f) (real_width f)
    | WM_VERTICAL =>
        mk_fields (w_id f) (cwindow f) (w_top f) (w_left f + d) (real_height f) (real_width f)
    end) w.
Definition add_dimension (o : wm_orientation) (d : Z) (w : wm_window) : wm_window :=
  with_fields (λ f,
    match o with
    | WM_HORIZONTAL =>
        mk_fields (w_id f) (cwindow f) (w_top f) (w_left f) (real_height f + d) (real_width f)
    | WM_VERTICAL =>
        mk_fields (w_id f) (cwindow f) (w_top f) (w_left f) (real_height f) (real_width f + d)
    end) w.

(** One child folded into the running height and width of
    [wm_splitter_minimum_size]. *)
Definition minimum_size_step (o : wm_orientation) (acc child : Z * Z) : Z * Z :=
  match o with
  | WM_HORIZONTAL => (acc.1 + child.1, if acc.2 <? child.2 then child.2 else acc.2)
  | WM_VERTICAL => (if acc.1 <? child.1 then child.1 else acc.1, acc.2 + child.2)
  end.

(** [window->minimum_size(window, &height, &width)]: the pane's own answer,
    [wm_splitter_minimum_size] for a splitter. *)
Fixpoint minimum_size (w : wm_window) : Z * Z :=
  match w with
  | Pane _ h v => (h, v)
  | Splitter _ o cs => fold_left (minimum_size_step o) (map minimum_size cs) (0, 0)
  end.

Definition wm_splitter_min_dimension (o : wm_orientation) (w : wm_window) : Z :=
  match o with WM_HORIZONTAL => (minimum_size w).1 | WM_VERTICAL => (minimum_size w).2 end.

(** [wm_splitter_find_child]: the index of the child that is [window],
    [None] for -1. *)
Definition wm_splitter_find_child (s : wm_splitter) (window : nat) : option nat :=
  fst <$> list_find (λ child, window_id child = window) (children s).

Definition set_children (s : wm_splitter) (cs : list wm_window) : wm_splitter :=
  mk_splitter (s_window s) (orientation s) cs.

(** [for (j = i; j < splitter->num_children; ++j) children[j] = children[j+1];]
    on the array [a], [n] turns from [j] on. *)
Fixpoint shift_down (n j : nat) (a : list wm_window) : list wm_window :=
  match n with
  | O => a
  | S n' =>
      match a !! S j with
      | Some next => shift_down n' (S j) (<[j := next]> a)
      | None => a
      end
  end.

(** [wm_splitter_array_remove]: the status and the splitter afterwards
    ([num_children] is decremented before the loop). *)
Definition wm_splitter_array_remove (s : wm_splitter) (window : nat) : Z * wm_splitter :=
  match wm_splitter_find_child s window with
  | None => (-1, s)
  | Some i =>
      let num_children := pred (length (children s)) in
      (0, set_children s (take num_children (shift_down (num_children - i) i (children s))))
  end.

(** [for (i = pos; i < splitter->num_children; ++i) children[i+1] = children[i];]
    on the array [a], [n] turns from [i] on. *)
Fixpoint shift_up (n i : nat) (a : list wm_window) : list wm_window :=
  match n with
  | O => a
  | S n' =>
      match a !! i with
      | Some this => shift_up n' (S i) (<[S i := this]> a)
      | None => a
      end
  end.

(** The end of [wm_splitter_split]: the loop above, [children[pos] = obj]
    and [num_children++].  The array has room for one more child (its
    length is doubled when full); the spare slot is written before it is
    read, and the model lets it hold [obj] from the start.  The list has
    one value per slot: where the loop leaves one pointer in two slots,
    what is said of the result is said of the identities in the slots. *)
Definition array_insert (pos : nat) (obj : wm_window) (cs : list wm_window)
  : list wm_window :=
  <[pos := obj]> (shift_up (length cs - pos) pos (cs ++ [obj])).

(** [wresize] and [mvwin] on the window's canvas. *)
Definition set_cwindow (c : WINDOW) (w : wm_window) : wm_window :=
  with_fields (λ f, mk_fields (w_id f) c (w_top f) (w_left f) (real_height f) (real_width f)) w.

(** [getbegyx(cwindow, top, left); getmaxyx(cwindow, real_height, real_width)]. *)
Definition read_geometry (w : wm_window) : wm_window :=
  with_fields (λ f, mk_fields (w_id f) (cwindow f) (begy (cwindow f)) (begx (cwindow f))
                              (maxy (cwindow f)) (maxx (cwindow f))) w.

(** Modelled from the spec: [wm_window_set_context] of window.c, which is
    not among the sources.  The window adopts the canvas it is handed and
    its placement is the one of that canvas (a fresh child is the 1 x 1
    placeholder that layout looks for). *)
Definition wm_window_set_context (w : wm_window) (c : WINDOW) : wm_window :=
  read_geometry (set_cwindow c w).

(** [while (my_dimension < min && remainder) { my_dimension++; remainder--; }]
    Every turn takes [my_dimension] one step closer to [min], so
    [min - my_dimension] turns are all there can be: the fuel
    [grow_to_minimum] is given never cuts the loop short. *)
Fixpoint grow_loop (fuel : nat) (my_dimension min remainder : Z) : Z * Z :=
  match fuel with
  | O => (my_dimension, remainder)
  | S fuel' =>
      if (my_dimension <? min) && negb (remainder =? 0)
      then grow_loop fuel' (my_dimension + 1) min (remainder - 1)
      else (my_dimension, remainder)
  end.

Definition grow_to_minimum (my_dimension min remainder : Z) : Z * Z :=
  grow_loop (Z.to_nat (min - my_dimension)) my_dimension min remainder.

Section layout.

(** The layout code computes in single precision ([float *proportions]).
    Floating point is not modelled: its two uses are parameters, and what
    is proved below holds whatever they compute.
    - [float_below_min avail cur min] is the test
      [avail * proportions[i] < min] of the first loop, where
      [proportions[i]] holds [cur];
    - [float_share cur prev_dimension avail] is the [int] stored by
      [proportions[i] /= prev_dimension; new_sizes[i] = proportions[i] * avail]. *)
Variable float_below_min : Z → Z → Z → bool.
Variable float_share : Z → Z → Z → Z.

(** The first loop of [wm_splitter_layout]: [redistribute] and
    [prev_dimension] when it is left. *)
Fixpoint layout_scan (o : wm_orientation) (avail : Z) (cs : list wm_window)
    (prev_dimension : Z) : bool * Z :=
  match cs with
  | [] => (false, prev_dimension)
  | child :: rest =>
      let min := wm_splitter_min_dimension o child in
      let cur := get_dimension o child in
      let prev_dimension := prev_dimension + cur in
      if float_below_min avail cur min then (true, prev_dimension)
      else if (real_height (fields child) =? 1) && (real_width (fields child) =? 1)
           then (true, prev_dimension)
           else layout_scan o avail rest prev_dimension
  end.

(** [new_sizes] and [sum] after the second part of [wm_splitter_layout]. *)
Definition layout_sizes (o : wm_orientation) (avail : Z) (cs : list wm_window)
  : list Z * Z :=
  let '(redistribute, prev_dimension) := layout_scan o avail cs 0 in
  if redistribute
  then (map (λ _, Z.quot avail (Z.of_nat (length cs))) cs, avail)
  else
    let new_sizes := map (λ child, float_share (get_dimension o child) prev_dimension avail) cs in
    (new_sizes, fold_left Z.add new_sizes 0).

(** [my_dimension] and [remainder] for the child whose share is
    [new_size]; [last] is [i == splitter->num_children - 1]. *)
Definition layout_dimension (o : wm_orientation) (child : wm_window) (new_size : Z)
    (remainder : Z) (last : bool) : Z * Z :=
  let '(my_dimension, remainder) :=
    grow_to_minimum new_size (wm_splitter_min_dimension o child) remainder in
  if negb (remainder =? 0) && last then (my_dimension + remainder, 0)
  else (my_dimension, remainder).

(** The dimensions the last loop of [wm_splitter_layout] hands to
    [wm_splitter_place_window], child by child. *)
Fixpoint layout_dimensions (o : wm_orientation) (cs : list wm_window)
    (new_sizes : list Z) (remainder : Z) : list Z :=
  match cs, new_sizes with
  | child :: rest, new_size :: sizes =>
      let '(my_dimension, remainder) :=
        layout_dimension o child new_size remainder
                         (match rest with [] => true | _ => false end) in
      my_dimension :: layout_dimensions o rest sizes remainder
  | _, _ => []
  end.

Section level.

(** [wm_window_layout_event] for the children: the knot of the recursion
    through the tree, tied below. *)
Variable layout_event : wm_window → option wm_window.

(** [wm_splitter_place_window]: the canvas is resized and moved, then
    [wm_window_layout_event(window)]. *)
Definition wm_splitter_place_window (w : wm_window) (top left height width : Z)
  : option wm_window :=
  layout_event (set_cwindow (mk_WINDOW top left height width) w).

(** The last loop of [wm_splitter_layout]: each child is placed, then
    notified.  The list holds one window per slot of the array, and stands
    for the array when the children are distinct windows.  Where one
    pointer sits in two slots (the loop of [wm_splitter_split] that makes
    room can leave it so) the C code places the one window once for each
    slot and both slots show the last placement; what is stated below of
    placements after layout is stated for distinct children. *)
Fixpoint layout_place (s : wm_fields) (o : wm_orientation) (cs : list wm_window)
    (dims : list Z) (position : Z) : option (list wm_window) :=
  match cs, dims with
  | child :: rest, my_dimension :: dims' =>
      placed ← match o with
               | WM_HORIZONTAL =>
                   wm_splitter_place_window child position (w_left s)
                                            my_dimension (real_width s)
               | WM_VERTICAL =>
                   wm_splitter_place_window child (w_top s) position
                                            (real_height s) my_dimension
               end;
      notified ← layout_event placed;
      rest' ← layout_place s o rest dims'
                (match o with
                 | WM_HORIZONTAL => position + my_dimension
                 | WM_VERTICAL => position + my_dimension + 1
                 end);
      Some (notified :: rest')
  | _, _ => Some []
  end.

(** The space [wm_splitter_layout] and [wm_splitter_resize_window] share
    out: the height, or the width less one separator column between
    neighbours. *)
Definition layout_available (s : wm_splitter) : Z :=
  match orientation s with
  | WM_HORIZONTAL => real_height (s_window s)
  | WM_VERTICAL => real_width (s_window s) - (Z.of_nat (length (children s)) - 1)
  end.

(** [wm_splitter_layout].  The call of [wm_splitter_redraw] that ends it
    draws and changes no window. *)
Definition wm_splitter_layout (s : wm_splitter) : option wm_splitter :=
  let o := orientation s in
  let avail := layout_available s in
  let '(new_sizes, sum) := layout_sizes o avail (children s) in
  let remainder := avail - sum in
  let position := match o with
                  | WM_HORIZONTAL => w_top (s_window s)
                  | WM_VERTICAL => w_left (s_window s)
                  end in
  cs ← layout_place (s_window s) o (children s)
                    (layout_dimensions o (children s) new_sizes remainder) position;
  Some (set_children s cs).

End level.

(** Modelled from the spec: [wm_window_layout_event] of window.c, which is
    not among the sources.  The window reads its placement back from its
    canvas and runs its [layout] method: [wm_splitter_layout] for a
    splitter ("recursively lay out splitter children"), nothing for a
    pane.  The recursion descends one level of the tree per unit of fuel. *)
Fixpoint wm_window_layout_event (fuel : nat) (w : wm_window) : option wm_window :=
  match fuel with
  | O => None
  | S fuel' =>
      match read_geometry w with
      | Pane f h v => Some (Pane f h v)
      | Splitter f o cs =>
          splitter_window <$>
            wm_splitter_layout (wm_window_layout_event fuel') (mk_splitter f o cs)
      end
  end.

(** [wm_window_layout_event] on a splitter, the splitter cast to a window. *)
Definition wm_splitter_layout_event (fuel : nat) (s : wm_splitter) : option wm_splitter :=
  match fuel with
  | O => None
  | S fuel' =>
      wm_splitter_layout (wm_window_layout_event fuel')
        (mk_splitter (fields (read_geometry (splitter_window s))) (orientation s) (children s))
  end.

(** *** [wm_splitter_resize_window] *)

(** [max], after the loop that takes the minimum of every other child off. *)
Definition resize_max (s : wm_splitter) (window : nat) : Z :=
  fold_left (λ max child,
               if decide (window_id child = window) then max
               else max - wm_splitter_min_dimension (orientation s) child)
            (children s) (layout_available s).

(** [for (k = lo; k < hi; ++k) get_position(splitter, children[k]) += d;] *)
Definition shift_between (o : wm_orientation) (d : Z) (lo hi : nat)
    (cs : list wm_window) : list wm_window :=
  imap (λ k child, if (lo <=? k)%nat && (k <? hi)%nat then add_position o d child
                   else child) cs.

(** "Borrow from successors": the [while] loop from [j] on, with
    [actual_change] and the children when it is left.  The window resized
    is [children[i]]. *)
Fixpoint borrow_successors (fuel : nat) (o : wm_orientation) (i j : nat)
    (desired_change actual_change : Z) (cs : list wm_window)
  : option (Z * list wm_window) :=
  match fuel with
  | O => None
  | S fuel' =>
      if negb (actual_change =? desired_change) && (j <? length cs)%nat then
        child ← cs !! j;
        let avail := get_dimension o child - wm_splitter_min_dimension o child in
        let this_change := desired_change - actual_change in
        let this_change := if avail <? this_change then avail else this_change in
        let cs := alter (add_position o this_change) j cs in
        let cs := alter (add_dimension o (- this_change)) j cs in
        let cs := alter (add_dimension o this_change) i cs in
        let cs := shift_between o this_change (S i) j cs in
        borrow_successors fuel' o i (S j) desired_change (actual_change + this_change) cs
      else Some (actual_change, cs)
  end.

(** "Borrow from predecessors": the [while] loop with [j = m - 1] going
    down to 0. *)
Fixpoint borrow_predecessors (m : nat) (o : wm_orientation) (i : nat)
    (desired_change actual_change : Z) (cs : list wm_window)
  : option (Z * list wm_window) :=
  match m with
  | O => Some (actual_change, cs)
  | S j =>
      if negb (actual_change =? desired_change) then
        child ← cs !! j;
        let avail := get_dimension o child - wm_splitter_min_dimension o child in
        let this_change := desired_change - actual_change in
        let this_change := if avail <? this_change then avail else this_change in
        let cs := alter (add_dimension o (- this_change)) j cs in
        let cs := alter (add_position o (- this_change)) i cs in
        let cs := alter (add_dimension o this_change) i cs in
        let cs := shift_between o (- this_change) (S j) i cs in
        borrow_predecessors j o i desired_change (actual_change + this_change) cs
      else Some (actual_change, cs)
  end.

(** The test of the last loop of [wm_splitter_resize_window]: the fields
    of the child are those of its canvas. *)
Definition in_place (w : wm_window) : bool :=
  let f := fields w in
  (w_top f =? begy (cwindow f)) && (w_left f =? begx (cwindow f)) &&
  (real_height f =? maxy (cwindow f)) && (real_width f =? maxx (cwindow f)).

(** "Place windows that have been updated". *)
Fixpoint resize_place (fuel : nat) (cs : list wm_window) : option (list wm_window) :=
  match cs with
  | [] => Some []
  | child :: rest =>
      child' ← (if in_place child then Some child
                else let f := fields child in
                     wm_splitter_place_window (wm_window_layout_event fuel) child
                       (w_top f) (w_left f) (real_height f) (real_width f));
      rest' ← resize_place fuel rest;
      Some (child' :: rest')
  end.

(** The children after the arithmetic of [wm_splitter_resize_window], for
    the child at index [i] and a change that is not 0.  As in
    [layout_place] the list holds one window per slot: rows taken from the
    window in one slot are taken from that slot alone, which is what the
    C code does when the children are distinct windows. *)
Definition resize_children (o : wm_orientation) (i : nat) (desired_change : Z)
    (cs : list wm_window) : option (list wm_window) :=
  if desired_change <? 0 then
    let wrapped := (S i =? length cs)%nat in
    let next := if wrapped then pred i else S i in
    _ ← cs !! next;
    let cs := alter (add_dimension o (- desired_change)) next cs in
    let cs := alter (add_dimension o desired_change) i cs in
    Some (if wrapped then alter (add_position o (- desired_change)) i cs
          else alter (add_position o desired_change) next cs)
  else
    '(actual_change, cs) ← borrow_successors (length cs) o i (S i) desired_change 0 cs;
    '(_, cs) ← borrow_predecessors i o i desired_change actual_change cs;
    Some cs.

(** [wm_splitter_resize_window]: the status returned and the splitter
    afterwards.  The pointer [window] is given as the window it points to;
    when that is a child, the child is [children[i]]. *)
Definition wm_splitter_resize_window (fuel : nat) (s : wm_splitter) (window : wm_window)
    (dir : wm_orientation) (size : Z) : option (Z * wm_splitter) :=
  let o := orientation s in
  let min := wm_splitter_min_dimension o window in
  if (length (children s) =? 1)%nat then Some (-1, s)
  else if negb (orientation_eqb dir o) then Some (-1, s)
  else
    let size := if size <? min then min else size in
    let max := resize_max s (window_id window) in
    let size := if max <? size then max else size in
    let desired_change := size - get_dimension o window in
    if desired_change =? 0 then Some (0, s)
    else
      match wm_splitter_find_child s (window_id window) with
      | None => Some (-1, s)
      | Some i =>
          cs ← resize_children o i desired_change (children s);
          cs' ← resize_place fuel cs;
          Some (0, set_children s cs')
      end.

(** *** [wm_splitter_split] *)

(** [derwin(parent, 1, 1, 0, 0)]. *)
Definition derwin_1x1 (parent : WINDOW) : WINDOW :=
  mk_WINDOW (begy parent) (begx parent) 1 1.

(** [wm_splitter_create], the new splitter at the address [id].  The
    fields [wm_window_init] gives it are set by [wm_window_set_context]
    before they are read. *)
Definition wm_splitter_create (o : wm_orientation) (id : nat) : wm_splitter :=
  mk_splitter (mk_fields id (mk_WINDOW 0 0 0 0) 0 0 0 0) o [].

(** [wm_splitter_split]: the status returned and the splitter afterwards.
    [window] is [None] for NULL; [new_splitter] is the address of the
    splitter the call may create.  The two inner calls are made on that
    new splitter, in its own orientation, and call no further:
    [depth_fuel] bounds the nesting of the calls and 2 is enough
    ([split_returns] below); [fuel] is the fuel of layout.  When two
    children or more follow the target, [array_insert] leaves one window
    in two slots, and the layout that ends the call places them as two
    windows: of such a result the windows in the slots are the code's,
    their placements are not. *)
Fixpoint wm_splitter_split (depth_fuel fuel : nat) (s : wm_splitter)
    (window : option wm_window) (new_window : wm_window) (o : wm_orientation)
    (new_splitter : nat) : option (Z * wm_splitter) :=
  match depth_fuel with
  | O => None
  | S depth_fuel' =>
      let found :=
        match window with
        | Some w => (λ i, S i) <$> wm_splitter_find_child s (window_id w)
        | None => if orientation_eqb o (orientation s)
                  then Some (length (children s)) else None
        end in
      match found with
      | None => Some (-1, s)
      | Some pos =>
          '(s1, obj, pos) ←
            (if orientation_eqb o (orientation s) then
               Some (s, wm_window_set_context new_window (derwin_1x1 (cwindow (s_window s))),
                     pos)
             else
               target ← children s !! pred pos;
               let created :=
                 mk_splitter
                   (fields (wm_window_set_context
                              (splitter_window (wm_splitter_create o new_splitter))
                              (cwindow (fields target))))
                   o [] in
               let s1 := (wm_splitter_array_remove s (window_id target)).2 in
               '(_, created) ← wm_splitter_split depth_fuel' fuel created None target o
                                 new_splitter;
               '(_, created) ← wm_splitter_split depth_fuel' fuel created (Some target)
                                 new_window o new_splitter;
               Some (s1, splitter_window created, pred pos));
          s2 ← wm_splitter_layout_event fuel
                 (set_children s1 (array_insert pos obj (children s1)));
          Some (0, s2)
      end
  end.

(** *** [wm_splitter_remove] *)

(** Modelled from the spec: the focus handle of the window manager
    ([wm_is_focused] and [wm_focus] of wm.c, which is not among the
    sources): the tree owns the handle of the one focused window. *)
Record window_manager := mk_wm { focused : nat }.

Definition wm_is_focused (wm : window_manager) (w : nat) : bool :=
  bool_decide (focused wm = w).
Definition wm_focus (wm : window_manager) (w : wm_window) : window_manager :=
  mk_wm (window_id w).

(** What [wm_splitter_remove] leaves behind: the splitter itself; or,
    collapsed, its parent with the last child in its place; or that child
    as the new main window ([wm_new_main]) when it had no parent. *)
Inductive removed :=
| Remains (s : wm_splitter)
| Collapsed (parent : wm_splitter)
| New_main (child : wm_window).

(** [parent->children[i] = child] for the first [i] with
    [parent->children[i] == self]. *)
Definition replace_child (self : nat) (child : wm_window) (cs : list wm_window)
  : list wm_window :=
  match list_find (λ c, window_id c = self) cs with
  | Some (i, _) => <[i := child]> cs
  | None => cs
  end.

(** [wm_splitter_remove]: the status, the window manager and what is left.
    [parent] is [self->parent]; [None] for the result is the failed
    [assert], or layout out of fuel. *)
Definition wm_splitter_remove (fuel : nat) (wm : window_manager)
    (parent : option wm_splitter) (s : wm_splitter) (window : nat)
  : option (Z * window_manager * removed) :=
  let need_focus := wm_is_focused wm window in
  if (length (children s) <? 2)%nat then None
  else
    let '(status, s1) := wm_splitter_array_remove s window in
    if negb (status =? 0) then Some (-1, wm, Remains s)
    else
      match children s1 with
      | [child] =>
          match parent with
          | Some p =>
              let child := wm_window_set_context child (cwindow (s_window s)) in
              let p1 := set_children p (replace_child (w_id (s_window s)) child (children p)) in
              let wm1 := if need_focus then wm_focus wm child else wm in
              p2 ← wm_splitter_layout_event fuel p1;
              Some (0, wm1, Collapsed p2)
          | None => Some (0, wm, New_main child)
          end
      | _ =>
          wm1 ← (if need_focus then wm_focus wm <$> children s1 !! O else Some wm);
          s2 ← wm_splitter_layout_event fuel s1;
          Some (0, wm1, Remains s2)
      end.

End layout.

(** *** [wm_splitter_get_neighbor] and [wm_splitter_find_window_at] *)

(** The directions [wm_splitter_get_neighbor] switches on, and the cursor
    position it is handed ([cursor_pos.top], [cursor_pos.left]).  The
    header that declares them is not among the sources; these are the
    values and members the code names. *)
Inductive wm_direction := WM_UP | WM_DOWN | WM_LEFT | WM_RIGHT.

Record wm_position := mk_position { p_top : Z; p_left : Z }.

(** The test of the loop of [wm_splitter_find_window_at] for the child
    at index [i]: the cursor lies within the child along the split, or
    before the first child, or after the last. *)
Definition window_at_hit (o : wm_orientation) (cursor_pos : wm_position)
    (child : wm_window) (first last : bool) : bool :=
  let value := match o with
               | WM_HORIZONTAL => p_top cursor_pos
               | WM_VERTICAL => p_left cursor_pos
               end in
  let lower_bound := get_position o child in
  let upper_bound := get_position o child + get_dimension o child in
  (lower_bound <=? value) && (value <? upper_bound)
  || first && (value <? lower_bound)
  || last && (upper_bound <=? value).

(** The loop of [wm_splitter_find_window_at] from the index of the head
    of [cs] on: the first child that passes the test, [None] for NULL. *)
Fixpoint find_child_at (o : wm_orientation) (cursor_pos : wm_position)
    (cs : list wm_window) (first : bool) : option wm_window :=
  match cs with
  | [] => None
  | child :: rest =>
      if window_at_hit o cursor_pos child first (match rest with [] => true | _ => false end)
      then Some child
      else find_child_at o cursor_pos rest false
  end.

(** What [wm_splitter_find_window_at] makes of a window it has found: the
    window itself, or for a splitter what the search in it gives.  The
    loop of the search is the inner [fix]. *)
Fixpoint window_at (cursor_pos : wm_position) (w : wm_window) : option wm_window :=
  match w with
  | Pane _ _ _ => Some w
  | Splitter _ o cs =>
      (fix loop (cs : list wm_window) (first : bool) : option wm_window :=
         match cs with
         | [] => None
         | child :: rest =>
             if window_at_hit o cursor_pos child first
                  (match rest with [] => true | _ => false end)
             then window_at cursor_pos child
             else loop rest false
         end) cs true
  end.

(** [wm_splitter_find_window_at]: [None] for NULL. *)
Definition wm_splitter_find_window_at (s : wm_splitter) (cursor_pos : wm_position)
  : option wm_window :=
  window_at cursor_pos (splitter_window s).

(** The loop of [case WM_UP: case WM_LEFT:], from the index 1 on:
    [previous] is the child before the head of [cs]. *)
Fixpoint neighbor_before (window : nat) (previous : wm_window) (cs : list wm_window)
  : option wm_window :=
  match cs with
  | [] => None
  | child :: rest =>
      if decide (window_id child = window) then Some previous
      else neighbor_before window child rest
  end.

(** The loop of [case WM_DOWN: case WM_RIGHT:]: the last child is not
    looked at. *)
Fixpoint neighbor_after (window : nat) (cs : list wm_window) : option wm_window :=
  match cs with
  | child :: ((next :: _) as rest) =>
      if decide (window_id child = window) then Some next
      else neighbor_after window rest
  | _ => None
  end.

(** The first test of [wm_splitter_get_neighbor]: the direction runs
    across the split. *)
Definition across (o : wm_orientation) (dir : wm_direction) : bool :=
  match o, dir with
  | WM_HORIZONTAL, (WM_LEFT | WM_RIGHT) => true
  | WM_VERTICAL, (WM_UP | WM_DOWN) => true
  | _, _ => false
  end.

(** [wm_splitter_get_neighbor]: [None] for NULL.  The chain of [parent]
    links above the splitter is given as the list [parents], the nearest
    first; [window] is compared by address. *)
Fixpoint wm_splitter_get_neighbor (splitter : wm_splitter) (parents : list wm_splitter)
    (window : nat) (dir : wm_direction) (cursor_pos : wm_position) : option wm_window :=
  if across (orientation splitter) dir then
    match parents with
    | [] => None
    | parent :: parents' =>
        wm_splitter_get_neighbor parent parents' (w_id (s_window splitter)) dir cursor_pos
    end
  else
    let result :=
      match dir with
      | WM_UP | WM_LEFT =>
          match children splitter with
          | [] => None
          | first :: rest => neighbor_before window first rest
          end
      | WM_DOWN | WM_RIGHT => neighbor_after window (children splitter)
      end in
    match result with
    | Some (Splitter f o cs) => wm_splitter_find_window_at (mk_splitter f o cs) cursor_pos
    | _ => result
    end.

(** The two parameters of layout as exact arithmetic would have them:
    what the examples below run the code with.  The single-precision
    computation of the C code can round to a neighbouring value; the
    theorems are proved for every pair of parameters, and the examples
    show the statement at work, not the numbers the C code prints. *)
Definition exact_below_min (avail cur min : Z) : bool := avail * cur <? min.
Definition exact_share (cur prev_dimension avail : Z) : Z :=
  Z.quot (cur * avail) prev_dimension.

(** ** Windows to run the code on *)

(** A pane that has been placed at a rectangle, with minimum size 1 x 1. *)
Definition placed_pane (id : nat) (top left height width : Z) : wm_window :=
  Pane (mk_fields id (mk_WINDOW top left height width) top left height width) 1 1.

(** A pane that has not been laid out yet: the 1 x 1 placeholder. *)
Definition new_pane (id : nat) : wm_window := placed_pane id 0 0 1 1.

(** A splitter placed at a rectangle. *)
Definition placed_splitter (id : nat) (top left height width : Z) (o : wm_orientation)
    (cs : list wm_window) : wm_splitter :=
  mk_splitter (mk_fields id (mk_WINDOW top left height width) top left height width) o cs.

(** 21 rows, a pane that had them all and a second pane just inserted. *)
Definition two_rows : wm_splitter :=
  placed_splitter 0 0 0 21 80 WM_HORIZONTAL [placed_pane 1 0 0 21 80; new_pane 2].

(** 30 rows shared by three panes. *)
Definition three_rows : wm_splitter :=
  placed_splitter 0 0 0 30 80 WM_HORIZONTAL
    [placed_pane 1 0 0 10 80; placed_pane 2 10 0 10 80; placed_pane 3 20 0 10 80].

(** 20 rows: a pane above a vertical splitter of two panes. *)
Definition nested_rows : wm_splitter :=
  placed_splitter 0 0 0 20 81 WM_HORIZONTAL
    [placed_pane 1 0 0 10 81;
     splitter_window (placed_splitter 2 10 0 10 81 WM_VERTICAL
                        [placed_pane 3 10 0 10 40; placed_pane 4 10 41 10 40])].

(** ** Notions the statements below are written with *)

(** *** The scroller *)

(** What rendering may change of a scroller is [current.c] alone. *)
Definition same_but_c (a b : scroller) : Prop :=
  buffer b = buffer a ∧ current_r b = current_r a ∧ current_pos b = current_pos a ∧
  win_height b = win_height a ∧ win_width b = win_width a.

(** The scroller [scr] with its viewport cursor at row [r], column [c]. *)
Definition at_rc (scr : scroller) (r c : Z) : scroller :=
  set_current_c (set_current_r scr r) c.

(** Some number of [scr_down(scr, 1)] takes [a] to [b]. *)
Definition reach (a b : scroller) : Prop := ∃ n, scr_down_ticks n a = Some b.

(** The viewport cursor rests on a row of the buffer, at the start of one
    of the window-wide pieces of that line. *)
Definition viewport_ok (scr : scroller) : Prop :=
  1 ≤ win_width scr ∧
  ∃ line k, at_index (buffer scr) (current_r scr) = Some line ∧
            0 ≤ k ∧ current_c scr = k * win_width scr ∧
            (current_c scr = 0 ∨ current_c scr < strlen line).

(** What scrolling leaves alone: the buffer, the caret and the window. *)
Definition same_text (a b : scroller) : Prop :=
  buffer b = buffer a ∧ current_pos b = current_pos a ∧
  win_height b = win_height a ∧ win_width b = win_width a.

(** A C string: no NUL among its characters. *)
Definition c_string (s : list Z) : Prop := Forall (λ ch, ch ≠ 0) s.

(** The caret of [scr_add] lies within the last line of the buffer. *)
Definition caret_within (scr : scroller) : Prop :=
  ∃ last, at_index (buffer scr) (scr_length scr - 1) = Some last ∧ c_string last ∧
          0 ≤ current_pos scr ≤ strlen last.

(** Text made of printable characters only. *)
Definition printable (s : list Z) : Prop := Forall (λ ch, isprint ch = true) s.

(** The cells of the array [rv] before the caret [i] hold characters. *)
Definition filled (rv : list Z) (i : Z) : Prop :=
  ∀ k c, (k < Z.to_nat i)%nat → rv !! k = Some c → c ≠ 0.

(** What the drawing loop has made of [current.c] once a line that is
    not empty has been drawn: the number of cells of the topmost such
    line drawn so far, the row [r]. *)
Definition column_of_drawn (st : draw_state) (r : Z) (drawn : list Z) (L : Z) : Prop :=
  d_row st < r ≤ current_r (d_scr st) ∧
  at_index (buffer (d_scr st)) r = Some drawn ∧ drawn ≠ [] ∧
  line_cells drawn = Some L ∧ current_c (d_scr st) = L ∧
  ∀ r', d_row st < r' < r → at_index (buffer (d_scr st)) r' = Some [].

(** [text] written over the line from the caret [pos] on: the line grows
    where the text runs over its end. *)
Definition write_at (pos : Z) (text line : list Z) : list Z :=
  take (Z.to_nat pos) line ++ text ++ drop (Z.to_nat pos + length text) line.

(** The character table as the specification writes it, for one input
    character on a line with the caret at [pos]: BS and DEL take the
    caret back when it is positive; TAB writes spaces at the caret until
    the caret is a multiple of 8, at least one; CR takes the caret to 0; a
    printable character is written at the caret, which advances; every
    other character is ignored. *)
Definition table_step (st : list Z * Z) (ch : Z) : list Z * Z :=
  let '(line, pos) := st in
  if (ch =? 8) || (ch =? 127) then (line, if 0 <? pos then pos - 1 else pos)
  else if ch =? 9 then
    let n := 8 - pos mod 8 in
    (write_at pos (replicate (Z.to_nat n) 32) line, pos + n)
  else if ch =? 13 then (line, 0)
  else if isprint ch then (write_at pos [ch] line, pos + 1)
  else (line, pos).

(** A segment of input interpreted by the table, character by character. *)
Definition interpret_segment (buf line : list Z) (pos : Z) : list Z * Z :=
  fold_left table_step buf (line, pos).

(** A string without the white space it ends with. *)
Fixpoint drop_trailing_space (l : list Z) : list Z :=
  match l with
  | [] => []
  | ch :: rest =>
      match drop_trailing_space rest with
      | [] => if isspace ch then [] else [ch]
      | kept => ch :: kept
      end
  end.

(** The line without its trailing white space strictly beyond the caret:
    the cells up to the caret and the one under it stay as they are. *)
Definition trim_beyond_caret (pos : Z) (line : list Z) : list Z :=
  take (S (Z.to_nat pos)) line ++ drop_trailing_space (drop (S (Z.to_nat pos)) line).

(** A line as the specification reads it: pieces of text, and format
    sequences of the recognized subset, '[' n1 (';' n2)? 'm' with [n1] and
    [n2] decimal numbers. *)
Inductive piece :=
| Text (s : list Z)
| Sgr (n1 : list Z) (n2 : option (list Z)).

(** A decimal number: one digit or more. *)
Definition digits (n : list Z) : Prop := n ≠ [] ∧ Forall (λ ch, isdigit ch = true) n.

(** A character that cannot go on a format sequence after the '[': no
    digit, no white space, no sign, no ';' and no 'm'. *)
Definition inert (ch : Z) : Prop :=
  isdigit ch = false ∧ isspace ch = false ∧ ch ≠ 43 ∧ ch ≠ 45 ∧ ch ≠ 59 ∧ ch ≠ 109.

(** Text that holds no format sequence: every '[' in it is followed, in
    the text, by a character that cannot go on a sequence. *)
Definition literal_text (s : list Z) : Prop :=
  c_string s ∧ ∀ k, s !! k = Some 91 → ∃ ch, s !! S k = Some ch ∧ inert ch.

Definition piece_ok (p : piece) : Prop :=
  match p with
  | Text s => literal_text s
  | Sgr n1 None => digits n1
  | Sgr n1 (Some n2) => digits n1 ∧ digits n2
  end.

(** The characters of a piece, and the line made of pieces. *)
Definition piece_chars (p : piece) : list Z :=
  match p with
  | Text s => s
  | Sgr n1 None => 91 :: n1 ++ [109]
  | Sgr n1 (Some n2) => 91 :: n1 ++ 59 :: n2 ++ [109]
  end.

Definition line_of (ps : list piece) : list Z := concat (map piece_chars ps).

(** The cells of a line as the specification counts them: the characters
    of its text, none for a format sequence. *)
Definition piece_cells (p : piece) : Z :=
  match p with Text s => strlen s | Sgr _ _ => 0 end.

Definition visible_cells (ps : list piece) : Z :=
  foldr (λ p n, piece_cells p + n) 0 ps.

(** *** The splitter *)

(** The children of a window: none for a pane. *)
Definition kids (w : wm_window) : list wm_window :=
  match w with Pane _ _ _ => [] | Splitter _ _ cs => cs end.

(** The size of a window across the split of orientation [o]. *)
Definition cross_dimension (o : wm_orientation) (f : wm_fields) : Z :=
  match o with WM_HORIZONTAL => real_width f | WM_VERTICAL => real_height f end.

(** The position of a window across the split of orientation [o]. *)
Definition cross_position (o : wm_orientation) (f : wm_fields) : Z :=
  match o with WM_HORIZONTAL => w_left f | WM_VERTICAL => w_top f end.

(** What lies between two neighbours: the separator column of a vertical
    splitter. *)
Definition separator (o : wm_orientation) : Z :=
  match o with WM_HORIZONTAL => 0 | WM_VERTICAL => 1 end.

(** The children lie one after the other along the split, the first at
    [position]. *)
Fixpoint tiled (o : wm_orientation) (position : Z) (cs : list wm_window) : Prop :=
  match cs with
  | [] => True
  | child :: rest =>
      get_position o child = position ∧
      tiled o (position + get_dimension o child + separator o) rest
  end.

(** The two directions along a split: toward the next child and toward
    the previous one. *)
Definition forward (o : wm_orientation) : wm_direction :=
  match o with WM_HORIZONTAL => WM_DOWN | WM_VERTICAL => WM_RIGHT end.
Definition backward (o : wm_orientation) : wm_direction :=
  match o with WM_HORIZONTAL => WM_UP | WM_VERTICAL => WM_LEFT end.

(** A window that is a pane. *)
Definition is_pane (w : wm_window) : Prop :=
  match w with Pane _ _ _ => True | Splitter _ _ _ => False end.

(** What the loops of [wm_splitter_resize_window] keep while they take
    [actual] rows or columns from the other children for the child at
    [i]: every child has the minimum size it had; every other child is at
    least as large as its minimum; the child at [i] has grown by
    [actual], which is no more than what is desired; and unless all that
    is desired has been taken, the children [exhausted] are down to their
    minimum. *)
Definition borrowing (o : wm_orientation) (i : nat) (desired_change actual_change : Z)
    (cs0 cs : list wm_window) (exhausted : nat → Prop) : Prop :=
  length cs = length cs0 ∧ 0 ≤ actual_change ≤ desired_change ∧
  (∀ k c0 c, cs0 !! k = Some c0 → cs !! k = Some c →
             wm_splitter_min_dimension o c = wm_splitter_min_dimension o c0 ∧
             (k ≠ i → wm_splitter_min_dimension o c ≤ get_dimension o c) ∧
             (k = i → get_dimension o c = get_dimension o c0 + actual_change)) ∧
  (actual_change = desired_change
   ∨ ∀ k c, exhausted k → cs !! k = Some c →
            get_dimension o c = wm_splitter_min_dimension o c).

(** A window without its placement and its canvas: which window it is,
    what kind, and the windows nested in it. *)
Fixpoint skeleton (w : wm_window) : wm_window :=
  match w with
  | Pane f h v => Pane (mk_fields (w_id f) (mk_WINDOW 0 0 0 0) 0 0 0 0) h v
  | Splitter f o cs =>
      Splitter (mk_fields (w_id f) (mk_WINDOW 0 0 0 0) 0 0 0 0) o (map skeleton cs)
  end.

(** The sum of a list of integers. *)
Definition sum_Z (l : list Z) : Z := foldr Z.add 0 l.

(** The splitter as [wm_window_layout_event] hands it to
    [wm_splitter_layout]: its placement read back from its canvas. *)
Definition adopted (s : wm_splitter) : wm_splitter :=
  mk_splitter (fields (read_geometry (splitter_window s))) (orientation s) (children s).

(** The sum of the children's dimensions along the split. *)
Definition total (o : wm_orientation) (cs : list wm_window) : Z :=
  sum_Z (map (get_dimension o) cs).

(** [w] with the placement ([top], [left], [real_height], [real_width]) of [p]. *)
Definition replace_placement (p : wm_fields) (w : wm_window) : wm_window :=
  with_fields (λ f, mk_fields (w_id f) (cwindow f) (w_top p) (w_left p)
                              (real_height p) (real_width p)) w.

(** [c'] is [c] but for its placement: what the arithmetic of resize may
    do to a child. *)
Definition moved (c c' : wm_window) : Prop := c' = replace_placement (fields c') c.

(** What the last loop of [wm_splitter_resize_window] makes of a child:
    the child itself when its fields are those of its canvas, else the
    child on a canvas at its fields, and laid out. *)
Definition replaced (c1 c' : wm_window) : Prop :=
  window_id c' = window_id c1 ∧
  w_top (fields c') = w_top (fields c1) ∧ w_left (fields c') = w_left (fields c1) ∧
  real_height (fields c') = real_height (fields c1) ∧
  real_width (fields c') = real_width (fields c1) ∧
  if in_place c1 then c' = c1
  else cwindow (fields c')
       = mk_WINDOW (w_top (fields c1)) (w_left (fields c1))
                   (real_height (fields c1)) (real_width (fields c1)).

(* ================================================================== *)
(** * Part II: theorems *)

(** ** Visual height of a line *)

Lemma ceil_div_sub a b : 0 < b → ceil_div (a - b) b = ceil_div a b - 1.
Proof.
  intros Hb. unfold ceil_div.
  replace (- (a - b)) with (- a + 1 * b) by lia.
  rewrite Z.div_add by lia. lia.
Qed.

Lemma ceil_div_le_1 a b : 0 < b → a ≤ b → ceil_div a b ≤ 1.
Proof.
  intros Hb Ha. unfold ceil_div.
  assert (-1 ≤ - a / b); [|lia].
  apply Z.div_le_lower_bound; lia.
Qed.

Lemma ceil_div_pos a b : 0 < b → 0 < a → 1 ≤ ceil_div a b.
Proof.
  intros Hb Ha. unfold ceil_div.
  assert (- a / b < 0); [|lia].
  apply Z.div_lt_upper_bound; lia.
Qed.

Lemma ceil_div_nonpos a b : 0 < b → a ≤ 0 → ceil_div a b ≤ 0.
Proof.
  intros Hb Ha. unfold ceil_div.
  assert (0 ≤ - a / b); [|lia].
  apply Z.div_pos; lia.
Qed.

Lemma height_loop_spec fuel : ∀ length width height,
  1 ≤ width → (Z.to_nat length < fuel)%nat →
  height_loop fuel length width height
  = Some (height + Z.max 0 (ceil_div length width - 1)).
Proof.
  induction fuel as [|fuel IH]; intros length width height Hw Hf; [lia|].
  simpl. destruct (Z.ltb_spec 0 (length - width)) as [Hlt|Hge].
  - rewrite IH by lia. f_equal.
    rewrite ceil_div_sub by lia.
    pose proof (ceil_div_pos (length - width) width ltac:(lia) Hlt) as Hp.
    rewrite ceil_div_sub in Hp by lia. lia.
  - f_equal. pose proof (ceil_div_le_1 length width ltac:(lia) ltac:(lia)). lia.
Qed.

Lemma peek_nonzero_lt s p : peek s p ≠ 0 → (p < length s)%nat.
Proof.
  intros H. destruct (Nat.lt_ge_cases p (length s)) as [|Hge]; [done|].
  unfold peek in H. rewrite nth_overflow in H by lia. done.
Qed.

Lemma strtol_end_ge s p : (p ≤ (strtol s p).2)%nat.
Proof.
  unfold strtol.
  destruct (drop (span_space (drop p s)) (drop p s)) as [|ch l1];
    [|destruct (ch =? 45); [|destruct (ch =? 43)]];
    match goal with |- context [span_digits ?l ?a] => destruct (span_digits l a) as [v [|nd]] end;
    simpl; lia.
Qed.

Lemma skip_parameter_ge line e : (e ≤ skip_parameter line e)%nat.
Proof.
  unfold skip_parameter. pose proof (strtol_end_ge line e).
  destruct (peek line _ =? 59); lia.
Qed.

Lemma count_cells_total fuel : ∀ line cur len,
  (S (length line) ≤ fuel + cur)%nat → (1 ≤ fuel)%nat →
  ∃ L, count_cells fuel line cur len = Some L ∧ len ≤ L.
Proof.
  induction fuel as [|fuel IH]; intros line cur len Hf H1; [lia|].
  simpl. destruct (Z.eqb_spec (peek line cur) 0) as [|Hnz].
  { exists len. split; [done|lia]. }
  apply peek_nonzero_lt in Hnz.
  assert (Hplain : ∃ L, count_cells fuel line (S cur) (len + 1) = Some L ∧ len ≤ L).
  { destruct (IH line (S cur) (len + 1)) as (L & HL & Hle); [lia..|].
    exists L. split; [done|lia]. }
  destruct (peek line cur =? 91); [|done].
  set (e := skip_parameter line (skip_parameter line (S cur))).
  assert (S cur ≤ e)%nat.
  { subst e. pose proof (skip_parameter_ge line (S cur)).
    pose proof (skip_parameter_ge line (skip_parameter line (S cur))). lia. }
  destruct (peek line e =? 109); [|done].
  apply IH; lia.
Qed.

Lemma line_cells_total line : ∃ L, line_cells line = Some L ∧ 0 ≤ L.
Proof. apply count_cells_total; lia. Qed.

Lemma peek_lookup s p ch : s !! p = Some ch → peek s p = ch.
Proof. intros H. unfold peek. by rewrite nth_lookup, H. Qed.

Lemma peek_c_string s p : c_string s → (p < length s)%nat → peek s p ≠ 0.
Proof.
  intros Hs Hp. destruct (lookup_lt_is_Some_2 s p Hp) as [ch Hch].
  rewrite (peek_lookup _ _ _ Hch). by eapply (Forall_lookup_1 _ _ _ _ Hs).
Qed.

(** The fuel of [count_cells] does not matter once it covers the line. *)
Lemma count_cells_fuel line : ∀ fuel fuel' cur len,
  (S (length line) ≤ fuel + cur)%nat → (S (length line) ≤ fuel' + cur)%nat →
  (1 ≤ fuel)%nat → (1 ≤ fuel')%nat →
  count_cells fuel line cur len = count_cells fuel' line cur len.
Proof.
  induction fuel as [|fuel IH]; intros [|fuel'] cur len Hf Hf' H1 H1'; try lia.
  cbn [count_cells]. destruct (Z.eqb_spec (peek line cur) 0) as [|Hnz]; [done|].
  apply peek_nonzero_lt in Hnz.
  rewrite (IH fuel' (S cur) (len + 1)) by lia.
  destruct (peek line cur =? 91); [|done].
  set (e := skip_parameter line (skip_parameter line (S cur))).
  assert (S cur ≤ e)%nat.
  { subst e. pose proof (skip_parameter_ge line (S cur)).
    pose proof (skip_parameter_ge line (skip_parameter line (S cur))). lia. }
  destruct (peek line e =? 109); [|done].
  apply IH; lia.
Qed.

Lemma count_cells_end line cur len :
  (length line ≤ cur)%nat → count_cells (S (length line)) line cur len = Some len.
Proof.
  intros Hcur. cbn [count_cells]. unfold peek. by rewrite nth_overflow by lia.
Qed.

(** One character that is not the start of a format sequence counts as
    one cell. *)
Lemma count_cells_plain line cur len :
  peek line cur ≠ 0 →
  peek line cur ≠ 91
  ∨ peek line (skip_parameter line (skip_parameter line (S cur))) ≠ 109 →
  count_cells (S (length line)) line cur len
  = count_cells (S (length line)) line (S cur) (len + 1).
Proof.
  intros Hnz Hplain. pose proof (peek_nonzero_lt _ _ Hnz) as Hlt.
  cbn [count_cells]. destruct (Z.eqb_spec (peek line cur) 0); [done|].
  rewrite (count_cells_fuel line (length line) (S (length line)) (S cur)) by lia.
  destruct (Z.eqb_spec (peek line cur) 91); [|done].
  destruct (Z.eqb_spec (peek line (skip_parameter line (skip_parameter line (S cur)))) 109);
    [|done].
  destruct Hplain; done.
Qed.

(** A format sequence counts as no cell. *)
Lemma count_cells_sequence line cur len :
  peek line cur = 91 →
  peek line (skip_parameter line (skip_parameter line (S cur))) = 109 →
  count_cells (S (length line)) line cur len
  = count_cells (S (length line)) line
      (S (skip_parameter line (skip_parameter line (S cur)))) len.
Proof.
  intros Hb Hm.
  assert (peek line cur ≠ 0) as Hnz by (rewrite Hb; done).
  pose proof (peek_nonzero_lt _ _ Hnz) as Hlt.
  pose proof (skip_parameter_ge line (S cur)).
  pose proof (skip_parameter_ge line (skip_parameter line (S cur))).
  rewrite (count_cells_fuel line (S (length line)) (length line)
             (S (skip_parameter line (skip_parameter line (S cur))))) by lia.
  cbn [count_cells]. rewrite Hb, Hm. reflexivity.
Qed.

(** A run of characters without '[' counts one cell each. *)
Lemma count_cells_run line (n : nat) : ∀ cur len,
  (∀ k, (cur ≤ k < cur + n)%nat → peek line k ≠ 91 ∧ peek line k ≠ 0) →
  count_cells (S (length line)) line cur len
  = count_cells (S (length line)) line (cur + n) (len + Z.of_nat n).
Proof.
  induction n as [|n IH]; intros cur len Hrun.
  { by rewrite Nat.add_0_r, Z.add_0_r. }
  destruct (Hrun cur ltac:(lia)) as [H91 H0].
  rewrite count_cells_plain by (done || by left).
  rewrite IH by (intros k Hk; apply Hrun; lia).
  f_equal; lia.
Qed.

Lemma get_line_height_spec line W L :
  1 ≤ W → line_cells line = Some L →
  get_line_height line W = Some (1 + Z.max 0 (ceil_div L W - 1)).
Proof.
  intros HW HL. unfold get_line_height. rewrite HL. simpl.
  apply (height_loop_spec (S (Z.to_nat L))); lia.
Qed.

Lemma peek_app_r pre s k : peek (pre ++ s) (length pre + k) = peek s k.
Proof. unfold peek. rewrite app_nth2 by lia. f_equal. lia. Qed.

Lemma isdigit_range ch : isdigit ch = true → 48 ≤ ch ≤ 57.
Proof. unfold isdigit. intros H. apply andb_true_iff in H as [H1 H2]. lia. Qed.

Lemma span_digits_app n : ∀ acc ch rest,
  Forall (λ d, isdigit d = true) n → isdigit ch = false →
  (span_digits (n ++ ch :: rest) acc).2 = length n.
Proof.
  induction n as [|d n IH]; intros acc ch rest Hn Hch; cbn [app span_digits].
  { by rewrite Hch. }
  apply Forall_cons_1 in Hn as [Hd Hn]. rewrite Hd.
  specialize (IH (acc * 10 + (d - 48)) ch rest Hn Hch).
  destruct (span_digits (n ++ ch :: rest) (acc * 10 + (d - 48))) as [v m].
  cbn [snd length] in *. by rewrite IH.
Qed.

(** [strtol] on a decimal number stops after its last digit. *)
Lemma strtol_digits line p n ch rest :
  drop p line = n ++ ch :: rest → digits n → isdigit ch = false →
  (strtol line p).2 = (p + length n)%nat.
Proof.
  intros Hdrop [Hne Hn] Hch. unfold strtol. rewrite Hdrop.
  destruct n as [|d n]; [done|].
  pose proof (Forall_cons_1 _ _ _ Hn) as [Hd _]. apply isdigit_range in Hd.
  assert (isspace d = false) as Hsp.
  { unfold isspace. destruct (Z.eqb_spec d 32); [lia|].
    destruct (Z.leb_spec 9 d); [|done]. destruct (Z.leb_spec d 13); [lia|done]. }
  cbn [app span_space]. rewrite Hsp. cbn [drop].
  destruct (Z.eqb_spec d 45); [lia|]. destruct (Z.eqb_spec d 43); [lia|].
  cbn [drop].
  pose proof (span_digits_app (d :: n) 0 ch rest Hn Hch) as Hspan.
  cbn [app] in Hspan.
  destruct (span_digits (d :: n ++ ch :: rest) 0) as [v nd]. cbn [snd] in Hspan.
  subst nd. cbn [length snd]. lia.
Qed.

(** [strtol] at a character that starts no number converts nothing. *)
Lemma strtol_nothing line p ch rest :
  drop p line = ch :: rest → isdigit ch = false → isspace ch = false →
  ch ≠ 43 → ch ≠ 45 → strtol line p = (0, p).
Proof.
  intros Hdrop Hd Hsp H43 H45. unfold strtol. rewrite Hdrop.
  cbn [span_space]. rewrite Hsp. cbn [drop].
  destruct (Z.eqb_spec ch 45); [done|]. destruct (Z.eqb_spec ch 43); [done|].
  cbn [drop span_digits]. by rewrite Hd.
Qed.

Lemma peek_drop line p ch rest : drop p line = ch :: rest → peek line p = ch.
Proof.
  intros H. apply peek_lookup.
  rewrite <- (Nat.add_0_r p), <- lookup_drop, H. done.
Qed.

Lemma drop_drop_cons (line : list Z) p n ch rest :
  drop p line = n ++ ch :: rest → drop (p + length n) line = ch :: rest.
Proof.
  intros H. rewrite <- drop_drop, H. by rewrite drop_app_length.
Qed.

Lemma skip_parameter_nothing line p ch rest :
  drop p line = ch :: rest → isdigit ch = false → isspace ch = false →
  ch ≠ 43 → ch ≠ 45 → ch ≠ 59 → skip_parameter line p = p.
Proof.
  intros Hdrop Hd Hsp H43 H45 H59. unfold skip_parameter.
  rewrite (strtol_nothing line p ch rest) by done. cbn [snd].
  rewrite (peek_drop _ _ _ _ Hdrop). by destruct (Z.eqb_spec ch 59).
Qed.

(** A '[' followed by a character that cannot go on a sequence is one
    cell. *)
Lemma count_cells_literal_bracket line cur ch rest len :
  peek line cur = 91 → drop (S cur) line = ch :: rest → inert ch →
  count_cells (S (length line)) line cur len
  = count_cells (S (length line)) line (S cur) (len + 1).
Proof.
  intros Hb Hdrop (Hd & Hsp & H43 & H45 & H59 & H109).
  apply count_cells_plain; [by rewrite Hb|]. right.
  rewrite !(skip_parameter_nothing line (S cur) ch rest) by done.
  by rewrite (peek_drop _ _ _ _ Hdrop).
Qed.

(** The text of a piece counts one cell for each character. *)
Lemma count_cells_text s : ∀ pre post len,
  literal_text s →
  count_cells (S (length (pre ++ s ++ post))) (pre ++ s ++ post) (length pre) len
  = count_cells (S (length (pre ++ s ++ post))) (pre ++ s ++ post)
      (length pre + length s) (len + strlen s).
Proof.
  unfold strlen.
  induction s as [|ch s IH]; intros pre post len [Hcs Hlit].
  { cbn [length app]. by rewrite Nat.add_0_r, Z.add_0_r. }
  apply Forall_cons_1 in Hcs as [Hnz Hcs].
  assert (literal_text s) as Hs.
  { split; [done|]. intros k Hk. by apply (Hlit (S k)). }
  assert (peek (pre ++ (ch :: s) ++ post) (length pre) = ch) as Hpeek.
  { rewrite <- (Nat.add_0_r (length pre)). by rewrite peek_app_r. }
  assert (count_cells (S (length (pre ++ (ch :: s) ++ post))) (pre ++ (ch :: s) ++ post)
            (length pre) len
          = count_cells (S (length (pre ++ (ch :: s) ++ post))) (pre ++ (ch :: s) ++ post)
              (S (length pre)) (len + 1)) as ->.
  { destruct (decide (ch = 91)) as [->|Hnb].
    - destruct (Hlit O eq_refl) as (next & Hnext & Hinert).
      destruct s as [|next' s']; [done|]. injection Hnext as ->.
      apply (count_cells_literal_bracket _ _ next (s' ++ post)); [done| |done].
      replace (S (length pre)) with (length (pre ++ [91])) by (rewrite length_app; simpl; lia).
      change (pre ++ (91 :: next :: s') ++ post) with (pre ++ [91] ++ (next :: s' ++ post)).
      rewrite app_assoc. by rewrite drop_app_length.
    - apply count_cells_plain; [by rewrite Hpeek|]. left. by rewrite Hpeek. }
  specialize (IH (pre ++ [ch]) post (len + 1) Hs).
  replace ((pre ++ [ch]) ++ s ++ post) with (pre ++ (ch :: s) ++ post) in IH
    by (by rewrite <- app_assoc).
  replace (length (pre ++ [ch])) with (S (length pre)) in IH
    by (rewrite length_app; simpl; lia).
  rewrite IH. cbn [length]. f_equal; lia.
Qed.

(** A format sequence of the recognized subset counts as no cell. *)
Lemma count_cells_sgr n1 n2 pre post len :
  piece_ok (Sgr n1 n2) →
  count_cells (S (length (pre ++ piece_chars (Sgr n1 n2) ++ post)))
    (pre ++ piece_chars (Sgr n1 n2) ++ post) (length pre) len
  = count_cells (S (length (pre ++ piece_chars (Sgr n1 n2) ++ post)))
      (pre ++ piece_chars (Sgr n1 n2) ++ post)
      (length pre + length (piece_chars (Sgr n1 n2))) len.
Proof.
  intros Hok.
  set (line := pre ++ piece_chars (Sgr n1 n2) ++ post).
  assert (peek line (length pre) = 91) as Hb.
  { subst line. rewrite <- (Nat.add_0_r (length pre)), peek_app_r. by destruct n2. }
  assert (∀ tail, drop (S (length pre)) (pre ++ 91 :: tail) = tail) as Hdrop.
  { intros tail. change (pre ++ 91 :: tail) with (pre ++ [91] ++ tail).
    rewrite app_assoc.
    replace (S (length pre)) with (length (pre ++ [91])) by (rewrite length_app; simpl; lia).
    by rewrite drop_app_length. }
  assert (skip_parameter line (skip_parameter line (S (length pre)))
          = (length pre + length (piece_chars (Sgr n1 n2)) - 1)%nat
          ∧ peek line (skip_parameter line (skip_parameter line (S (length pre)))) = 109)
    as [He Hm].
  { subst line. destruct n2 as [n2|]; cbn [piece_ok piece_chars] in *.
    - destruct Hok as [H1 H2].
      assert (drop (S (length pre)) (pre ++ (91 :: n1 ++ 59 :: n2 ++ [109]) ++ post)
              = n1 ++ 59 :: (n2 ++ 109 :: post)) as Hd1.
      { cbn [app]. rewrite Hdrop. rewrite <- !app_assoc. cbn [app].
        by rewrite <- !app_assoc. }
      pose proof (drop_drop_cons _ _ _ _ _ Hd1) as Hd1'.
      assert (skip_parameter (pre ++ (91 :: n1 ++ 59 :: n2 ++ [109]) ++ post)
                (S (length pre)) = S (S (length pre) + length n1)) as Hs1.
      { unfold skip_parameter.
        rewrite (strtol_digits _ _ n1 59 (n2 ++ 109 :: post)) by done.
        by rewrite (peek_drop _ _ _ _ Hd1'). }
      assert (drop (S (S (length pre) + length n1))
                (pre ++ (91 :: n1 ++ 59 :: n2 ++ [109]) ++ post)
              = n2 ++ 109 :: post) as Hd2.
      { replace (S (S (length pre) + length n1))
          with ((S (length pre) + length n1) + 1)%nat by lia.
        rewrite <- drop_drop, Hd1'. done. }
      pose proof (drop_drop_cons _ _ _ _ _ Hd2) as Hd2'.
      assert (skip_parameter (pre ++ (91 :: n1 ++ 59 :: n2 ++ [109]) ++ post)
                (S (S (length pre) + length n1))
              = (S (S (length pre) + length n1) + length n2)%nat) as Hs2.
      { unfold skip_parameter.
        rewrite (strtol_digits _ _ n2 109 post) by done.
        by rewrite (peek_drop _ _ _ _ Hd2'). }
      rewrite Hs1, Hs2. split.
      + cbn [length]. rewrite !length_app. cbn [length]. rewrite length_app. simpl. lia.
      + by rewrite (peek_drop _ _ _ _ Hd2').
    - assert (drop (S (length pre)) (pre ++ (91 :: n1 ++ [109]) ++ post)
              = n1 ++ 109 :: post) as Hd1.
      { cbn [app]. rewrite Hdrop. by rewrite <- !app_assoc. }
      pose proof (drop_drop_cons _ _ _ _ _ Hd1) as Hd1'.
      assert (skip_parameter (pre ++ (91 :: n1 ++ [109]) ++ post) (S (length pre))
              = (S (length pre) + length n1)%nat) as Hs1.
      { unfold skip_parameter.
        rewrite (strtol_digits _ _ n1 109 post) by done.
        by rewrite (peek_drop _ _ _ _ Hd1'). }
      rewrite Hs1.
      rewrite (skip_parameter_nothing _ _ 109 post) by done.
      split.
      + cbn [length]. rewrite length_app. simpl. lia.
      + by rewrite (peek_drop _ _ _ _ Hd1'). }
  rewrite count_cells_sequence by done. rewrite He. f_equal.
  destruct n2; cbn [piece_chars length]; lia.
Qed.

(** On a line made of text and format sequences of the recognized subset,
    [get_line_height] counts the characters of the text. *)
Lemma count_cells_pieces : ∀ ps pre len,
  Forall piece_ok ps →
  count_cells (S (length (pre ++ line_of ps))) (pre ++ line_of ps) (length pre) len
  = Some (len + visible_cells ps).
Proof.
  unfold line_of.
  induction ps as [|p ps IH]; intros pre len Hok.
  { cbn [map concat visible_cells foldr]. rewrite app_nil_r, Z.add_0_r.
    by apply count_cells_end. }
  apply Forall_cons_1 in Hok as [Hp Hps].
  cbn [map concat visible_cells foldr].
  assert (count_cells (S (length (pre ++ piece_chars p ++ concat (map piece_chars ps))))
            (pre ++ piece_chars p ++ concat (map piece_chars ps)) (length pre) len
          = count_cells (S (length (pre ++ piece_chars p ++ concat (map piece_chars ps))))
              (pre ++ piece_chars p ++ concat (map piece_chars ps))
              (length pre + length (piece_chars p)) (len + piece_cells p)) as ->.
  { destruct p as [s|n1 n2].
    - by apply count_cells_text.
    - rewrite count_cells_sgr by done. cbn [piece_cells]. by rewrite Z.add_0_r. }
  specialize (IH (pre ++ piece_chars p) (len + piece_cells p) Hps).
  replace ((pre ++ piece_chars p) ++ concat (map piece_chars ps))
    with (pre ++ piece_chars p ++ concat (map piece_chars ps)) in IH
    by (by rewrite <- app_assoc).
  replace (length (pre ++ piece_chars p))
    with (length pre + length (piece_chars p))%nat in IH by (by rewrite length_app).
  rewrite IH. fold (visible_cells ps). f_equal. lia.
Qed.

Lemma line_cells_pieces ps :
  Forall piece_ok ps → line_cells (line_of ps) = Some (visible_cells ps).
Proof.
  intros Hok. unfold line_cells.
  pose proof (count_cells_pieces ps [] 0 Hok) as H. cbn [app length] in H.
  by rewrite H, Z.add_0_l.
Qed.




Lemma at_index_Some {A} (a : list A) i x :
  at_index a i = Some x ↔ 0 ≤ i ∧ a !! Z.to_nat i = Some x.
Proof.
  unfold at_index. destruct (Z.ltb_spec i 0); split.
  - done.
  - intros [? _]. lia.
  - intros ?. split; [lia|done].
  - by intros [_ ?].
Qed.

(** ** Rendering *)

Lemma same_but_c_refl a : same_but_c a a.
Proof. by repeat split. Qed.

Lemma same_but_c_trans a b c : same_but_c a b → same_but_c b c → same_but_c a c.
Proof. unfold same_but_c. intros (?&?&?&?&?) (?&?&?&?&?). repeat split; congruence. Qed.

Lemma same_but_c_set a v : same_but_c a (set_current_c a v).
Proof. by repeat split. Qed.

Lemma sanity_check_same scr scr' : sanity_check scr = Some scr' → same_but_c scr scr'.
Proof.
  unfold sanity_check. intros H.
  destruct (0 <? current_c scr); [|injection H as <-; apply same_but_c_refl].
  destruct (c_mod _ _) as [m|]; [simpl in H|done].
  destruct (negb (m =? 0)); [|injection H as <-; apply same_but_c_refl].
  destruct (c_div _ _) as [q|]; [simpl in H|done].
  injection H as <-. apply same_but_c_set.
Qed.

Lemma sanity_check_total scr : win_width scr ≠ 0 → ∃ scr', sanity_check scr = Some scr'.
Proof.
  intros Hw. unfold sanity_check, c_mod, c_div.
  destruct (0 <? current_c scr); [|eauto].
  destruct (Z.eqb_spec (win_width scr) 0); [done|]. simpl.
  destruct (negb _); eauto.
Qed.

Lemma draw_segments_same fuel : ∀ line start st st',
  draw_segments fuel line start st = Some st' →
  same_but_c (d_scr st) (d_scr st') ∧ d_row st' = d_row st ∧
  d_nlines st' = d_nlines st ∧ d_cursor_col st' = d_cursor_col st.
Proof.
  induction fuel as [|fuel IH]; intros line start st st' H; [done|].
  simpl in H. destruct (start <? length line)%nat.
  - destruct (format_sequence line start) as [[[attributes fg] bg] start'].
    destruct (_ <? 0); [done|].
    apply IH in H. simpl in H. destruct H as (Hs & Hr & Hn & Hc).
    refine (conj _ (conj Hr (conj Hn Hc))).
    eapply same_but_c_trans; [apply same_but_c_set|exact Hs].
  - injection H as <-. repeat split; try done.
Qed.

Lemma nth_drop_peek s p k : nth k (drop p s) 0 = peek s (p + k).
Proof. unfold peek. by rewrite !nth_lookup, lookup_drop. Qed.

Lemma span_space_no_bracket l k : (k < span_space l)%nat → nth k l 0 ≠ 91.
Proof.
  revert k. induction l as [|ch l IH]; intros k Hk; simpl in *; [lia|].
  destruct (isspace ch) eqn:Hsp; [|lia].
  destruct k as [|k]; simpl.
  - intros ->. done.
  - apply IH. lia.
Qed.

Lemma span_digits_no_bracket l : ∀ acc k,
  (k < (span_digits l acc).2)%nat → nth k l 0 ≠ 91.
Proof.
  induction l as [|ch l IH]; intros acc k Hk; simpl in *; [lia|].
  destruct (isdigit ch) eqn:Hd; [|simpl in Hk; lia].
  specialize (IH (acc * 10 + (ch - 48))).
  destruct (span_digits l _) as [v n]. simpl in *.
  destruct k as [|k]; simpl.
  - intros ->. done.
  - apply IH. lia.
Qed.

Lemma strtol_no_bracket s p k : (p ≤ k < (strtol s p).2)%nat → peek s k ≠ 91.
Proof.
  unfold strtol.
  set (l := drop p s). set (ws := span_space l).
  pose proof (span_space_no_bracket l) as Hws. fold ws in Hws.
  assert (Hl1 : ∀ j, nth j (drop ws l) 0 = peek s (p + ws + j)).
  { intros j. subst l. rewrite nth_drop_peek. unfold peek at 1.
    rewrite nth_drop_peek. f_equal. lia. }
  assert (Hl : ∀ j, nth j l 0 = peek s (p + j)).
  { intros j. subst l. apply nth_drop_peek. }
  assert (Hsign : ∀ neg sg, 
    (sg = O ∨ (sg = 1%nat ∧ (peek s (p + ws) = 45 ∨ peek s (p + ws) = 43))) →
    (p ≤ k < (let '(v, nd) := span_digits (drop sg (drop ws l)) 0 in
          match nd with
          | O => (0%Z, p)
          | S _ => (Z.max LONG_MIN (Z.min LONG_MAX (if neg : bool then (- v)%Z else v)),
                    (p + ws + sg + nd)%nat)
          end).2)%nat → peek s k ≠ 91).
  { intros neg sg Hsg.
    pose proof (span_digits_no_bracket (drop sg (drop ws l)) 0) as Hd.
    destruct (span_digits _ _) as [v [|nd]]; simpl in *; [lia|].
    intros Hk.
    destruct (Nat.lt_ge_cases k (p + ws)) as [Hlt|Hge].
    { replace k with (p + (k - p))%nat by lia. rewrite <- Hl. apply Hws. lia. }
    destruct (Nat.lt_ge_cases k (p + ws + sg)) as [Hlt2|Hge2].
    { destruct Hsg as [->|[-> Hc]]; [lia|].
      replace k with (p + ws)%nat by lia. destruct Hc as [-> | ->]; done. }
    specialize (Hd (k - (p + ws + sg))%nat ltac:(lia)).
    rewrite nth_drop_peek in Hd. unfold peek in Hd. rewrite Hl1 in Hd.
    replace (p + ws + (sg + (k - (p + ws + sg))))%nat with k in Hd by lia. done. }
  pose proof (Hl1 O) as Hhead. rewrite Nat.add_0_r in Hhead.
  destruct (drop ws l) as [|ch l1] eqn:Hdrop.
  - apply (Hsign false O). by left.
  - simpl in Hhead.
    destruct (Z.eqb_spec ch 45); [apply (Hsign true 1%nat); right; split; [done|left; congruence]|].
    destruct (Z.eqb_spec ch 43); [apply (Hsign false 1%nat); right; split; [done|right; congruence]|].
    apply (Hsign false O). by left.
Qed.

Lemma read_color_code_no_bracket line p k :
  (p ≤ k < (read_color_code line p).2)%nat → peek line k ≠ 91.
Proof.
  unfold read_color_code.
  destruct (peek line p =? 0); simpl; [lia|].
  pose proof (strtol_no_bracket line p k) as Hs.
  destruct (strtol line p) as [v e]. simpl in *.
  destruct (Z.eqb_spec (peek line e) 59) as [H59|]; simpl; [|done].
  intros Hk. destruct (decide (k = e)) as [->|]; [congruence|]. apply Hs. lia.
Qed.

Lemma read_color_code_ge line p : (p ≤ (read_color_code line p).2)%nat.
Proof.
  unfold read_color_code.
  destruct (peek line p =? 0); simpl; [lia|].
  pose proof (strtol_end_ge line p).
  destruct (strtol line p) as [v e]. simpl in *.
  destruct (peek line e =? 59); simpl; lia.
Qed.

Lemma strchr_spec s p ch q :
  strchr s p ch = Some q → (p ≤ q < length s)%nat ∧ peek s q = ch.
Proof.
  unfold strchr. intros H.
  destruct (list_find _ _) as [[i x]|] eqn:Hf; [|done].
  injection H as <-. apply list_find_Some in Hf as (Hi & -> & _). simpl.
  rewrite lookup_drop in Hi. split.
  - apply lookup_lt_Some in Hi. lia.
  - unfold peek. rewrite nth_lookup, Hi. done.
Qed.

Lemma next_segment_bound line start :
  (start < length line)%nat →
  (S start ≤ next_segment line start ≤ length line)%nat.
Proof.
  intros Hlt. unfold next_segment.
  destruct (strchr line (S start) 91) as [q|] eqn:Hq; simpl; [|lia].
  apply strchr_spec in Hq. lia.
Qed.

Lemma format_sequence_bound line start :
  (start < length line)%nat →
  ((format_sequence line start).2 ≤ next_segment line start)%nat.
Proof.
  intros Hlt. pose proof (next_segment_bound line start Hlt) as Hse.
  unfold format_sequence.
  destruct (peek line start =? 91); [|simpl; lia].
  pose proof (read_color_code_ge line (S start)) as Hge0.
  pose proof (read_color_code_no_bracket line (S start)) as Hno0.
  destruct (read_color_code line (S start)) as [code0 p0]. simpl in Hge0, Hno0.
  pose proof (read_color_code_ge line p0) as Hge1.
  pose proof (read_color_code_no_bracket line p0) as Hno1.
  destruct (read_color_code line p0) as [code1 p1]. simpl in Hge1, Hno1.
  destruct (Z.eqb_spec (peek line p1) 109) as [Hm|]; [|simpl; lia].
  simpl. unfold next_segment in *.
  destruct (strchr line (S start) 91) as [q|] eqn:Hq; simpl in *.
  - apply strchr_spec in Hq as [Hq1 Hq2].
    destruct (Nat.lt_ge_cases p1 q) as [|Hge]; [lia|]. exfalso.
    destruct (decide (q = p1)) as [->|]; [congruence|].
    destruct (Nat.lt_ge_cases q p0).
    + apply (Hno0 q); [lia|done].
    + apply (Hno1 q); [lia|done].
  - assert (peek line p1 ≠ 0) as Hnz by (rewrite Hm; done).
    apply peek_nonzero_lt in Hnz. lia.
Qed.

Lemma draw_segments_total fuel : ∀ line start st,
  (S (length line) ≤ fuel + start)%nat → (1 ≤ fuel)%nat →
  ∃ st', draw_segments fuel line start st = Some st'.
Proof.
  induction fuel as [|fuel IH]; intros line start st Hf H1; [lia|].
  simpl. destruct (Nat.ltb_spec start (length line)) as [Hlt|]; [|eauto].
  pose proof (next_segment_bound line start Hlt).
  pose proof (format_sequence_bound line start Hlt) as Hb.
  destruct (format_sequence line start) as [[[attributes fg] bg] start']. simpl in Hb.
  destruct (Z.ltb_spec (Z.of_nat (next_segment line start) - Z.of_nat start') 0); [lia|].
  apply IH; lia.
Qed.

Lemma draw_line_same st st' :
  draw_line st = Some st' →
  same_but_c (d_scr st) (d_scr st') ∧ d_row st' ≤ d_row st.
Proof.
  unfold draw_line. intros H.
  destruct (d_row st <? 0).
  { injection H as <-. simpl. split; [apply same_but_c_refl|lia]. }
  apply bind_Some in H as (line & _ & H).
  apply bind_Some in H as (line_height & _ & H).
  apply bind_Some in H as (st1 & Hseg & H).
  apply bind_Some in H as (cursor_col & _ & H).
  apply draw_segments_same in Hseg as (Hs & Hr & Hn & Hc).
  injection H as <-. cbn [d_scr d_row] in *. split; [done|lia].
Qed.

Lemma get_line_height_ge_1 line W :
  1 ≤ W → ∃ h, get_line_height line W = Some h ∧ 1 ≤ h.
Proof.
  intros HW. destruct (line_cells_total line) as (L & HL & _).
  rewrite (get_line_height_spec line W L HW HL). eexists. split; [done|lia].
Qed.

Lemma draw_line_advances st st' :
  1 ≤ win_width (d_scr st) → draw_line st = Some st' → d_nlines st < d_nlines st'.
Proof.
  unfold draw_line. intros HW H.
  destruct (d_row st <? 0).
  { injection H as <-. simpl. lia. }
  apply bind_Some in H as (line & _ & H).
  apply bind_Some in H as (line_height & Hh & H).
  destruct (get_line_height_ge_1 line _ HW) as (h & Hh' & Hh1).
  assert (line_height = h) as -> by congruence.
  apply bind_Some in H as (st1 & Hseg & H).
  apply bind_Some in H as (cursor_col & _ & H).
  apply draw_segments_same in Hseg as (Hs & Hr & Hn & Hc).
  injection H as <-. cbn [d_nlines] in *. lia.
Qed.

Lemma draw_line_total st :
  1 ≤ win_width (d_scr st) → d_row st < scr_length (d_scr st) →
  ∃ st', draw_line st = Some st'.
Proof.
  intros HW Hrow. unfold draw_line. cbv zeta.
  destruct (Z.ltb_spec (d_row st) 0) as [|Hge]; [eauto|].
  unfold at_index. destruct (Z.ltb_spec (d_row st) 0); [lia|].
  unfold scr_length in Hrow.
  destruct (buffer (d_scr st) !! Z.to_nat (d_row st)) as [line|] eqn:Hline;
    [|apply lookup_ge_None in Hline; lia].
  cbn [mbind option_bind].
  destruct (get_line_height_ge_1 line _ HW) as (h & -> & _).
  cbn [mbind option_bind].
  match goal with
  | |- context [draw_segments ?f ?l ?p ?s] =>
      destruct (draw_segments_total f l p s) as (st1 & Hseg); [simpl; lia..|]
  end.
  rewrite Hseg. cbn [mbind option_bind].
  apply draw_segments_same in Hseg as (Hs & _). destruct Hs as (_ & _ & _ & _ & Hw).
  cbn [d_scr] in Hw. unfold c_mod.
  destruct (d_nlines st1 =? 1); [|cbn [mbind option_bind]; eauto].
  destruct (Z.eqb_spec (win_width (d_scr st)) 0); [lia|]. cbn [mbind option_bind]. eauto.
Qed.

Lemma draw_loop_same fuel : ∀ st st',
  draw_loop fuel st = Some st' → same_but_c (d_scr st) (d_scr st').
Proof.
  induction fuel as [|fuel IH]; intros st st' H; [done|].
  simpl in H. destruct (_ <=? _); [|injection H as <-; apply same_but_c_refl].
  apply bind_Some in H as (st1 & H1 & H).
  apply draw_line_same in H1 as [H1 _]. apply IH in H.
  eapply same_but_c_trans; done.
Qed.

Lemma draw_loop_total fuel : ∀ st,
  1 ≤ win_width (d_scr st) → d_row st < scr_length (d_scr st) →
  (Z.to_nat (win_height (d_scr st) + 1 - d_nlines st) < fuel)%nat →
  ∃ st', draw_loop fuel st = Some st' ∧ win_height (d_scr st) < d_nlines st'.
Proof.
  induction fuel as [|fuel IH]; intros st HW Hrow Hf; [lia|].
  simpl. destruct (Z.leb_spec (d_nlines st) (win_height (d_scr st))) as [Hle|]; [|eauto].
  destruct (draw_line_total st HW Hrow) as (st1 & H1). rewrite H1.
  cbn [mbind option_bind].
  pose proof (draw_line_advances st st1 HW H1).
  apply draw_line_same in H1 as [(Hb & _ & _ & Hh & Hw) Hr].
  destruct (IH st1) as (st' & Hst' & Hn).
  - congruence.
  - unfold scr_length in *. rewrite Hb. lia.
  - rewrite Hh. lia.
  - exists st'. split; [done|]. by rewrite <- Hh.
Qed.

(** C10.  With a window at least one cell wide, [get_line_height] returns
    at least 1 for every line; hence every turn of the drawing loop of
    [scr_refresh] strictly increases [nlines], the rows consumed, and the
    loop ends, for every scroller whose cursor row lies within the buffer. *)
Theorem draw_loop_terminates (scr : scroller) :
  1 ≤ win_width scr → current_r scr < scr_length scr →
  (∀ line, ∃ h, get_line_height line (win_width scr) = Some h ∧ 1 ≤ h) ∧
  (∀ st st', win_width (d_scr st) = win_width scr →
             draw_line st = Some st' → d_nlines st < d_nlines st') ∧
  (∃ st, scr_refresh_draw scr = Some st ∧ win_height scr < d_nlines st).
Proof.
  intros HW Hr. split; [|split].
  - intros line. by apply get_line_height_ge_1.
  - intros st st' Hw. apply draw_line_advances. by rewrite Hw.
  - unfold scr_refresh_draw.
    destruct (sanity_check_total scr) as (scr0 & H0); [lia|]. rewrite H0.
    cbn [mbind option_bind].
    apply sanity_check_same in H0 as (Hb & Hr0 & _ & Hh & Hw).
    destruct (draw_loop_total (S (Z.to_nat (win_height scr0))) (draw_init scr0))
      as (st & Hst & Hn); cbn [draw_init d_scr d_row d_nlines].
    + by rewrite Hw.
    + unfold scr_length in *. rewrite Hb, Hr0. done.
    + lia.
    + exists st. split; [done|]. simpl in Hn. by rewrite <- Hh.
Qed.

(** The drawing loop on two lines in a window of 3 rows and 2 columns. *)
Lemma draw_loop_terminates_witness :
  (∀ line, ∃ h, get_line_height line 2 = Some h ∧ 1 ≤ h) ∧
  (∃ st, scr_refresh_draw (mk_scroller [[97; 98; 99]; [91; 91; 49; 109; 100]] 1 0 0 3 2)
         = Some st ∧ 3 < d_nlines st).
Proof.
  destruct (draw_loop_terminates
              (mk_scroller [[97; 98; 99]; [91; 91; 49; 109; 100]] 1 0 0 3 2))
    as (H1 & _ & H3); [simpl; lia | vm_compute; reflexivity |].
  exact (conj H1 H3).
Defined.

Lemma strtol_at_nul line p : peek line p = 0 → strtol line p = (0, p).
Proof.
  intros Hp. unfold strtol.
  pose proof (nth_drop_peek line p O) as Hhead. rewrite Nat.add_0_r, Hp in Hhead.
  destruct (drop p line) as [|ch l]; [done|]. simpl in Hhead. subst ch. reflexivity.
Qed.

(** [get_line_height] and [scr_refresh] read the parameters of a format
    sequence alike. *)
Lemma read_color_code_skip line p :
  (read_color_code line p).2 = skip_parameter line p.
Proof.
  unfold read_color_code, skip_parameter.
  destruct (Z.eqb_spec (peek line p) 0) as [Hz|Hnz].
  - rewrite (strtol_at_nul line p Hz). cbn [snd]. by rewrite Hz.
  - by destruct (strtol line p) as [v e].
Qed.

Lemma strchr_first s p ch q :
  strchr s p ch = Some q → ∀ k, (p ≤ k < q)%nat → peek s k ≠ ch.
Proof.
  unfold strchr. intros H k Hk.
  destruct (list_find _ _) as [[i x]|] eqn:Hf; [|done].
  injection H as <-. apply list_find_Some in Hf as (Hi & _ & Hfirst). simpl in Hk.
  rewrite lookup_drop in Hi. apply lookup_lt_Some in Hi.
  destruct (lookup_lt_is_Some_2 s k ltac:(lia)) as [y Hy].
  rewrite (peek_lookup _ _ _ Hy). apply (Hfirst (k - p)%nat); [|lia].
  rewrite lookup_drop. by replace (p + (k - p))%nat with k by lia.
Qed.

Lemma strchr_none s p ch :
  strchr s p ch = None → ∀ k, (p ≤ k < length s)%nat → peek s k ≠ ch.
Proof.
  unfold strchr. intros H k Hk.
  destruct (list_find _ _) as [[i x]|] eqn:Hf; [done|].
  apply list_find_None in Hf.
  destruct (lookup_lt_is_Some_2 s k ltac:(lia)) as [y Hy].
  rewrite (peek_lookup _ _ _ Hy).
  apply (Forall_lookup_1 _ _ (k - p)%nat y Hf).
  rewrite lookup_drop. by replace (p + (k - p))%nat with k by lia.
Qed.

(** One segment of [scr_refresh] is as many cells long as
    [get_line_height] counts from its start to its end. *)
Lemma count_cells_segment line start len :
  c_string line → (start < length line)%nat →
  count_cells (S (length line)) line start len
  = count_cells (S (length line)) line (next_segment line start)
      (len + (Z.of_nat (next_segment line start)
              - Z.of_nat (format_sequence line start).2)).
Proof.
  intros Hcs Hlt.
  pose proof (next_segment_bound line start Hlt) as Hend.
  pose proof (format_sequence_bound line start Hlt) as Hseq.
  assert (∀ k, (S start ≤ k < next_segment line start)%nat →
               peek line k ≠ 91 ∧ peek line k ≠ 0) as Hrun.
  { intros k Hk. split; [|apply peek_c_string; [done|lia]].
    unfold next_segment in *.
    destruct (strchr line (S start) 91) as [q|] eqn:Hq; simpl in *.
    - by apply (strchr_first _ _ _ _ Hq).
    - by apply (strchr_none _ _ _ Hq). }
  pose proof (peek_c_string line start Hcs Hlt) as Hnz.
  assert (peek line start ≠ 91
          ∨ peek line (skip_parameter line (skip_parameter line (S start))) ≠ 109 →
          count_cells (S (length line)) line start len
          = count_cells (S (length line)) line (next_segment line start)
              (len + (Z.of_nat (next_segment line start) - Z.of_nat start)))
    as Hplain_case.
  { intros Hplain. rewrite count_cells_plain by done.
    rewrite (count_cells_run line (next_segment line start - S start)).
    - f_equal; lia.
    - intros k Hk. apply Hrun. lia. }
  unfold format_sequence in *.
  destruct (Z.eqb_spec (peek line start) 91) as [Hb|Hnb]; [|by apply Hplain_case; left].
  pose proof (read_color_code_skip line (S start)) as H0.
  destruct (read_color_code line (S start)) as [code0 p0]. cbn [snd] in H0.
  pose proof (read_color_code_skip line p0) as H1.
  destruct (read_color_code line p0) as [code1 p1]. cbn [snd] in H1.
  subst p0 p1.
  destruct (Z.eqb_spec (peek line (skip_parameter line (skip_parameter line (S start)))) 109)
    as [Hm|Hnm]; [|by apply Hplain_case; right].
  cbn [snd] in *.
  rewrite count_cells_sequence by done.
  set (e := skip_parameter line (skip_parameter line (S start))) in *.
  pose proof (skip_parameter_ge line (S start)).
  pose proof (skip_parameter_ge line (skip_parameter line (S start))).
  rewrite (count_cells_run line (next_segment line start - S e)).
  - f_equal; lia.
  - intros k Hk. apply Hrun. lia.
Qed.

Lemma draw_segments_cells fuel : ∀ line start st len,
  c_string line → (S (length line) ≤ fuel + start)%nat → (1 ≤ fuel)%nat →
  ∃ st', draw_segments fuel line start st = Some st' ∧
         count_cells (S (length line)) line start len
         = Some (len + (d_total_length st' - d_total_length st)).
Proof.
  induction fuel as [|fuel IH]; intros line start st len Hcs Hf H1; [lia|].
  cbn [draw_segments]. destruct (Nat.ltb_spec start (length line)) as [Hlt|Hge].
  - pose proof (next_segment_bound line start Hlt) as Hend.
    pose proof (format_sequence_bound line start Hlt) as Hseq.
    rewrite (count_cells_segment line start len Hcs Hlt).
    destruct (format_sequence line start) as [[[attributes fg] bg] start'].
    cbn [snd] in *.
    destruct (Z.ltb_spec (Z.of_nat (next_segment line start) - Z.of_nat start') 0); [lia|].
    match goal with
    | |- context [draw_segments fuel line ?e ?s] =>
        destruct (IH line e s
                    (len + (Z.of_nat (next_segment line start) - Z.of_nat start')))
          as (st' & Hst' & Hcount); [done|lia|lia|]
    end.
    exists st'. split; [done|]. rewrite Hcount. cbn [d_total_length]. f_equal. lia.
  - exists st. split; [done|]. rewrite count_cells_end by lia. f_equal. lia.
Qed.

(** After the segments of a line that is not empty, [current.c] is the
    total length drawn. *)
Lemma draw_segments_col fuel : ∀ line start st st',
  draw_segments fuel line start st = Some st' →
  if (start <? length line)%nat then current_c (d_scr st') = d_total_length st'
  else st' = st.
Proof.
  induction fuel as [|fuel IH]; intros line start st st' H; [done|].
  cbn [draw_segments] in H. destruct (Nat.ltb_spec start (length line)) as [Hlt|Hge].
  - destruct (format_sequence line start) as [[[attributes fg] bg] start'].
    destruct (_ <? 0); [done|].
    apply IH in H. destruct (_ <? _)%nat; [done|]. by subst st'.
  - by injection H as <-.
Qed.

(** One turn of the drawing loop on a row of the buffer. *)
Lemma draw_line_at st line L :
  1 ≤ win_width (d_scr st) → at_index (buffer (d_scr st)) (d_row st) = Some line →
  c_string line → line_cells line = Some L →
  ∃ st' h, draw_line st = Some st' ∧
           get_line_height line (win_width (d_scr st)) = Some h ∧ 1 ≤ h ∧
           d_row st' = d_row st - 1 ∧ d_nlines st' = d_nlines st + h ∧
           same_but_c (d_scr st) (d_scr st') ∧
           (line ≠ [] → current_c (d_scr st') = L).
Proof.
  intros HW Hline Hcs HL.
  pose proof Hline as Hline'. apply at_index_Some in Hline' as [Hrow Hlook].
  destruct (get_line_height_ge_1 line _ HW) as (h & Hh & Hh1).
  unfold draw_line. cbv zeta.
  destruct (Z.ltb_spec (d_row st) 0); [lia|].
  rewrite Hline. cbn [mbind option_bind]. rewrite Hh. cbn [mbind option_bind].
  match goal with
  | |- context [draw_segments ?f line O ?s] =>
      destruct (draw_segments_cells f line O s 0 Hcs) as (st1 & Hseg & Hcount);
        [lia|lia|]
  end.
  rewrite Hseg. cbn [mbind option_bind].
  pose proof (draw_segments_col _ _ _ _ _ Hseg) as Hcol.
  pose proof (draw_segments_same _ _ _ _ _ Hseg) as (Hsame & Hr & Hn & Hc).
  cbn [d_scr d_row d_nlines d_cursor_col d_total_length] in *.
  assert (∃ cursor_col,
            (if d_nlines st1 =? 1 then c_mod (d_total_length st1) (win_width (d_scr st))
             else Some (d_cursor_col st1)) = Some cursor_col) as [cursor_col ->].
  { unfold c_mod. destruct (_ =? 1); [|by eauto].
    destruct (Z.eqb_spec (win_width (d_scr st)) 0); [lia|]. by eauto. }
  cbn [mbind option_bind]. eexists _, h. split; [done|].
  cbn [d_scr d_row d_nlines]. split; [done|]. split; [done|]. split; [lia|].
  split; [lia|]. split; [done|].
  intros Hne. unfold line_cells in HL. rewrite HL in Hcount.
  injection Hcount as ->.
  destruct line as [|ch line]; [done|]. cbn [length] in Hcol.
  destruct (Nat.ltb_spec 0 (S (length line))); [|lia]. rewrite Hcol. lia.
Qed.

(** Turns of the drawing loop above the first line of the buffer leave
    the scroller alone. *)
Lemma draw_loop_blank fuel : ∀ st st',
  d_row st < 0 → draw_loop fuel st = Some st' → d_scr st' = d_scr st.
Proof.
  induction fuel as [|fuel IH]; intros st st' Hrow H; [done|].
  cbn [draw_loop] in H. destruct (_ <=? _); [|by injection H as <-].
  unfold draw_line in H. cbv zeta in H.
  destruct (Z.ltb_spec (d_row st) 0); [|lia]. cbn [mbind option_bind] in H.
  apply IH in H; [|done]. done.
Qed.

(** An empty line is drawn without a segment: the scroller stays as it
    is. *)
Lemma draw_line_empty st st' :
  1 ≤ win_width (d_scr st) → at_index (buffer (d_scr st)) (d_row st) = Some [] →
  draw_line st = Some st' → d_scr st' = d_scr st ∧ d_row st' = d_row st - 1.
Proof.
  intros HW Hline H. pose proof Hline as Hline'.
  apply at_index_Some in Hline' as [Hrow _].
  unfold draw_line in H. cbv zeta in H.
  destruct (Z.ltb_spec (d_row st) 0); [lia|].
  rewrite Hline in H. cbn [mbind option_bind] in H.
  destruct (get_line_height_ge_1 [] _ HW) as (h & Hh & _). rewrite Hh in H.
  cbn [mbind option_bind length draw_segments Nat.ltb Nat.leb] in H.
  apply bind_Some in H as (cursor_col & _ & H). by injection H as <-.
Qed.

Lemma draw_line_column st st' r drawn L :
  1 ≤ win_width (d_scr st) → Forall c_string (buffer (d_scr st)) →
  draw_line st = Some st' → column_of_drawn st r drawn L →
  ∃ r' drawn' L', column_of_drawn st' r' drawn' L'.
Proof.
  intros HW Hcs H (Hr & Hdrawn & Hne & HL & Hc & Hempty).
  pose proof (draw_line_same _ _ H) as [(Hb & Hcr & _) _].
  pose proof Hdrawn as Hr0. apply at_index_Some in Hr0.
  destruct (Z.ltb_spec (d_row st) 0) as [Hneg|Hrow].
  { unfold draw_line in H. cbv zeta in H.
    destruct (Z.ltb_spec (d_row st) 0); [|lia]. injection H as <-.
    exists r, drawn, L. unfold column_of_drawn. cbn [d_scr d_row]. done. }
  assert (∃ line, at_index (buffer (d_scr st)) (d_row st) = Some line) as [line Hline].
  { destruct (lookup_lt_is_Some_2 (buffer (d_scr st)) (Z.to_nat (d_row st))) as [line Hl].
    - destruct Hr0 as [_ Hr0]. apply lookup_lt_Some in Hr0. lia.
    - exists line. by apply at_index_Some. }
  assert (c_string line) as Hline_cs.
  { apply at_index_Some in Hline as [_ Hl]. by eapply (Forall_lookup_1 _ _ _ _ Hcs). }
  destruct line as [|ch line].
  - destruct (draw_line_empty st st' HW Hline H) as [Hscr Hrow'].
    exists r, drawn, L. unfold column_of_drawn. rewrite Hscr, Hrow'.
    repeat split; try done; try lia.
    intros r' Hr'. destruct (decide (r' = d_row st)) as [->|]; [done|].
    apply Hempty. lia.
  - destruct (line_cells_total (ch :: line)) as (L' & HL' & _).
    destruct (draw_line_at st (ch :: line) L' HW Hline Hline_cs HL')
      as (st2 & h & Hst2 & _ & _ & Hrow2 & _ & _ & Hc2).
    assert (st2 = st') as -> by congruence.
    exists (d_row st), (ch :: line), L'. unfold column_of_drawn. rewrite Hb, Hcr.
    repeat split; try done; try lia. by apply Hc2.
Qed.

Lemma draw_loop_column fuel : ∀ st st' r drawn L,
  1 ≤ win_width (d_scr st) → Forall c_string (buffer (d_scr st)) →
  draw_loop fuel st = Some st' → column_of_drawn st r drawn L →
  ∃ r' drawn' L', column_of_drawn st' r' drawn' L'.
Proof.
  induction fuel as [|fuel IH]; intros st st' r drawn L HW Hcs H Hcol; [done|].
  cbn [draw_loop] in H. destruct (_ <=? _); [|injection H as <-; by eauto].
  apply bind_Some in H as (st1 & H1 & H).
  pose proof (draw_line_same _ _ H1) as [(Hb & _ & _ & _ & Hw) _].
  destruct (draw_line_column st st1 r drawn L HW Hcs H1 Hcol) as (r1 & drawn1 & L1 & Hcol1).
  apply (IH st1 st' r1 drawn1 L1); [by rewrite Hw|by rewrite Hb|done|done].
Qed.

(** C8.  [scr_refresh] does write to the scroller: it leaves the line
    buffer, [current.r] and [current.pos] as they were, but the segment
    loop stores its running total in [current.c].  On every scroller with
    a window of at least one row and one column whose viewport is on a
    line that is not empty, the drawing loop returns, and [current.c] is
    afterwards the number of cells of the topmost line drawn that is not
    empty, whatever it was before; the length [scr_refresh] then takes of
    the viewport line from that column on is read within the line only
    when the line has that many characters. *)
Theorem scr_refresh_overwrites_col (scr : scroller) (focus : bool) (line : list Z) :
  1 ≤ win_width scr → 1 ≤ win_height scr → Forall c_string (buffer scr) →
  at_index (buffer scr) (current_r scr) = Some line → line ≠ [] →
  ∃ st r drawn L,
    scr_refresh_draw scr = Some st ∧
    buffer (d_scr st) = buffer scr ∧ current_r (d_scr st) = current_r scr ∧
    current_pos (d_scr st) = current_pos scr ∧
    d_row st < r ≤ current_r scr ∧ at_index (buffer scr) r = Some drawn ∧ drawn ≠ [] ∧
    (∀ r', d_row st < r' < r → at_index (buffer scr) r' = Some []) ∧
    line_cells drawn = Some L ∧ current_c (d_scr st) = L ∧
    match scr_refresh scr focus with
    | Some (scr', _) => scr' = d_scr st ∧ L ≤ strlen line
    | None => strlen line < L
    end.
Proof.
  intros HW HH Hcs Hline Hne.
  destruct (sanity_check_total scr) as (scr0 & H0); [lia|].
  pose proof (sanity_check_same _ _ H0) as (Hb0 & Hr0 & Hp0 & Hh0 & Hw0).
  pose proof Hline as Hline'. apply at_index_Some in Hline' as [Hrow Hlook].
  assert (c_string line) as Hline_cs by (by eapply (Forall_lookup_1 _ _ _ _ Hcs)).
  destruct (line_cells_total line) as (L0 & HL0 & _).
  (* the line of the viewport *)
  destruct (draw_line_at (draw_init scr0) line L0) as
    (st1 & h1 & Hst1 & _ & Hge1 & Hrow1 & Hn1 & Hsame1 & Hc1);
    cbn [draw_init d_scr d_row]; try done.
  { lia. }
  { by rewrite Hr0, Hb0. }
  cbn [draw_init d_scr d_row d_nlines] in *.
  destruct Hsame1 as (Hb1 & Hr1 & Hp1 & Hh1 & Hw1).
  assert (column_of_drawn st1 (current_r scr) line L0) as Hcol1.
  { unfold column_of_drawn. rewrite Hrow1, Hr1, Hb1, Hr0, Hb0.
    repeat split; try done; try lia. by apply Hc1. }
  (* the rows above it *)
  destruct (draw_loop_total (Z.to_nat (win_height scr0)) st1) as (st & Hst & _).
  { lia. }
  { unfold scr_length. rewrite Hrow1, Hr0, Hb1, Hb0. apply lookup_lt_Some in Hlook. lia. }
  { rewrite Hh1, Hn1. lia. }
  destruct (draw_loop_column _ st1 st _ _ _ ltac:(lia) ltac:(by rewrite Hb1, Hb0) Hst Hcol1)
    as (r & drawn & L & Hr & Hdrawn & Hdne & HL & Hc & Hempty).
  pose proof (draw_loop_same _ _ _ Hst) as (Hb & Hcr & Hp & _).
  assert (scr_refresh_draw scr = Some st) as Hdraw.
  { unfold scr_refresh_draw. rewrite H0. cbn [mbind option_bind draw_loop].
    cbn [draw_init d_nlines d_scr].
    destruct (Z.leb_spec 1 (win_height scr0)); [|lia].
    rewrite Hst1. cbn [mbind option_bind]. exact Hst. }
  assert (buffer (d_scr st) = buffer scr) as Hbuf by congruence.
  assert (current_r (d_scr st) = current_r scr) as Hcur by congruence.
  rewrite Hbuf, Hcur in *.
  exists st, r, drawn, L. split; [done|]. split; [done|]. split; [done|].
  split; [congruence|]. split; [done|]. split; [done|]. split; [done|].
  split; [done|]. split; [done|]. split; [done|].
  destruct (line_cells_total drawn) as (L' & HL' & HL0').
  assert (L' = L) as -> by congruence.
  unfold scr_refresh. rewrite Hdraw. cbn [mbind option_bind].
  rewrite Hbuf, Hcur, Hline. cbn [mbind option_bind]. rewrite Hc.
  destruct (Z.leb_spec 0 L); [|lia].
  destruct (Z.leb_spec L (strlen line)); cbn [andb mbind option_bind]; [done|lia].
Qed.

(** Rendering the buffer of the one line "abc" with the viewport
    column at 0 leaves [current.c] at 3. *)
Lemma scr_refresh_overwrites_col_witness :
  current_c (mk_scroller [[97; 98; 99]] 0 0 3 1 10) = 0 ∧
  ∃ st, scr_refresh_draw (mk_scroller [[97; 98; 99]] 0 0 3 1 10) = Some st ∧
        buffer (d_scr st) = [[97; 98; 99]] ∧ current_r (d_scr st) = 0 ∧
        current_pos (d_scr st) = 3 ∧ current_c (d_scr st) = 3 ∧
        match scr_refresh (mk_scroller [[97; 98; 99]] 0 0 3 1 10) true with
        | Some (scr', _) => scr' = d_scr st ∧ 3 ≤ strlen [97; 98; 99]
        | None => strlen [97; 98; 99] < 3
        end.
Proof.
  split; [reflexivity|].
  destruct (scr_refresh_overwrites_col (mk_scroller [[97; 98; 99]] 0 0 3 1 10) true
              [97; 98; 99])
    as (st & r & drawn & L & Hdraw & Hb & Hr & Hp & Hrow & Hdrawn & _ & _ & HL & Hc & Hres).
  - simpl. lia.
  - simpl. lia.
  - repeat constructor; lia.
  - reflexivity.
  - discriminate.
  - cbn [current_r buffer] in Hrow, Hdrawn.
    assert (r = 0) as ->.
    { apply at_index_Some in Hdrawn as [H0 Hl]. apply lookup_lt_Some in Hl.
      simpl in Hl. lia. }
    injection Hdrawn as <-. injection HL as <-.
    exists st. split; [exact Hdraw|]. split; [exact Hb|]. split; [exact Hr|].
    split; [exact Hp|]. split; [exact Hc|]. exact Hres.
Defined.

(** ** Scrolling *)

Lemma reach_refl a : reach a a.
Proof. by exists O. Qed.

Lemma reach_step a b c : scr_down a 1 = Some b → reach b c → reach a c.
Proof. intros Hab [n Hn]. exists (S n). simpl. by rewrite Hab. Qed.

Lemma reach_trans a b c : reach a b → reach b c → reach a c.
Proof.
  intros [n Hn]. revert a Hn. induction n as [|n IH]; intros a Hn Hbc.
  - injection Hn as ->. done.
  - simpl in Hn. apply bind_Some in Hn as (a' & Ha & Hn).
    eapply reach_step; [done|]. by apply IH.
Qed.

Lemma scr_down_tick scr r k line :
  1 ≤ win_width scr → 0 ≤ k → 0 ≤ r →
  buffer scr !! Z.to_nat r = Some line →
  scr_down (at_rc scr r (k * win_width scr)) 1
  = Some (if k * win_width scr <? strlen line - win_width scr
          then at_rc scr r ((k + 1) * win_width scr)
          else if r <? scr_length scr - 1 then at_rc scr (r + 1) 0
               else at_rc scr r (k * win_width scr)).
Proof.
  intros HW Hk Hr Hline. unfold scr_down.
  assert (sanity_check (at_rc scr r (k * win_width scr))
          = Some (at_rc scr r (k * win_width scr))) as ->.
  { unfold sanity_check, c_mod. cbn [at_rc set_current_c set_current_r current_c win_width].
    destruct (0 <? k * win_width scr); [|done].
    destruct (Z.eqb_spec (win_width scr) 0); [lia|]. cbn [mbind option_bind].
    rewrite Z.rem_mul by lia. done. }
  cbn [mbind option_bind]. change (Z.to_nat 1) with 1%nat.
  cbn [scr_down_loop at_rc set_current_c set_current_r current_c current_r buffer
       win_width win_height current_pos scr_length].
  unfold at_index. destruct (Z.ltb_spec r 0); [lia|]. rewrite Hline.
  cbn [mbind option_bind].
  replace ((k + 1) * win_width scr) with (k * win_width scr + win_width scr) by lia.
  unfold scr_length. cbn [buffer].
  destruct (_ <? _); [done|]. destruct (_ <? _); done.
Qed.

(** From any column of a row that is not the last, ticks lead to the
    start of the next row. *)
Lemma reach_next_row scr r line (m : nat) : ∀ k,
  1 ≤ win_width scr → 0 ≤ k → 0 ≤ r → r < scr_length scr - 1 →
  buffer scr !! Z.to_nat r = Some line →
  strlen line - k * win_width scr ≤ Z.of_nat m →
  reach (at_rc scr r (k * win_width scr)) (at_rc scr (r + 1) 0).
Proof.
  assert (Hnext : ∀ k, 1 ≤ win_width scr → 0 ≤ k → 0 ≤ r → r < scr_length scr - 1 →
            buffer scr !! Z.to_nat r = Some line →
            strlen line - win_width scr ≤ k * win_width scr →
            reach (at_rc scr r (k * win_width scr)) (at_rc scr (r + 1) 0)).
  { intros k HW Hk Hr Hlast Hline Hge.
    eapply reach_step; [by apply scr_down_tick|].
    destruct (Z.ltb_spec (k * win_width scr) (strlen line - win_width scr)); [lia|].
    destruct (Z.ltb_spec r (scr_length scr - 1)); [apply reach_refl|lia]. }
  induction m as [|m IH]; intros k HW Hk Hr Hlast Hline Hm.
  - apply Hnext; try done. lia.
  - destruct (Z.lt_ge_cases (k * win_width scr) (strlen line - win_width scr)) as [Hlt|Hge];
      [|by apply Hnext].
    eapply reach_step; [by apply scr_down_tick|].
    destruct (Z.ltb_spec (k * win_width scr) (strlen line - win_width scr)); [|lia].
    apply IH; try done; lia.
Qed.

Lemma reach_row scr (r : nat) :
  1 ≤ win_width scr → Z.of_nat r < scr_length scr →
  reach (scr_home scr) (at_rc scr (Z.of_nat r) 0).
Proof.
  intros HW. induction r as [|r IH]; intros Hr; [apply reach_refl|].
  eapply reach_trans; [apply IH; lia|].
  unfold scr_length in Hr.
  destruct (buffer scr !! r) as [line|] eqn:Hline;
    [|apply lookup_ge_None in Hline; lia].
  replace (Z.of_nat (S r)) with (Z.of_nat r + 1) by lia.
  replace 0 with (0 * win_width scr) at 1 by lia.
  apply (reach_next_row scr (Z.of_nat r) line (Z.to_nat (strlen line)));
    unfold scr_length; rewrite ?Nat2Z.id; try done; try lia.
Qed.

(** Within the last row, ticks lead up to any column that leaves part of
    the line to show. *)
Lemma reach_last_col scr r line q (m : nat) : ∀ k,
  1 ≤ win_width scr → 0 ≤ r → buffer scr !! Z.to_nat r = Some line →
  0 ≤ k ≤ q → q - k ≤ Z.of_nat m →
  q = 0 ∨ q * win_width scr < strlen line →
  reach (at_rc scr r (k * win_width scr)) (at_rc scr r (q * win_width scr)).
Proof.
  induction m as [|m IH]; intros k HW Hr Hline Hk Hm Hq.
  - replace k with q by lia. apply reach_refl.
  - destruct (decide (k = q)) as [->|Hne]; [apply reach_refl|].
    eapply reach_step; [by apply scr_down_tick; try lia|].
    destruct (Z.ltb_spec (k * win_width scr) (strlen line - win_width scr)); [|nia].
    apply IH; try done; lia.
Qed.

Lemma scr_end_at scr line :
  win_width scr ≠ 0 → at_index (buffer scr) (scr_length scr - 1) = Some line →
  scr_end scr = Some (at_rc scr (scr_length scr - 1)
                            ((if win_width scr <? 0 then 0
                              else Z.quot (strlen line) (win_width scr))
                             * win_width scr)).
Proof.
  intros HW Hlast. unfold scr_end, c_div.
  cbn [set_current_r current_r buffer win_width].
  rewrite Hlast. cbn [mbind option_bind].
  destruct (win_width scr <? 0); [done|].
  destruct (Z.eqb_spec (win_width scr) 0); [done|]. done.
Qed.

(** C7, as amended.  [scr_end] right after [scr_end] changes nothing; and
    when the last line is empty or its length is not a multiple of the
    window width, some number of [scr_down(scr, 1)] after [scr_home] gives
    exactly the scroller that [scr_end] gives. *)
Theorem scr_end_idempotent_and_reached (scr : scroller) (line : list Z) :
  1 ≤ win_width scr → at_index (buffer scr) (scr_length scr - 1) = Some line →
  ∃ s1, scr_end scr = Some s1 ∧ scr_end s1 = Some s1 ∧
        (strlen line = 0 ∨ Z.rem (strlen line) (win_width scr) ≠ 0 →
         ∃ n, scr_down_ticks n (scr_home scr) = Some s1).
Proof.
  intros HW Hlast.
  assert ((win_width scr <? 0) = false) as Hwide by (apply Z.ltb_ge; lia).
  rewrite (scr_end_at scr line) by (done || lia). rewrite Hwide.
  eexists. split; [done|]. split.
  - rewrite (scr_end_at _ line) by (done || (simpl; lia)).
    cbn [at_rc set_current_c set_current_r win_width]. by rewrite Hwide.
  - intros Hlen.
    apply at_index_Some in Hlast as [Hn Hlast].
    pose proof (Z.quot_rem' (strlen line) (win_width scr)) as Hqr.
    pose proof (Z.rem_nonneg (strlen line) (win_width scr) ltac:(lia) ltac:(unfold strlen; lia)).
    pose proof (Z.quot_pos (strlen line) (win_width scr) ltac:(unfold strlen; lia) ltac:(lia)).
    eapply reach_trans.
    + apply (reach_row scr (Z.to_nat (scr_length scr - 1))); [done|lia].
    + rewrite Z2Nat.id by done.
      replace 0 with (0 * win_width scr) at 1 by lia.
      apply (reach_last_col scr _ line _ (Z.to_nat (Z.quot (strlen line) (win_width scr))));
        try done; lia.
Qed.

(** A buffer of two lines, the last of 5 cells, in a window 2 cells wide. *)
Lemma scr_end_idempotent_and_reached_witness :
  ∃ s1, scr_end (mk_scroller [[97]; [98; 99; 100; 101; 102]] 0 0 1 4 2) = Some s1 ∧
        scr_end s1 = Some s1 ∧
        ∃ n, scr_down_ticks n (scr_home (mk_scroller [[97]; [98; 99; 100; 101; 102]] 0 0 1 4 2))
             = Some s1.
Proof.
  destruct (scr_end_idempotent_and_reached
              (mk_scroller [[97]; [98; 99; 100; 101; 102]] 0 0 1 4 2)
              [98; 99; 100; 101; 102])
    as (s1 & H1 & H2 & H3); [simpl; lia | reflexivity |].
  exists s1. split; [exact H1|]. split; [exact H2|].
  apply H3. right. vm_compute. discriminate.
Defined.

(** C7 as the claim states it fails: with a last line exactly as long as
    the window is wide, [scr_end] rests one row further than any number of
    [scr_down] reaches. *)
Lemma scr_end_not_reached :
  scr_end (mk_scroller [[97; 98]] 0 0 0 4 2) = Some (mk_scroller [[97; 98]] 0 2 0 4 2) ∧
  ∀ n, scr_down_ticks n (scr_home (mk_scroller [[97; 98]] 0 0 0 4 2))
       ≠ Some (mk_scroller [[97; 98]] 0 2 0 4 2).
Proof.
  split; [reflexivity|].
  assert (∀ n, scr_down_ticks n (mk_scroller [[97; 98]] 0 0 0 4 2)
               = Some (mk_scroller [[97; 98]] 0 0 0 4 2)) as H.
  { induction n as [|n IH]; [done|]. simpl. exact IH. }
  intros n. change (scr_home _) with (mk_scroller [[97; 98]] 0 0 0 4 2).
  rewrite H. discriminate.
Qed.

(** ** The character interpreter *)

Lemma poke_Some {A} (a : list A) i x :
  0 ≤ i < Z.of_nat (length a) → poke a i x = Some (<[Z.to_nat i := x]> a).
Proof.
  intros Hi. unfold poke.
  destruct (Z.leb_spec 0 i); [|lia]. destruct (Z.ltb_spec i (Z.of_nat (length a))); [|lia].
  done.
Qed.

Lemma tab_fill_spec fuel : ∀ rv i,
  0 ≤ i → (Z.to_nat (8 - i mod 8) ≤ fuel)%nat →
  i + (8 - i mod 8) ≤ Z.of_nat (length rv) →
  tab_fill fuel rv i
  = Some (take (Z.to_nat i) rv ++ replicate (Z.to_nat (8 - i mod 8)) 32
            ++ drop (Z.to_nat (i + (8 - i mod 8))) rv,
          i + (8 - i mod 8)).
Proof.
  induction fuel as [|fuel IH]; intros rv i Hi Hf Hlen.
  { pose proof (Z.mod_pos_bound i 8 ltac:(lia)). lia. }
  pose proof (Z.mod_pos_bound i 8 ltac:(lia)) as Hm.
  cbn [tab_fill]. rewrite poke_Some by lia. cbn [mbind option_bind].
  unfold tab_size. rewrite Z.rem_mod_nonneg by lia.
  destruct (Z.eqb_spec ((i + 1) mod 8) 0) as [H0|Hn0].
  - assert (i mod 8 = 7) as H7 by (revert H0; Z.div_mod_to_equations; lia).
    rewrite H7. replace (8 - 7) with 1 by lia. f_equal. f_equal.
    change (Z.to_nat 1) with 1%nat. simpl replicate.
    replace (Z.to_nat (i + 1)) with (S (Z.to_nat i)) by lia.
    apply insert_take_drop. lia.
  - assert ((i + 1) mod 8 = i mod 8 + 1) as H1
        by (revert Hn0; Z.div_mod_to_equations; lia).
    rewrite IH; rewrite ?length_insert, ?H1; try lia.
    replace (i + 1 + (8 - (i mod 8 + 1))) with (i + (8 - i mod 8)) by lia.
    f_equal. f_equal.
    replace (Z.to_nat (8 - i mod 8)) with (S (Z.to_nat (8 - (i mod 8 + 1)))) by lia.
    replace (Z.to_nat (i + 1)) with (S (Z.to_nat i)) by lia.
    rewrite (take_S_r _ _ 32) by (apply list_lookup_insert_eq; lia).
    rewrite take_insert_ge by lia. rewrite drop_insert_lt by lia.
    rewrite <- app_assoc. done.
Qed.

Lemma strlen_arr_Some a : ∀ n,
  strlen_arr a = Some n ↔
  0 ≤ n ∧ a !! Z.to_nat n = Some 0 ∧
  ∀ k c, (k < Z.to_nat n)%nat → a !! k = Some c → c ≠ 0.
Proof.
  induction a as [|ch a IH]; intros n; simpl.
  { split; [done|]. intros (_ & H & _). done. }
  destruct (Z.eqb_spec ch 0) as [->|Hch].
  - split.
    + intros [= <-]. split; [lia|]. split; [done|]. intros k c Hk. simpl in Hk. lia.
    + intros (Hn & Hz & Hall). f_equal.
      destruct (Z.to_nat n) as [|m] eqn:Hm; [lia|].
      exfalso. apply (Hall O 0); [lia|done|done].
  - rewrite fmap_Some. split.
    + intros (m & Hm & ->). apply IH in Hm as (Hm0 & Hmz & Hall).
      split; [lia|]. replace (Z.to_nat (Z.succ m)) with (S (Z.to_nat m)) by lia.
      split; [done|]. intros [|k] c Hk; simpl.
      * intros [= <-]. done.
      * apply Hall. lia.
    + intros (Hn & Hz & Hall).
      destruct (Z.to_nat n) as [|m] eqn:Hm.
      { simpl in Hz. congruence. }
      exists (Z.of_nat m). split; [|lia]. apply IH. rewrite Nat2Z.id.
      split; [lia|]. split; [done|]. intros k c Hk. apply (Hall (S k)). lia.
Qed.

Lemma trim_scan_spec fuel : ∀ rv i j,
  0 ≤ i → -1 ≤ j → j < Z.of_nat (length rv) → (Z.to_nat (j + 1) < fuel)%nat →
  ∃ j', trim_scan fuel rv i j = Some j' ∧ -1 ≤ j' ≤ j ∧
        (∀ k, j' < k ≤ j → i < k ∧ ∃ c, at_index rv k = Some c ∧ isspace c = true) ∧
        (j' ≤ i ∨ ∃ c, at_index rv j' = Some c ∧ isspace c = false).
Proof.
  induction fuel as [|fuel IH]; intros rv i j Hi Hj Hlen Hf; [lia|].
  cbn [trim_scan]. destruct (Z.ltb_spec i j) as [Hlt|Hge].
  - assert (∃ c, at_index rv j = Some c) as [c Hc].
    { destruct (lookup_lt_is_Some_2 rv (Z.to_nat j)) as [c Hc]; [lia|].
      exists c. apply at_index_Some. split; [lia|done]. }
    rewrite Hc. cbn [mbind option_bind].
    destruct (isspace c) eqn:Hsp.
    + destruct (IH rv i (j - 1)) as (j' & Hj' & Hb & Hall & Hend); try lia.
      exists j'. split; [done|]. split; [lia|]. split; [|done].
      intros k Hk. destruct (decide (k = j)) as [->|]; [|apply Hall; lia].
      split; [done|]. eauto.
    + exists j. split; [done|]. split; [lia|]. split; [intros k Hk; lia|].
      right. eauto.
  - exists j. split; [done|]. split; [lia|]. split; [intros k Hk; lia|]. by left.
Qed.

Lemma poke_frame {A} (a a' : list A) i x :
  poke a i x = Some a' →
  0 ≤ i < Z.of_nat (length a) ∧ length a' = length a ∧
  ∀ k, k ≠ Z.to_nat i → a' !! k = a !! k.
Proof.
  unfold poke. destruct (Z.leb_spec 0 i); [|done].
  destruct (Z.ltb_spec i (Z.of_nat (length a))); [|done].
  intros [= <-]. split; [lia|]. split; [apply length_insert|].
  intros k Hk. by apply list_lookup_insert_ne.
Qed.

(** A tab writes at the caret and after it only, and at most 8 cells. *)
Lemma tab_fill_frame fuel : ∀ rv i rv' i',
  0 ≤ i → tab_fill fuel rv i = Some (rv', i') →
  i < i' ≤ i + 8 - i mod 8 ∧ length rv' = length rv ∧
  ∀ k, (Z.to_nat i' ≤ k)%nat → rv' !! k = rv !! k.
Proof.
  induction fuel as [|fuel IH]; intros rv i rv' i' Hi H; [done|].
  cbn [tab_fill] in H. apply bind_Some in H as (rv1 & Hp & H).
  apply poke_frame in Hp as (Hin & Hlen1 & Hfr1).
  unfold tab_size in H. rewrite Z.rem_mod_nonneg in H by lia.
  pose proof (Z.mod_pos_bound i 8 ltac:(lia)).
  destruct (Z.eqb_spec ((i + 1) mod 8) 0) as [Hz|Hn0].
  - injection H as <- <-. split; [lia|]. split; [done|].
    intros k Hk. apply Hfr1. lia.
  - apply IH in H as (Hb & Hlen & Hfr); [|lia].
    assert ((i + 1) mod 8 = i mod 8 + 1) as H1
        by (revert Hn0; Z.div_mod_to_equations; lia).
    split; [lia|]. split; [congruence|].
    intros k Hk. rewrite Hfr by done. apply Hfr1. lia.
Qed.

Lemma count_nonneg s ch : 0 ≤ count s ch.
Proof. induction s as [|x s IH]; simpl; [lia|]. destruct (x =? ch); lia. Qed.

(** The array [parse] allocates is large enough: the loop over [buf]
    writes within it and leaves its last cell, the NUL, alone. *)
Lemma parse_loop_defined : ∀ buf rv i,
  0 ≤ i → i + strlen buf + (tab_size - 1) * count buf 9 < Z.of_nat (length rv) →
  ∃ rv' i', parse_loop buf rv i = Some (rv', i') ∧
            0 ≤ i' ≤ i + strlen buf + (tab_size - 1) * count buf 9 ∧
            length rv' = length rv ∧
            rv' !! pred (length rv) = rv !! pred (length rv).
Proof.
  unfold strlen, tab_size.
  induction buf as [|ch buf IH]; intros rv i Hi Hroom; cbn [parse_loop].
  { exists rv, i. repeat split; simpl; lia || done. }
  pose proof (count_nonneg buf 9) as Hc.
  cbn [count length] in Hroom |- *.
  set (reach_of_ch := Z.to_nat (i + 1 + 7 * (if ch =? 9 then 1 else 0))).
  assert (∃ rv1 i1, parse_char rv i ch = Some (rv1, i1) ∧
                    0 ≤ i1 ≤ i + 1 + 7 * (if ch =? 9 then 1 else 0) ∧
                    length rv1 = length rv ∧
                    ∀ k, (reach_of_ch ≤ k)%nat → rv1 !! k = rv !! k)
    as (rv1 & i1 & Hch & Hi1 & Hlen1 & Hfr1).
  { subst reach_of_ch. unfold parse_char.
    destruct (Z.eqb_spec ch 8) as [->|]; [|destruct (Z.eqb_spec ch 127) as [->|]];
      cbn [orb].
    1,2: eexists _, _; split; [done|]; destruct (Z.ltb_spec 0 i); repeat split; simpl; lia || done.
    destruct (Z.eqb_spec ch 9) as [->|].
    - pose proof (Z.mod_pos_bound i 8 ltac:(lia)).
      rewrite (tab_fill_spec (Z.to_nat tab_size)); unfold tab_size; try lia.
      destruct (tab_fill_frame 8 rv i _ _ Hi (tab_fill_spec 8 rv i Hi ltac:(lia) ltac:(lia)))
        as (Hb & Hl & Hfr).
      eexists _, _. split; [done|]. split; [lia|]. split; [done|].
      intros k Hk. apply Hfr. lia.
    - destruct (Z.eqb_spec ch 13) as [->|].
      { eexists _, _. split; [done|]. repeat split; simpl; lia || done. }
      destruct (isprint ch).
      + rewrite poke_Some by lia. cbn [mbind option_bind].
        eexists _, _. split; [done|]. split; [lia|]. split; [apply length_insert|].
        intros k Hk. apply list_lookup_insert_ne. lia.
      + eexists _, _. split; [done|]. repeat split; simpl; lia || done. }
  rewrite Hch. cbn [mbind option_bind].
  destruct (IH rv1 i1) as (rv' & i' & Hloop & Hi' & Hlen' & Hlast); [lia| |].
  { rewrite Hlen1. destruct (ch =? 9); lia. }
  exists rv', i'. split; [done|]. split; [destruct (ch =? 9); lia|].
  split; [congruence|]. rewrite <- Hlen1, Hlast. apply Hfr1.
  subst reach_of_ch. rewrite Hlen1. destruct (ch =? 9); lia.
Qed.

Lemma strlen_arr_defined a k : a !! k = Some 0 → ∃ n, strlen_arr a = Some n.
Proof.
  revert k. induction a as [|ch a IH]; intros k Hk; [done|]. simpl.
  destruct (Z.eqb_spec ch 0) as [|Hch]; [by eauto|].
  destruct k as [|k]; [simpl in Hk; congruence|].
  destruct (IH k Hk) as [len ->]. by eauto.
Qed.

(** [parse] is defined whenever the caret lies within the line. *)
Lemma parse_interpret_defined pos orig buf :
  0 ≤ pos ≤ strlen orig →
  ∃ rv i len, parse_interpret pos orig buf = Some (rv, i) ∧ 0 ≤ i ∧
              strlen_arr rv = Some len.
Proof.
  intros Hpos. unfold parse_interpret.
  pose proof (count_nonneg buf 9) as Hc.
  assert (Z.of_nat (length (parse_alloc orig buf))
          = strlen orig + strlen buf + (tab_size - 1) * count buf 9 + 1) as Hlen.
  { unfold parse_alloc. rewrite length_app, length_replicate.
    unfold strlen, tab_size in *. lia. }
  destruct (parse_loop_defined buf (parse_alloc orig buf) pos) as (rv & i & Hloop & Hi & Hl & Hlast);
    [lia|lia|].
  assert (parse_alloc orig buf !! pred (length (parse_alloc orig buf)) = Some 0) as Hnul.
  { assert (∃ k, pred (length (parse_alloc orig buf)) = k ∧
                 Z.of_nat k = strlen orig + strlen buf + (tab_size - 1) * count buf 9)
      as (k & -> & Hk) by (eexists; split; [done|lia]).
    unfold parse_alloc, strlen, tab_size in *. cbv zeta.
    rewrite lookup_app_r by lia. apply lookup_replicate_2. lia. }
  rewrite Hnul in Hlast. destruct (strlen_arr_defined rv _ Hlast) as [len Hlen'].
  exists rv, i, len. split; [done|]. split; [lia|done].
Qed.

Lemma strlen_arr_app s zs :
  c_string s → strlen_arr (s ++ 0 :: zs) = Some (strlen s).
Proof.
  intros Hs. apply strlen_arr_Some. unfold strlen. split; [lia|]. split.
  - rewrite Nat2Z.id. by rewrite list_lookup_middle.
  - intros k c Hk Hc. rewrite Nat2Z.id in Hk. rewrite lookup_app_l in Hc by done.
    by eapply (Forall_lookup_1 _ _ _ _ Hs).
Qed.

Lemma write_at_array (line text : list Z) (i : Z) (m : nat) :
  0 ≤ i ≤ strlen line →
  take (Z.to_nat i) (line ++ replicate m 0) ++ text
    ++ drop (Z.to_nat i + length text) (line ++ replicate m 0)
  = write_at i text line ++ replicate (m - (Z.to_nat i + length text - length line)) 0.
Proof.
  intros Hi. unfold write_at, strlen in *.
  rewrite take_app_le by lia. rewrite drop_app, drop_replicate.
  by rewrite <- !app_assoc.
Qed.

Lemma write_at_length (line text : list Z) (i : Z) :
  0 ≤ i ≤ strlen line →
  length (write_at i text line)
  = (Z.to_nat i + length text + (length line - (Z.to_nat i + length text)))%nat.
Proof.
  intros Hi. unfold write_at, strlen in *.
  rewrite !length_app, length_take, length_drop. lia.
Qed.

Lemma write_at_c_string (line text : list Z) (i : Z) :
  c_string line → c_string text → c_string (write_at i text line).
Proof.
  intros Hl Ht. unfold write_at, c_string.
  apply Forall_app. split; [by apply Forall_take|].
  apply Forall_app. split; [done|by apply Forall_drop].
Qed.

(** One character of the input on the array of [parse], which holds the
    line followed by NULs: the array afterwards holds the line the table
    gives, followed by NULs. *)
Lemma parse_char_table_step line i m ch :
  c_string line → 0 ≤ i ≤ strlen line →
  (if ch =? 9 then 8 else 1) < Z.of_nat m →
  ∃ line' i' m',
    parse_char (line ++ replicate m 0) i ch = Some (line' ++ replicate m' 0, i') ∧
    table_step (line, i) ch = (line', i') ∧
    c_string line' ∧ 0 ≤ i' ≤ strlen line' ∧
    Z.of_nat m - (if ch =? 9 then 8 else 1) ≤ Z.of_nat m'.
Proof.
  intros Hcs Hi Hroom. unfold parse_char, table_step.
  destruct ((ch =? 8) || (ch =? 127)) eqn:Hback.
  { exists line, (if 0 <? i then i - 1 else i), m. split; [done|]. split; [done|].
    split; [done|]. split; [destruct (Z.ltb_spec 0 i); lia|].
    destruct (ch =? 9); lia. }
  destruct (Z.eqb_spec ch 9) as [->|Hntab].
  { pose proof (Z.mod_pos_bound i 8 ltac:(lia)) as Hmod.
    rewrite (tab_fill_spec (Z.to_nat tab_size)); unfold tab_size; [|lia|lia|].
    2: { rewrite length_app, length_replicate. unfold strlen in *. lia. }
    replace (Z.to_nat (i + (8 - i mod 8)))
      with (Z.to_nat i + length (replicate (Z.to_nat (8 - i mod 8)) 32%Z))%nat
      by (rewrite length_replicate; lia).
    rewrite write_at_array by done.
    eexists _, _, _. split; [done|]. split; [done|]. split; [|split].
    - apply write_at_c_string; [done|]. apply Forall_replicate. done.
    - unfold strlen. rewrite write_at_length by done. rewrite length_replicate. lia.
    - rewrite length_replicate. unfold strlen in *. lia. }
  destruct (Z.eqb_spec ch 13) as [->|Hncr].
  { exists line, 0, m. split; [done|]. split; [done|]. split; [done|].
    split; [unfold strlen; lia|lia]. }
  destruct (isprint ch) eqn:Hprint.
  { rewrite poke_Some by (rewrite length_app, length_replicate; unfold strlen in *; lia).
    cbn [mbind option_bind].
    rewrite insert_take_drop
      by (rewrite length_app, length_replicate; unfold strlen in *; lia).
    change (ch :: drop (S (Z.to_nat i)) (line ++ replicate m 0))
      with ([ch] ++ drop (S (Z.to_nat i)) (line ++ replicate m 0)).
    replace (S (Z.to_nat i)) with (Z.to_nat i + length [ch])%nat by (simpl; lia).
    rewrite write_at_array by done.
    eexists _, _, _. split; [done|]. split; [done|]. split; [|split].
    - apply write_at_c_string; [done|]. constructor; [|done].
      unfold isprint in Hprint. apply andb_true_iff in Hprint as [H32 _]. lia.
    - unfold strlen. rewrite write_at_length by done. simpl. lia.
    - simpl. unfold strlen in *. lia. }
  exists line, i, m. split; [done|]. split; [done|]. split; [done|]. split; [done|lia].
Qed.

(** The loop of [parse] over the segment does to the array what the
    table does to the line, character by character. *)
Lemma parse_loop_table : ∀ buf line i m,
  c_string line → 0 ≤ i ≤ strlen line →
  strlen buf + (tab_size - 1) * count buf 9 < Z.of_nat m →
  ∃ line' i' m',
    parse_loop buf (line ++ replicate m 0) i = Some (line' ++ replicate m' 0, i') ∧
    interpret_segment buf line i = (line', i') ∧
    c_string line' ∧ 0 ≤ i' ≤ strlen line' ∧ (0 < m')%nat.
Proof.
  unfold interpret_segment, tab_size.
  induction buf as [|ch buf IH]; intros line i m Hcs Hi Hroom.
  { exists line, i, m. repeat split; try done; try lia.
    unfold strlen in Hroom. simpl in Hroom. lia. }
  pose proof (count_nonneg buf 9) as Hcount.
  unfold strlen in Hroom. cbn [length count] in Hroom.
  destruct (parse_char_table_step line i m ch Hcs Hi)
    as (line1 & i1 & m1 & Hstep & Htable & Hcs1 & Hi1 & Hm1).
  { destruct (ch =? 9); lia. }
  destruct (IH line1 i1 m1 Hcs1 Hi1) as (line' & i' & m' & Hloop & Hfold & Hrest).
  { unfold strlen. destruct (ch =? 9); lia. }
  exists line', i', m'. cbn [parse_loop fold_left].
  rewrite Hstep. cbn [mbind option_bind]. rewrite Hloop, Htable. done.
Qed.

Lemma drop_trailing_space_blank l :
  Forall (λ ch, isspace ch = true) l → drop_trailing_space l = [].
Proof.
  induction l as [|ch l IH]; intros H; [done|].
  apply Forall_cons_1 in H as [Hch Hl]. cbn [drop_trailing_space].
  by rewrite (IH Hl), Hch.
Qed.

Lemma drop_trailing_space_after (a : list Z) ch b :
  isspace ch = false → Forall (λ c, isspace c = true) b →
  drop_trailing_space (a ++ ch :: b) = a ++ [ch].
Proof.
  intros Hch Hb. induction a as [|x a IH]; cbn [app drop_trailing_space].
  - by rewrite (drop_trailing_space_blank b Hb), Hch.
  - rewrite IH. by destruct a.
Qed.

(** What the trimming loop of [parse] cuts off is what the specification
    trims: the white space a line ends with strictly beyond the caret. *)
Lemma trim_beyond_caret_take (line : list Z) (i n : Z) :
  0 ≤ i → 0 ≤ n ≤ strlen line →
  (∀ k, n ≤ k < strlen line →
        i < k ∧ ∃ c, line !! Z.to_nat k = Some c ∧ isspace c = true) →
  (n - 1 ≤ i ∨ ∃ c, line !! Z.to_nat (n - 1) = Some c ∧ isspace c = false) →
  take (Z.to_nat n) line = trim_beyond_caret i line.
Proof.
  unfold strlen, trim_beyond_caret. intros Hi Hn Hall Hend.
  assert (Forall (λ c, isspace c = true) (drop (Z.to_nat n) line)) as Hblank.
  { apply Forall_lookup. intros k c Hk. rewrite lookup_drop in Hk.
    pose proof (lookup_lt_Some _ _ _ Hk) as Hlt.
    destruct (Hall (Z.of_nat (Z.to_nat n + k))) as (_ & c' & Hc' & Hsp); [lia|].
    rewrite Nat2Z.id in Hc'. congruence. }
  destruct (decide (n - 1 ≤ i)) as [Hle|Hgt].
  - destruct (decide (n = Z.of_nat (length line))) as [->|Hne].
    + rewrite Nat2Z.id, firstn_all.
      rewrite take_ge, drop_ge by lia. by rewrite app_nil_r.
    + destruct (Hall n) as [Hin _]; [lia|].
      replace (S (Z.to_nat i)) with (Z.to_nat n) by lia.
      by rewrite (drop_trailing_space_blank _ Hblank), app_nil_r.
  - destruct Hend as [|(c & Hc & Hsp)]; [lia|].
    assert (drop (S (Z.to_nat i)) line
            = take (Z.to_nat (n - 1) - S (Z.to_nat i)) (drop (S (Z.to_nat i)) line)
                ++ c :: drop (Z.to_nat n) line) as Hsplit.
    { rewrite <- (take_drop (Z.to_nat (n - 1) - S (Z.to_nat i)) (drop (S (Z.to_nat i)) line))
        at 1.
      f_equal. rewrite drop_drop.
      replace (S (Z.to_nat i) + (Z.to_nat (n - 1) - S (Z.to_nat i)))%nat
        with (Z.to_nat (n - 1)) by lia.
      rewrite (drop_S _ _ _ Hc). do 2 f_equal. lia. }
    rewrite Hsplit, (drop_trailing_space_after _ _ _ Hsp Hblank).
    rewrite <- (take_drop (S (Z.to_nat i)) (take (Z.to_nat n) line)).
    rewrite take_take. replace (S (Z.to_nat i) `min` Z.to_nat n)%nat with (S (Z.to_nat i)) by lia.
    f_equal.
    replace (Z.to_nat n)
      with (S (Z.to_nat i) + S (Z.to_nat (n - 1) - S (Z.to_nat i)))%nat by lia.
    rewrite <- take_drop_commute.
    erewrite take_S_r; [done|].
    rewrite lookup_drop.
    replace (S (Z.to_nat i) + (Z.to_nat (n - 1) - S (Z.to_nat i)))%nat
      with (Z.to_nat (n - 1)) by lia.
    done.
Qed.

(** [parse] on a line and a segment of input: the segment is interpreted
    by the table from the caret on, and the line returned is the result
    without its trailing white space beyond the caret. *)
Lemma parse_interprets scr orig buf :
  c_string orig → 0 ≤ current_pos scr ≤ strlen orig →
  ∃ line pos,
    interpret_segment buf orig (current_pos scr) = (line, pos) ∧
    parse scr orig buf = Some (set_current_pos scr pos, trim_beyond_caret pos line) ∧
    c_string line ∧ 0 ≤ pos ≤ strlen line.
Proof.
  intros Horig Hpos.
  pose proof (count_nonneg buf 9) as Hcount.
  destruct (parse_loop_table buf orig (current_pos scr)
              (Z.to_nat (strlen buf + (tab_size - 1) * count buf 9 + 1)) Horig Hpos)
    as (line & pos & m & Hloop & Hfold & Hcs & Hp & Hm).
  { unfold strlen, tab_size in *. lia. }
  exists line, pos. split; [done|]. split; [|done].
  unfold parse, parse_interpret, parse_alloc. cbv zeta.
  replace (strlen orig + strlen buf + (tab_size - 1) * count buf 9 + 1 - strlen orig)
    with (strlen buf + (tab_size - 1) * count buf 9 + 1) by lia.
  rewrite Hloop. cbn [mbind option_bind].
  destruct m as [|m]; [lia|]. cbn [replicate].
  rewrite (strlen_arr_app _ _ Hcs). cbn [mbind option_bind].
  destruct (trim_scan_spec (S (Z.to_nat (strlen line))) (line ++ 0 :: replicate m 0) pos
              (strlen line - 1))
    as (j & Hj & Hb & Hall & Hend);
    [lia|unfold strlen; lia|rewrite length_app; unfold strlen; simpl; lia|lia|].
  rewrite Hj. cbn [mbind option_bind].
  rewrite poke_Some by (rewrite length_app; unfold strlen in *; simpl; lia).
  cbn [mbind option_bind].
  assert (<[Z.to_nat (j + 1) := 0]> (line ++ 0 :: replicate m 0)
          = take (Z.to_nat (j + 1)) line ++ 0 :: drop (S (Z.to_nat (j + 1))) (line ++ 0 :: replicate m 0))
    as ->.
  { rewrite insert_take_drop by (rewrite length_app; unfold strlen in *; simpl; lia).
    f_equal. apply take_app_le. unfold strlen in *. lia. }
  assert (c_string (take (Z.to_nat (j + 1)) line)) as Hcut by (by apply Forall_take).
  rewrite (strlen_arr_app _ _ Hcut). cbn [mbind option_bind].
  unfold strlen at 1. rewrite Nat2Z.id, take_app_length.
  do 3 f_equal. apply trim_beyond_caret_take; [lia|lia| |].
  - intros k Hk. destruct (Hall k) as (Hik & c & Hc & Hsp); [lia|].
    split; [done|]. exists c. split; [|done].
    apply at_index_Some in Hc as [_ Hc].
    rewrite lookup_app_l in Hc by (unfold strlen in *; lia). done.
  - replace (j + 1 - 1) with j by lia.
    destruct Hend as [|(c & Hc & Hsp)]; [by left|].
    destruct (decide (j ≤ pos)) as [|Hgt]; [by left|]. right.
    exists c. split; [|done].
    apply at_index_Some in Hc as [_ Hc].
    rewrite lookup_app_l in Hc by (unfold strlen in *; lia). done.
Qed.

(** C5.  The character table of [parse], one input character at a time on
    the array [rv] with the caret at [i]: BS and DEL move the caret back
    when it is positive and erase nothing; TAB writes spaces from the
    caret to the next multiple of 8, at least one; CR sets the caret to 0;
    a printable character is written at the caret, which advances; every
    other character is ignored.  And [parse] applies that table to the
    segment: for every line and every caret within it, the caret
    afterwards and the line returned are those the table of the
    specification gives, character by character from the line and the
    caret there were, with the white space the line ends with strictly
    beyond the caret removed. *)
Theorem parse_character_table :
  (∀ (rv : list Z) (i ch : Z), 0 ≤ i →
     ((ch = 8 ∨ ch = 127) →
        parse_char rv i ch = Some (rv, if 0 <? i then i - 1 else i)) ∧
     (ch = 9 → i + (8 - i mod 8) ≤ Z.of_nat (length rv) →
        1 ≤ 8 - i mod 8 ∧ (i + (8 - i mod 8)) mod 8 = 0 ∧
        parse_char rv i ch
        = Some (take (Z.to_nat i) rv ++ replicate (Z.to_nat (8 - i mod 8)) 32
                  ++ drop (Z.to_nat (i + (8 - i mod 8))) rv,
                i + (8 - i mod 8))) ∧
     (ch = 13 → parse_char rv i ch = Some (rv, 0)) ∧
     (isprint ch = true → i < Z.of_nat (length rv) →
        parse_char rv i ch = Some (<[Z.to_nat i := ch]> rv, i + 1)) ∧
     (ch ≠ 8 → ch ≠ 127 → ch ≠ 9 → ch ≠ 13 → isprint ch = false →
        parse_char rv i ch = Some (rv, i))) ∧
  (∀ (scr : scroller) (orig buf : list Z),
     c_string orig → 0 ≤ current_pos scr ≤ strlen orig →
     ∃ line pos,
       interpret_segment buf orig (current_pos scr) = (line, pos) ∧
       parse scr orig buf = Some (set_current_pos scr pos, trim_beyond_caret pos line) ∧
       c_string line ∧ 0 ≤ pos ≤ strlen line).
Proof.
  split.
  - intros rv i ch Hi. unfold parse_char. repeat split.
    + intros [-> | ->]; done.
    + pose proof (Z.mod_pos_bound i 8 ltac:(lia)). lia.
    + rewrite <- Zplus_mod_idemp_l. Z.div_mod_to_equations. lia.
    + subst ch. cbn [Z.eqb orb Pos.eqb]. apply tab_fill_spec; [done| |done].
      pose proof (Z.mod_pos_bound i 8 ltac:(lia)). unfold tab_size. lia.
    + intros ->. done.
    + intros Hp Hlen. unfold isprint in Hp. apply andb_true_iff in Hp as [H1 H2].
      apply Z.leb_le in H1, H2.
      destruct (Z.eqb_spec ch 8); [lia|]. destruct (Z.eqb_spec ch 127); [lia|].
      destruct (Z.eqb_spec ch 9); [lia|]. destruct (Z.eqb_spec ch 13); [lia|].
      cbn [orb]. unfold isprint.
      destruct (Z.leb_spec 32 ch); [|lia]. destruct (Z.leb_spec ch 126); [|lia].
      cbn [andb]. rewrite poke_Some by lia. done.
    + intros H8 H127 H9 H13 ->.
      destruct (Z.eqb_spec ch 8); [lia|]. destruct (Z.eqb_spec ch 127); [lia|].
      destruct (Z.eqb_spec ch 9); [lia|]. destruct (Z.eqb_spec ch 13); [lia|]. done.
  - intros scr orig buf. apply parse_interprets.
Qed.

(** The table on an array that holds "ab" with the caret after it; and
    [parse] on the line "ab  " with the caret after "ab" and the input
    "c", a tab, three backspaces and a bell: "c" goes after "ab", the tab
    fills up to column 8, the caret goes back to column 5, the bell is
    ignored, and the two spaces beyond the cell under the caret are cut. *)
Lemma parse_character_table_witness :
  parse_char [97; 98; 0; 0; 0; 0; 0; 0; 0; 0] 2 8 = Some ([97; 98; 0; 0; 0; 0; 0; 0; 0; 0], 1) ∧
  parse_char [97; 98; 0; 0; 0; 0; 0; 0; 0; 0] 2 9
  = Some ([97; 98; 32; 32; 32; 32; 32; 32; 0; 0], 8) ∧
  parse_char [97; 98; 0; 0; 0; 0; 0; 0; 0; 0] 2 13 = Some ([97; 98; 0; 0; 0; 0; 0; 0; 0; 0], 0) ∧
  parse_char [97; 98; 0; 0; 0; 0; 0; 0; 0; 0] 2 99 = Some ([97; 98; 99; 0; 0; 0; 0; 0; 0; 0], 3) ∧
  parse_char [97; 98; 0; 0; 0; 0; 0; 0; 0; 0] 2 7 = Some ([97; 98; 0; 0; 0; 0; 0; 0; 0; 0], 2) ∧
  interpret_segment [99; 9; 8; 8; 8; 7] [97; 98; 32; 32] 2
  = ([97; 98; 99; 32; 32; 32; 32; 32], 5) ∧
  parse (mk_scroller [[97; 98; 32; 32]] 0 0 2 24 80) [97; 98; 32; 32] [99; 9; 8; 8; 8; 7]
  = Some (mk_scroller [[97; 98; 32; 32]] 0 0 5 24 80, [97; 98; 99; 32; 32; 32]).
Proof.
  destruct parse_character_table as [Htable Hparse].
  destruct (Htable [97; 98; 0; 0; 0; 0; 0; 0; 0; 0] 2 8 ltac:(lia)) as (H8 & _).
  destruct (Htable [97; 98; 0; 0; 0; 0; 0; 0; 0; 0] 2 9 ltac:(lia)) as (_ & H9 & _).
  destruct (Htable [97; 98; 0; 0; 0; 0; 0; 0; 0; 0] 2 13 ltac:(lia)) as (_ & _ & H13 & _).
  destruct (Htable [97; 98; 0; 0; 0; 0; 0; 0; 0; 0] 2 99 ltac:(lia)) as (_ & _ & _ & H99 & _).
  destruct (Htable [97; 98; 0; 0; 0; 0; 0; 0; 0; 0] 2 7 ltac:(lia)) as (_ & _ & _ & _ & H7).
  destruct (Hparse (mk_scroller [[97; 98; 32; 32]] 0 0 2 24 80) [97; 98; 32; 32]
              [99; 9; 8; 8; 8; 7])
    as (line & pos & Hfold & Hres & _).
  { repeat constructor; lia. }
  { unfold strlen. simpl. lia. }
  split; [apply H8; left; reflexivity|].
  split; [apply H9; [reflexivity|vm_compute; discriminate]|].
  split; [apply H13; reflexivity|].
  split; [apply H99; [reflexivity|vm_compute; reflexivity]|].
  split; [apply H7; (lia || reflexivity)|].
  split; [reflexivity|].
  rewrite Hres. vm_compute in Hfold. injection Hfold as <- <-. reflexivity.
Defined.

(** ** The splitter: arrays of children *)

Lemma shift_down_spec (a : list wm_window) : ∀ n j,
  (j + n < length a)%nat →
  shift_down n j a = take j a ++ take n (drop (S j) a) ++ drop (j + n) a.
Proof.
  intros n. revert a. induction n as [|n IH]; intros a j Hlen.
  - simpl. rewrite Nat.add_0_r. by rewrite take_drop.
  - cbn [shift_down].
    destruct (a !! S j) as [next|] eqn:Hnext; [|apply lookup_ge_None in Hnext; lia].
    rewrite IH by (rewrite length_insert; lia).
    rewrite (take_S_r _ j next) by (apply list_lookup_insert_eq; lia).
    rewrite take_insert_ge by lia.
    rewrite !drop_insert_lt by lia.
    rewrite <- app_assoc. f_equal.
    rewrite (drop_S a next (S j) Hnext). simpl.
    replace (j + S n)%nat with (S (j + n))%nat by lia. done.
Qed.

Lemma array_remove_delete (a : list wm_window) i :
  (i < length a)%nat →
  take (pred (length a)) (shift_down (pred (length a) - i) i a) = delete i a.
Proof.
  intros Hi. rewrite shift_down_spec by lia.
  rewrite delete_take_drop.
  replace (i + (pred (length a) - i))%nat with (pred (length a)) by lia.
  rewrite take_app_ge by (rewrite length_take; lia).
  rewrite length_take_le by lia. f_equal.
  rewrite take_app_ge by (rewrite length_take, length_drop; lia).
  rewrite length_take, length_drop.
  replace (pred (length a) - i - (pred (length a) - i) `min` (length a - S i))%nat
    with O by lia.
  rewrite take_0, app_nil_r. apply take_ge. rewrite length_drop. lia.
Qed.

Lemma find_child_Some s window i :
  wm_splitter_find_child s window = Some i →
  ∃ child, children s !! i = Some child ∧ window_id child = window.
Proof.
  unfold wm_splitter_find_child. intros H.
  apply fmap_Some in H as ([j child] & Hf & ->).
  apply list_find_Some in Hf as (Hl & Hid & _). eauto.
Qed.

Lemma find_child_In s window :
  window ∈ map window_id (children s) → is_Some (wm_splitter_find_child s window).
Proof.
  intros Hin. unfold wm_splitter_find_child.
  apply list_elem_of_fmap in Hin as (child & -> & Hin).
  destruct (list_find_elem_of (λ c, window_id c = window_id child) (children s) child)
    as [[j c] Hf]; [done..|].
  rewrite Hf. by eexists.
Qed.

Lemma wm_splitter_array_remove_found s window i :
  wm_splitter_find_child s window = Some i →
  wm_splitter_array_remove s window = (0, set_children s (delete i (children s))).
Proof.
  intros Hf. unfold wm_splitter_array_remove. rewrite Hf.
  apply find_child_Some in Hf as (child & Hc & _).
  apply lookup_lt_Some in Hc. by rewrite array_remove_delete.
Qed.

(** What the loop of [wm_splitter_split] that makes room does: every slot
    after [pos] receives the child that was at [pos]. *)
Lemma shift_up_spec : ∀ n i (a : list wm_window) this,
  a !! i = Some this → (i + n < length a)%nat →
  shift_up n i a = take (S i) a ++ replicate n this ++ drop (S (i + n)) a.
Proof.
  induction n as [|n IH]; intros i a this Hthis Hlen.
  - simpl. rewrite Nat.add_0_r. by rewrite take_drop.
  - cbn [shift_up]. rewrite Hthis.
    rewrite (IH (S i) _ this); [|by rewrite list_lookup_insert_eq by lia
                                |rewrite length_insert; lia].
    rewrite drop_insert_lt by lia.
    rewrite (take_S_r _ (S i) this) by (rewrite list_lookup_insert_eq by lia; done).
    rewrite take_insert_ge by lia. rewrite <- app_assoc. simpl.
    replace (S (i + S n)) with (S (S (i + n))) by lia. done.
Qed.

Lemma array_insert_spec pos obj (cs : list wm_window) :
  (pos ≤ length cs)%nat →
  array_insert pos obj cs
  = take pos cs ++ obj :: match cs !! pos with
                          | Some this => replicate (length cs - pos) this
                          | None => []
                          end.
Proof.
  intros Hpos. unfold array_insert.
  destruct (cs !! pos) as [this|] eqn:Hthis.
  - pose proof (lookup_lt_Some _ _ _ Hthis) as Hlt.
    rewrite (shift_up_spec _ _ _ this);
      [|by apply lookup_app_l_Some|rewrite length_app; simpl; lia].
    rewrite (drop_ge _ (S _)) by (rewrite length_app; simpl; lia).
    rewrite app_nil_r.
    rewrite take_app_le by lia.
    rewrite insert_app_l by (rewrite length_take_le; lia).
    rewrite (take_S_r cs pos this Hthis).
    rewrite insert_app_r_alt by (rewrite length_take; lia).
    rewrite length_take_le by lia. rewrite Nat.sub_diag. simpl.
    by rewrite <- app_assoc.
  - apply lookup_ge_None in Hthis. assert (pos = length cs) as -> by lia.
    rewrite Nat.sub_diag. simpl.
    rewrite insert_app_r_alt by lia. rewrite Nat.sub_diag. simpl.
    by rewrite take_ge by lia.
Qed.

(** With at most one child after the position, the array afterwards is
    the list with [obj] inserted. *)
Lemma array_insert_near_end pos obj (cs : list wm_window) :
  (pos ≤ length cs ≤ S pos)%nat →
  array_insert pos obj cs = take pos cs ++ obj :: drop pos cs.
Proof.
  intros Hpos. rewrite array_insert_spec by lia. f_equal. f_equal.
  destruct (cs !! pos) as [this|] eqn:Hthis.
  - pose proof (lookup_lt_Some _ _ _ Hthis).
    replace (length cs - pos)%nat with 1%nat by lia. simpl.
    rewrite (drop_S _ _ _ Hthis). by rewrite drop_ge by lia.
  - apply lookup_ge_None in Hthis. by rewrite drop_ge by lia.
Qed.

(** ** The splitter: layout *)

Lemma fold_left_add_sum l : ∀ a, fold_left Z.add l a = a + sum_Z l.
Proof.
  unfold sum_Z. induction l as [|x l IH]; intros a; simpl; [lia|]. rewrite IH. lia.
Qed.

Lemma depth_with_fields g w : depth (with_fields g w) = depth w.
Proof. by destruct w. Qed.

Lemma kids_with_fields g w : kids (with_fields g w) = kids w.
Proof. by destruct w. Qed.

Lemma fields_with_fields g w : fields (with_fields g w) = g (fields w).
Proof. by destruct w. Qed.

Lemma depth_lt_children f o cs n :
  (depth (Splitter f o cs) < S n)%nat → Forall (λ c, (depth c < n)%nat) cs.
Proof.
  simpl. intros H. apply Nat.succ_lt_mono in H.
  induction cs as [|c cs IH]; [done|]. simpl in H. constructor; [lia|]. apply IH. lia.
Qed.

Lemma grow_loop_sum fuel : ∀ d m r,
  (grow_loop fuel d m r).1 + (grow_loop fuel d m r).2 = d + r.
Proof.
  induction fuel as [|fuel IH]; intros d m r; simpl; [done|].
  destruct (_ && _); [|done]. rewrite IH. lia.
Qed.

(** The fuel of [grow_to_minimum] is enough: where it stops, the guard of
    the [while] loop is false. *)
Lemma grow_to_minimum_exit d m r :
  ((grow_to_minimum d m r).1 <? m) && negb ((grow_to_minimum d m r).2 =? 0) = false.
Proof.
  unfold grow_to_minimum.
  assert (∀ fuel d r, (Z.to_nat (m - d) ≤ fuel)%nat →
            ((grow_loop fuel d m r).1 <? m) && negb ((grow_loop fuel d m r).2 =? 0) = false)
    as H; [|by apply H].
  clear. induction fuel as [|fuel IH]; intros d r Hf; simpl.
  - destruct (Z.ltb_spec d m); [lia|done].
  - destruct ((d <? m) && negb (r =? 0)) eqn:Hg; [|done]. apply IH.
    apply andb_true_iff in Hg as [Hlt _]. apply Z.ltb_lt in Hlt. lia.
Qed.

Lemma layout_dimension_sum o child size r last :
  (layout_dimension o child size r last).1 + (layout_dimension o child size r last).2
  = size + r ∧
  (last = true → (layout_dimension o child size r last).2 = 0).
Proof.
  unfold layout_dimension, grow_to_minimum.
  pose proof (grow_loop_sum (Z.to_nat (wm_splitter_min_dimension o child - size)) size
                            (wm_splitter_min_dimension o child) r) as Hs.
  destruct (grow_loop _ _ _ _) as [d r']. simpl in Hs.
  destruct (Z.eqb_spec r' 0) as [->|]; destruct last; simpl; split; (done || lia).
Qed.

Lemma layout_dimensions_length o : ∀ cs sizes r,
  length sizes = length cs → length (layout_dimensions o cs sizes r) = length cs.
Proof.
  induction cs as [|c cs IH]; intros [|size sizes] r Hlen; simpl in *; try done.
  destruct (layout_dimension _ _ _ _ _) as [d r']. simpl. f_equal. apply IH. lia.
Qed.

(** The last loop of [wm_splitter_layout] hands out exactly the shares
    plus the remainder it starts from. *)
Lemma layout_dimensions_sum o : ∀ cs sizes r,
  cs ≠ [] → length sizes = length cs →
  sum_Z (layout_dimensions o cs sizes r) = sum_Z sizes + r.
Proof.
  induction cs as [|c cs IH]; intros [|size sizes] r Hne Hlen; simpl in *; try done.
  pose proof (layout_dimension_sum o c size r (match cs with [] => true | _ => false end))
    as [Hs Hlast].
  destruct (layout_dimension _ _ _ _ _) as [d r']. simpl in *.
  destruct cs as [|c' cs].
  - destruct sizes; [|done]. simpl. specialize (Hlast eq_refl). lia.
  - rewrite IH by (done || lia). lia.
Qed.

Section splitter_layout.

Variable float_below_min : Z → Z → Z → bool.
Variable float_share : Z → Z → Z → Z.

Local Abbreviation layout_event := (wm_window_layout_event float_below_min float_share).
Local Abbreviation splitter_layout_event :=
  (wm_splitter_layout_event float_below_min float_share).

Lemma layout_sizes_length o avail cs :
  length (layout_sizes float_below_min float_share o avail cs).1 = length cs.
Proof.
  unfold layout_sizes. destruct (layout_scan _ _ _ _ _) as [[] prev]; simpl;
    by rewrite length_map.
Qed.

(** What one level of layout does to the children, given what layout
    does to each of them. *)
Lemma layout_place_spec (le : wm_window → option wm_window) (n : nat)
    (Hle : ∀ w, (depth w < n)%nat →
                ∃ w', le w = Some w' ∧ fields w' = fields (read_geometry w) ∧
                      depth w' = depth w ∧ window_id w' = window_id w ∧
                      map window_id (kids w') = map window_id (kids w))
    (f : wm_fields) (o : wm_orientation) :
  ∀ cs dims position,
    length dims = length cs → Forall (λ c, (depth c < n)%nat) cs →
    ∃ cs', layout_place le f o cs dims position = Some cs' ∧
           map window_id cs' = map window_id cs ∧
           map depth cs' = map depth cs ∧
           map (get_dimension o) cs' = dims ∧
           Forall (λ c', cross_dimension o (fields c') = cross_dimension o f) cs' ∧
           map (λ c, map window_id (kids c)) cs' = map (λ c, map window_id (kids c)) cs.
Proof.
  induction cs as [|c cs IH]; intros [|d dims] position Hlen Hdepth; simpl in Hlen;
    try done.
  { exists []. by repeat split. }
  apply Forall_cons_1 in Hdepth as [Hc Hcs].
  cbn [layout_place]. unfold wm_splitter_place_window.
  set (W := match o with
            | WM_HORIZONTAL => mk_WINDOW position (w_left f) d (real_width f)
            | WM_VERTICAL => mk_WINDOW (w_top f) position (real_height f) d
            end).
  assert (∃ placed, le (set_cwindow W c) = Some placed ∧
                    fields placed = fields (read_geometry (set_cwindow W c)) ∧
                    depth placed = depth c ∧ window_id placed = window_id c ∧
                    map window_id (kids placed) = map window_id (kids c))
    as (placed & Hplaced & Hfp & Hdp & Hip & Hkp).
  { destruct (Hle (set_cwindow W c)) as (w' & ? & ? & ? & ? & ?).
    - unfold set_cwindow. by rewrite depth_with_fields.
    - exists w'. unfold set_cwindow in *. rewrite depth_with_fields in *.
      rewrite kids_with_fields in *.
      unfold window_id in *. rewrite fields_with_fields in *. done. }
  replace (match o with
           | WM_HORIZONTAL => le (set_cwindow (mk_WINDOW position (w_left f) d (real_width f)) c)
           | WM_VERTICAL => le (set_cwindow (mk_WINDOW (w_top f) position (real_height f) d) c)
           end) with (Some placed) by (subst W; by destruct o).
  cbn [mbind option_bind].
  destruct (Hle placed) as (notified & Hn & Hfn & Hdn & Hin & Hkn); [lia|].
  rewrite Hn. cbn [mbind option_bind].
  edestruct (IH dims) as (cs' & Hcs' & Hids & Hdepths & Hdims & Hcross & Hkids);
    [lia|done|].
  rewrite Hcs'. cbn [mbind option_bind].
  exists (notified :: cs'). split; [done|].
  assert (fields notified
          = mk_fields (w_id (fields c)) W (begy W) (begx W) (maxy W) (maxx W)) as Hf.
  { rewrite Hfn. unfold read_geometry. rewrite fields_with_fields, Hfp.
    unfold read_geometry, set_cwindow. rewrite !fields_with_fields. done. }
  simpl. repeat split.
  - f_equal; [congruence|done].
  - f_equal; [congruence|done].
  - f_equal; [|done]. unfold get_dimension. rewrite Hf. subst W. by destruct o.
  - constructor; [|done]. rewrite Hf. subst W. by destruct o.
  - f_equal; [congruence|done].
Qed.

(** Layout of a window of depth below the fuel returns; the window keeps
    its identity and its depth, takes its placement from its canvas, and
    its children keep their identities and span it across the split. *)
Lemma layout_event_spec fuel : ∀ w,
  (depth w < fuel)%nat →
  ∃ w', layout_event fuel w = Some w' ∧ fields w' = fields (read_geometry w) ∧
        depth w' = depth w ∧ window_id w' = window_id w ∧
        map window_id (kids w') = map window_id (kids w) ∧
        ∀ f o cs, w' = Splitter f o cs →
                  (∃ f0 cs0, w = Splitter f0 o cs0) ∧
                  Forall (λ c, cross_dimension o (fields c) = cross_dimension o f) cs.
Proof.
  induction fuel as [|fuel IH]; intros w Hd; [lia|].
  cbn [wm_window_layout_event].
  destruct w as [f h v|f o cs]; cbn [read_geometry with_fields].
  { eexists. split; [done|]. repeat split; try done. }
  unfold wm_splitter_layout. cbn [orientation children s_window].
  destruct (layout_sizes _ _ _ _ _) as [new_sizes sum] eqn:Hsizes.
  edestruct (layout_place_spec (layout_event fuel) fuel)
    as (cs' & Hcs' & Hids & Hdepths & _ & Hcross & _).
  - intros w Hw. destruct (IH w Hw) as (w' & ? & ? & ? & ? & ? & _). eauto 10.
  - rewrite layout_dimensions_length; [done|].
    match type of Hsizes with
    | layout_sizes _ _ ?o ?a ?c = _ => pose proof (layout_sizes_length o a c) as Hl
    end.
    rewrite Hsizes in Hl. exact Hl.
  - by eapply depth_lt_children.
  - rewrite Hcs'. cbn [mbind option_bind fmap option_fmap option_map].
    eexists. split; [done|]. unfold splitter_window, set_children.
    cbn [s_window orientation children fields depth kids].
    split; [done|]. split; [by rewrite Hdepths|]. split; [done|]. split; [done|].
    intros f' o' cs'' [= <- <- <-]. split; [by eauto|exact Hcross].
Qed.

Lemma splitter_layout_event_spec fuel s :
  (depth (splitter_window s) < fuel)%nat →
  ∃ s', splitter_layout_event fuel s = Some s' ∧
        orientation s' = orientation s ∧
        w_id (s_window s') = w_id (s_window s) ∧
        depth (splitter_window s') = depth (splitter_window s) ∧
        map window_id (children s') = map window_id (children s) ∧
        map (λ c, map window_id (kids c)) (children s')
        = map (λ c, map window_id (kids c)) (children s).
Proof.
  intros Hd. destruct fuel as [|fuel]; [lia|].
  cbn [wm_splitter_layout_event].
  unfold wm_splitter_layout. cbn [orientation children s_window].
  destruct (layout_sizes _ _ _ _ _) as [new_sizes sum] eqn:Hsizes.
  edestruct (layout_place_spec (layout_event fuel) fuel)
    as (cs' & Hcs' & Hids & Hdepths & _ & _ & Hkids).
  - intros w Hw. destruct (layout_event_spec fuel w Hw) as (w' & ? & ? & ? & ? & ? & _).
    eauto 10.
  - rewrite layout_dimensions_length; [done|].
    match type of Hsizes with
    | layout_sizes _ _ ?o ?a ?c = _ => pose proof (layout_sizes_length o a c) as Hl
    end.
    rewrite Hsizes in Hl. exact Hl.
  - by eapply depth_lt_children.
  - rewrite Hcs'. cbn [mbind option_bind].
    eexists. split; [done|]. unfold splitter_window, set_children.
    cbn [s_window orientation children fields depth read_geometry with_fields w_id].
    repeat split; try done. by rewrite Hdepths.
Qed.

End splitter_layout.

(** ** The splitter: layout, split and close *)

Lemma depth_children_lt f o cs n :
  (0 < n)%nat → Forall (λ c, (depth c < n)%nat) cs → (depth (Splitter f o cs) < S n)%nat.
Proof.
  intros Hn H. simpl. apply ->Nat.succ_lt_mono.
  induction H as [|c cs Hc Hcs IH]; simpl; lia.
Qed.

Lemma depth_set_context w c : depth (wm_window_set_context w c) = depth w.
Proof. unfold wm_window_set_context, read_geometry, set_cwindow. by rewrite !depth_with_fields. Qed.

Lemma window_id_set_context w c : window_id (wm_window_set_context w c) = window_id w.
Proof.
  unfold wm_window_set_context, read_geometry, set_cwindow, window_id.
  by rewrite !fields_with_fields.
Qed.

Lemma Forall_array_insert (P : wm_window → Prop) pos obj cs :
  (pos ≤ length cs)%nat → P obj → Forall P cs → Forall P (array_insert pos obj cs).
Proof.
  intros Hpos Hobj Hcs. rewrite array_insert_spec by done.
  apply Forall_app. split; [by apply Forall_take|].
  constructor; [done|].
  destruct (cs !! pos) as [this|] eqn:Hthis; [|done].
  apply Forall_replicate. by eapply Forall_lookup_1.
Qed.

Section splitter_operations.

Variable float_below_min : Z → Z → Z → bool.
Variable float_share : Z → Z → Z → Z.

Local Abbreviation splitter_layout_event :=
  (wm_splitter_layout_event float_below_min float_share).
Local Abbreviation split := (wm_splitter_split float_below_min float_share).
Local Abbreviation remove := (wm_splitter_remove float_below_min float_share).

Lemma splitter_layout_event_children n fuel s :
  (0 < n)%nat → (n < fuel)%nat → Forall (λ c, (depth c < n)%nat) (children s) →
  ∃ s', splitter_layout_event fuel s = Some s' ∧
        orientation s' = orientation s ∧
        w_id (s_window s') = w_id (s_window s) ∧
        Forall (λ c, (depth c < n)%nat) (children s') ∧
        map window_id (children s') = map window_id (children s) ∧
        map (λ c, map window_id (kids c)) (children s')
        = map (λ c, map window_id (kids c)) (children s).
Proof.
  intros Hn Hfuel Hfits.
  destruct (splitter_layout_event_spec float_below_min float_share fuel s)
    as (s' & Hs' & Ho & Hid & Hd & Hids & Hkids).
  { pose proof (depth_children_lt (s_window s) (orientation s) (children s) n Hn Hfits).
    unfold splitter_window. lia. }
  exists s'. repeat split; try done.
  eapply (depth_lt_children (s_window s') (orientation s')).
  unfold splitter_window in Hd. rewrite Hd.
  by apply depth_children_lt.
Qed.

(** [wm_splitter_split] in the orientation of the splitter: the new window
    goes through the array insertion at [pos], and the splitter is laid
    out. *)
Lemma split_same_orientation n fuel depth_fuel s window new_window o new_splitter pos :
  (0 < n)%nat → (n < fuel)%nat →
  Forall (λ c, (depth c < n)%nat) (children s) → (depth new_window < n)%nat →
  orientation_eqb o (orientation s) = true →
  match window with
  | Some w => (λ i, S i) <$> wm_splitter_find_child s (window_id w)
  | None => Some (length (children s))
  end = Some pos →
  (pos ≤ length (children s))%nat →
  ∃ s', split (S depth_fuel) fuel s window new_window o new_splitter = Some (0, s') ∧
        orientation s' = orientation s ∧
        w_id (s_window s') = w_id (s_window s) ∧
        Forall (λ c, (depth c < n)%nat) (children s') ∧
        map window_id (children s')
        = map window_id
            (array_insert pos (wm_window_set_context new_window
                                 (derwin_1x1 (cwindow (s_window s))))
                          (children s)).
Proof.
  intros Hn Hfuel Hfits Hnew Ho Hfound Hpos.
  cbn [wm_splitter_split]. rewrite Ho.
  assert (match window with
          | Some w => (λ i, S i) <$> wm_splitter_find_child s (window_id w)
          | None => Some (length (children s))
          end = Some pos) as -> by done.
  cbn [mbind option_bind].
  edestruct (splitter_layout_event_children n fuel) as (s' & Hs' & ? & ? & ? & Hids & _);
    [done|done| |].
  2: { rewrite Hs'. cbn [mbind option_bind]. exists s'.
       repeat split; try done. }
  cbn [set_children children].
  apply Forall_array_insert; [done| |done].
  by rewrite depth_set_context.
Qed.

(** C9.  [wm_splitter_split] with a NULL [window]: the status is -1 and
    the splitter is as it was when the orientation asked for is not the
    splitter's; otherwise the new window is appended as the last child,
    at the index that was the number of children. *)
Theorem split_null_window (n fuel depth_fuel : nat) (s : wm_splitter)
    (new_window : wm_window) (o : wm_orientation) (new_splitter : nat) :
  (0 < n)%nat → (n < fuel)%nat →
  Forall (λ c, (depth c < n)%nat) (children s) → (depth new_window < n)%nat →
  (orientation_eqb o (orientation s) = false →
     split (S depth_fuel) fuel s None new_window o new_splitter = Some (-1, s)) ∧
  (orientation_eqb o (orientation s) = true →
     ∃ s' last,
       split (S depth_fuel) fuel s None new_window o new_splitter = Some (0, s') ∧
       map window_id (children s') = map window_id (children s) ++ [window_id new_window] ∧
       children s' !! length (children s) = Some last ∧
       window_id last = window_id new_window ∧
       length (children s') = S (length (children s))).
Proof.
  intros Hn Hfuel Hfits Hnew. split; intros Ho.
  - cbn [wm_splitter_split]. by rewrite Ho.
  - destruct (split_same_orientation n fuel depth_fuel s None new_window o new_splitter
                (length (children s)))
      as (s' & Hs' & _ & _ & _ & Hids); try done.
    rewrite array_insert_near_end in Hids by lia.
    rewrite take_ge, drop_ge in Hids by lia.
    rewrite map_app in Hids. simpl in Hids. rewrite window_id_set_context in Hids.
    assert (length (children s') = S (length (children s))) as Hlen.
    { rewrite <- (length_map window_id), Hids, length_app, length_map. simpl. lia. }
    destruct (lookup_lt_is_Some_2 (children s') (length (children s))) as [last Hlast];
      [lia|].
    exists s', last. repeat split; try done.
    assert (map window_id (children s') !! length (children s) = Some (window_id last)) as H.
    { by rewrite list_lookup_fmap, Hlast. }
    rewrite Hids in H.
    rewrite lookup_app_r in H by (rewrite length_map; lia).
    rewrite length_map, Nat.sub_diag in H. simpl in H. congruence.
Qed.

(** [wm_splitter_remove] of a child of a splitter with three children or
    more: the splitter stays, and when the window removed had the focus,
    [wm_focus] is called on [children[0]]. *)
Lemma remove_spec n fuel wm parent s window i :
  (0 < n)%nat → (n < fuel)%nat → Forall (λ c, (depth c < n)%nat) (children s) →
  (3 ≤ length (children s))%nat →
  wm_splitter_find_child s window = Some i →
  ∃ s' first,
    delete i (children s) !! O = Some first ∧
    remove fuel wm parent s window
    = Some (0, if wm_is_focused wm window then wm_focus wm first else wm, Remains s') ∧
    map window_id (children s') = map window_id (delete i (children s)).
Proof.
  intros Hn Hfuel Hfits Hlen Hfind. unfold wm_splitter_remove.
  destruct (Nat.ltb_spec (length (children s)) 2); [lia|].
  rewrite (wm_splitter_array_remove_found s window i Hfind).
  change (negb (0 =? 0)) with false. cbn [children set_children].
  pose proof (find_child_Some s window i Hfind) as (child & Hchild & _).
  pose proof (lookup_lt_Some _ _ _ Hchild) as Hi.
  pose proof (length_delete (children s) i ltac:(by eexists)) as Hdel.
  destruct (delete i (children s)) as [|first [|second rest]] eqn:Hrest;
    simpl in Hdel; try lia.
  edestruct (splitter_layout_event_children n fuel
               (set_children s (first :: second :: rest)))
    as (s' & Hs' & _ & _ & _ & Hids & _); [done|done| |].
  { cbn [set_children children]. rewrite <- Hrest. by apply Forall_delete. }
  exists s', first. split; [done|]. split; [|done].
  rewrite Hs'. by destruct (wm_is_focused wm window).
Qed.

(** C1, as amended.  When [wm_splitter_remove] takes a window out of a
    splitter that had at least three children and the window had the
    focus, the focus moves to the first child the splitter has left. *)
Theorem remove_focus_first_child (n fuel : nat) (wm : window_manager)
    (parent : option wm_splitter) (s : wm_splitter) (window : nat) :
  (0 < n)%nat → (n < fuel)%nat → Forall (λ c, (depth c < n)%nat) (children s) →
  (3 ≤ length (children s))%nat →
  window ∈ map window_id (children s) →
  wm_is_focused wm window = true →
  ∃ i s' first wm',
    wm_splitter_find_child s window = Some i ∧
    delete i (children s) !! O = Some first ∧
    remove fuel wm parent s window = Some (0, wm', Remains s') ∧
    focused wm' = window_id first ∧
    map window_id (children s') = map window_id (delete i (children s)).
Proof.
  intros Hn Hfuel Hfits Hlen Hin Hfocus.
  destruct (find_child_In s window Hin) as [i Hfind].
  destruct (remove_spec n fuel wm parent s window i) as (s' & first & H0 & Hrm & Hids);
    try done.
  rewrite Hfocus in Hrm. exists i, s', first, (wm_focus wm first). by repeat split.
Qed.

End splitter_operations.

(** Removing the focused last pane of [three_rows]. *)
Lemma remove_focus_first_child_witness :
  ∃ i s' first wm',
    wm_splitter_find_child three_rows 3 = Some i ∧
    delete i (children three_rows) !! O = Some first ∧
    wm_splitter_remove exact_below_min exact_share 2 (mk_wm 3) None three_rows 3
    = Some (0, wm', Remains s') ∧
    focused wm' = window_id first ∧
    map window_id (children s') = map window_id (delete i (children three_rows)).
Proof.
  apply (remove_focus_first_child exact_below_min exact_share 1 2 (mk_wm 3) None
           three_rows 3).
  - lia.
  - lia.
  - repeat constructor.
  - simpl. lia.
  - apply list_elem_of_In. simpl. auto.
  - reflexivity.
Defined.

(** C1 as the claim states it fails: of three panes 1, 2, 3 the focused
    pane 2 is removed; the child now at its index is pane 3, and the focus
    goes to pane 1. *)
Lemma remove_focus_not_at_old_index :
  map window_id (children three_rows) = [1; 2; 3]%nat ∧
  wm_is_focused (mk_wm 2) 2 = true ∧
  ∀ float_below_min float_share,
    ∃ s', wm_splitter_remove float_below_min float_share 2 (mk_wm 2) None three_rows 2
          = Some (0, mk_wm 1, Remains s') ∧
          map window_id (children s') = [1; 3]%nat.
Proof.
  split; [reflexivity|]. split; [reflexivity|].
  intros float_below_min float_share.
  destruct (remove_spec float_below_min float_share 1 2 (mk_wm 2) None three_rows 2 1)
    as (s' & first & H0 & Hrm & Hids);
    [lia | lia | repeat constructor | simpl; lia | reflexivity |].
  injection H0 as <-. exists s'. split; [exact Hrm|exact Hids].
Qed.

(** Appending a pane to [three_rows], across and along the splitter. *)
Lemma split_null_window_witness :
  (wm_splitter_split exact_below_min exact_share 1 2 three_rows None (new_pane 9)
     WM_VERTICAL 100 = Some (-1, three_rows)) ∧
  (∃ s' last,
     wm_splitter_split exact_below_min exact_share 1 2 three_rows None (new_pane 9)
       WM_HORIZONTAL 100 = Some (0, s') ∧
     map window_id (children s') = [1; 2; 3; 9]%nat ∧
     children s' !! 3%nat = Some last ∧ window_id last = 9%nat ∧
     length (children s') = 4%nat).
Proof.
  split.
  - apply (split_null_window exact_below_min exact_share 1 2 0 three_rows (new_pane 9)
             WM_VERTICAL 100); try lia; try reflexivity.
    + repeat constructor.
    + simpl. lia.
  - apply (split_null_window exact_below_min exact_share 1 2 0 three_rows (new_pane 9)
             WM_HORIZONTAL 100); try lia; try reflexivity.
    + repeat constructor.
    + simpl. lia.
Defined.

(** ** The splitter: what layout shares out *)

Section splitter_shares.

Variable float_below_min : Z → Z → Z → bool.
Variable float_share : Z → Z → Z → Z.

Local Abbreviation layout_event := (wm_window_layout_event float_below_min float_share).
Local Abbreviation splitter_layout_event :=
  (wm_splitter_layout_event float_below_min float_share).

(** The sum of the children's dimensions along the split after layout:
    all that is available when the previous proportions are kept, and
    [num_children] times the rounded-down equal share in the fallback,
    whose [sum] is set to all that is available, so that no remainder is
    left to hand out. *)
Lemma layout_shares fuel s :
  (depth (splitter_window s) < fuel)%nat → children s ≠ [] →
  ∃ s', splitter_layout_event fuel s = Some s' ∧
        sum_Z (map (get_dimension (orientation s)) (children s'))
        = if (layout_scan float_below_min (orientation s) (layout_available (adopted s))
                          (children s) 0).1
          then Z.of_nat (length (children s))
               * Z.quot (layout_available (adopted s)) (Z.of_nat (length (children s)))
          else layout_available (adopted s).
Proof.
  intros Hd Hne. destruct fuel as [|fuel]; [lia|].
  cbn [wm_splitter_layout_event]. fold (adopted s).
  unfold wm_splitter_layout.
  change (orientation (adopted s)) with (orientation s).
  change (children (adopted s)) with (children s).
  pose proof (layout_sizes_length float_below_min float_share (orientation s)
                (layout_available (adopted s)) (children s)) as Hlen.
  assert (sum_Z (layout_sizes float_below_min float_share (orientation s)
                   (layout_available (adopted s)) (children s)).1
          + (layout_available (adopted s)
             - (layout_sizes float_below_min float_share (orientation s)
                  (layout_available (adopted s)) (children s)).2)
          = if (layout_scan float_below_min (orientation s) (layout_available (adopted s))
                            (children s) 0).1
            then Z.of_nat (length (children s))
                 * Z.quot (layout_available (adopted s)) (Z.of_nat (length (children s)))
            else layout_available (adopted s)) as Hsum.
  { unfold layout_sizes.
    destruct (layout_scan _ _ _ _ _) as [[] prev]; cbn [fst snd].
    - assert (∀ (l : list wm_window) q, sum_Z (map (λ _, q) l) = Z.of_nat (length l) * q) as H.
      { induction l as [|x l IH]; intros q; simpl; [lia|].
        unfold sum_Z in *. simpl. rewrite IH. lia. }
      rewrite H. lia.
    - rewrite fold_left_add_sum. lia. }
  destruct (layout_sizes _ _ _ _ _) as [new_sizes sum]. cbn [fst snd] in *.
  edestruct (layout_place_spec (layout_event fuel) fuel)
    as (cs' & Hcs' & _ & _ & Hdims & _).
  - intros w Hw.
    destruct (layout_event_spec float_below_min float_share fuel w Hw)
      as (w' & ? & ? & ? & ? & ? & _). eauto 10.
  - by rewrite layout_dimensions_length.
  - by eapply depth_lt_children.
  - rewrite Hcs'. cbn [mbind option_bind]. eexists. split; [done|].
    cbn [set_children children]. rewrite Hdims.
    rewrite layout_dimensions_sum by done. exact Hsum.
Qed.

(** C2 fails in the fallback.  A splitter of 21 rows with a child that
    was just inserted shares its rows out equally: each of the two panes
    gets 10 rows, and the sum is 20, not 21. *)
Theorem layout_fallback_loses_rows :
  ∃ s', splitter_layout_event 2 two_rows = Some s' ∧
        layout_available s' = 21 ∧
        map (get_dimension WM_HORIZONTAL) (children s') = [10; 10] ∧
        sum_Z (map (get_dimension WM_HORIZONTAL) (children s')) = 20.
Proof.
  cbn [wm_splitter_layout_event]. unfold wm_splitter_layout, layout_sizes.
  cbn [two_rows placed_splitter orientation children s_window splitter_window
       read_geometry with_fields fields layout_available layout_scan new_pane
       placed_pane get_dimension real_height real_width length cwindow maxy maxx
       begy begx].
  destruct (float_below_min _ _ _); [|destruct (float_below_min _ _ _)];
    vm_compute; eexists; (split; [reflexivity|]); repeat split.
Qed.

End splitter_shares.

(** ** The splitter: the slot of the new window *)

Lemma orientation_eqb_refl o : orientation_eqb o o = true.
Proof. by destruct o. Qed.

Section splitter_split.

Variable float_below_min : Z → Z → Z → bool.
Variable float_share : Z → Z → Z → Z.

Local Abbreviation split := (wm_splitter_split float_below_min float_share).

(** [wm_splitter_split] across the orientation of the splitter: a new
    splitter with the children [window], [new_window] goes through the
    array insertion at the index [window] had. *)
Lemma split_other_orientation n fuel depth_fuel s w new_window o new_splitter i target :
  (0 < n)%nat → (S n < fuel)%nat →
  Forall (λ c, (depth c < n)%nat) (children s) → (depth new_window < n)%nat →
  orientation_eqb o (orientation s) = false →
  wm_splitter_find_child s (window_id w) = Some i →
  children s !! i = Some target →
  ∃ s' created,
    split (S (S depth_fuel)) fuel s (Some w) new_window o new_splitter = Some (0, s') ∧
    w_id (s_window created) = new_splitter ∧ orientation created = o ∧
    map window_id (children created) = [window_id target; window_id new_window] ∧
    map window_id (children s')
    = map window_id (array_insert i (splitter_window created) (delete i (children s))) ∧
    map (λ c, map window_id (kids c)) (children s')
    = map (λ c, map window_id (kids c))
          (array_insert i (splitter_window created) (delete i (children s))).
Proof.
  intros Hn Hfuel Hfits Hnew Ho Hfind Htarget.
  pose proof (find_child_Some s _ i Hfind) as (target' & Ht' & Hid).
  assert (target' = target) as -> by congruence.
  pose proof (Forall_lookup_1 _ _ _ _ Hfits Htarget) as Hdt. cbn beta in Hdt.
  remember (S depth_fuel) as inner_fuel eqn:Hinner.
  cbn [wm_splitter_split]. rewrite Hfind, Ho.
  cbn [fmap option_fmap option_map mbind option_bind Nat.pred]. rewrite Htarget.
  cbn [mbind option_bind]. subst inner_fuel.
  set (created0 := mk_splitter _ o []).
  (* the first inner call: [window] becomes the only child *)
  destruct (split_same_orientation float_below_min float_share n fuel depth_fuel created0
              None target o new_splitter O)
    as (created1 & Hc1 & Ho1 & Hid1 & Hfits1 & Hids1);
    [done|lia|done|done|apply orientation_eqb_refl|done|simpl; lia|].
  rewrite Hc1. cbn [mbind option_bind].
  change (array_insert 0 _ (children created0)) with
    [wm_window_set_context target (derwin_1x1 (cwindow (s_window created0)))] in Hids1.
  simpl in Hids1. rewrite window_id_set_context in Hids1.
  (* the second inner call: [new_window] goes after [window] *)
  assert (wm_splitter_find_child created1 (window_id target) = Some O) as Hfind1.
  { unfold wm_splitter_find_child.
    destruct (children created1) as [|c [|c' l]]; simplify_eq/=.
    by rewrite decide_True. }
  assert (length (children created1) = 1%nat) as Hlen1.
  { by rewrite <- (length_map window_id), Hids1. }
  destruct (split_same_orientation float_below_min float_share n fuel depth_fuel created1
              (Some target) new_window o new_splitter 1)
    as (created2 & Hc2 & Ho2 & Hid2 & Hfits2 & Hids2);
    [done|lia|done|done|rewrite Ho1; apply orientation_eqb_refl
    |by rewrite Hfind1|lia|].
  rewrite Hc2. cbn [mbind option_bind].
  rewrite array_insert_near_end in Hids2 by lia.
  rewrite take_ge, drop_ge in Hids2 by lia.
  rewrite map_app, Hids1 in Hids2. simpl in Hids2.
  rewrite window_id_set_context in Hids2.
  (* the new splitter takes the slot *)
  rewrite (wm_splitter_array_remove_found s (window_id target) i) by (by rewrite Hid).
  cbn [snd set_children children s_window orientation].
  edestruct (splitter_layout_event_children float_below_min float_share (S n) fuel)
    as (s' & Hs' & _ & _ & _ & Hids & Hkids); [lia|done| |].
  2: { rewrite Hs'. cbn [mbind option_bind]. exists s', created2.
       split; [done|]. split; [by rewrite Hid2, Hid1|]. split; [by rewrite Ho2, Ho1|].
       split; [done|]. split; [exact Hids|exact Hkids]. }
  cbn [set_children children].
  apply Forall_array_insert.
  - pose proof (lookup_lt_Some _ _ _ Htarget).
    rewrite length_delete by (by eexists). lia.
  - by apply depth_children_lt.
  - apply Forall_delete. eapply Forall_impl; [|exact Hfits]. intros c Hc. simpl in Hc. lia.
Qed.

(** [wm_splitter_split] returns on every input, for layout fuel above the
    depth of the tree: two levels of calls are all there are. *)
Lemma split_returns n fuel depth_fuel s window new_window o new_splitter :
  (0 < n)%nat → (S n < fuel)%nat →
  Forall (λ c, (depth c < n)%nat) (children s) → (depth new_window < n)%nat →
  ∃ status s', split (S (S depth_fuel)) fuel s window new_window o new_splitter
               = Some (status, s').
Proof.
  intros Hn Hfuel Hfits Hnew.
  destruct (orientation_eqb o (orientation s)) eqn:Ho.
  - destruct window as [w|].
    + destruct (wm_splitter_find_child s (window_id w)) as [i|] eqn:Hfind.
      * pose proof (find_child_Some s _ i Hfind) as (target & Ht & _).
        apply lookup_lt_Some in Ht.
        destruct (split_same_orientation float_below_min float_share n fuel (S depth_fuel)
                    s (Some w) new_window o new_splitter (S i))
          as (s' & Hs' & _); [done|lia|done|done|done|by rewrite Hfind|lia|].
        by eauto.
      * remember (S depth_fuel) as inner_fuel. cbn [wm_splitter_split].
        rewrite Hfind. by eauto.
    + destruct (split_same_orientation float_below_min float_share n fuel (S depth_fuel)
                  s None new_window o new_splitter (length (children s)))
        as (s' & Hs' & _); [done|lia|done|done|done|done|lia|].
      by eauto.
  - destruct window as [w|].
    + destruct (wm_splitter_find_child s (window_id w)) as [i|] eqn:Hfind.
      * pose proof (find_child_Some s _ i Hfind) as (target & Ht & _).
        destruct (split_other_orientation n fuel depth_fuel s w new_window o new_splitter
                    i target) as (s' & created & Hs' & _); try done.
        by eauto.
      * remember (S depth_fuel) as inner_fuel. cbn [wm_splitter_split].
        rewrite Hfind. by eauto.
    + remember (S depth_fuel) as inner_fuel. cbn [wm_splitter_split].
      rewrite Ho. by eauto.
Qed.

(** C4 fails when two children or more follow the target.  [three_rows]
    holds the panes 1, 2, 3.  Splitting pane 1 along the splitter puts the
    new pane 9 after pane 1, and the loop that makes room writes pane 2
    over pane 3: the children are 1, 9, 2, 2.  Splitting pane 1 across the
    splitter puts the new splitter 100, with the children 1, 9, in the
    slot of pane 1, and again pane 2 over pane 3. *)
Theorem split_overwrites_later_children :
  (∃ s', split 2 3 three_rows (Some (placed_pane 1 0 0 10 80)) (new_pane 9)
           WM_HORIZONTAL 100 = Some (0, s') ∧
         map window_id (children s') = [1; 9; 2; 2]%nat) ∧
  (∃ s', split 2 3 three_rows (Some (placed_pane 1 0 0 10 80)) (new_pane 9)
           WM_VERTICAL 100 = Some (0, s') ∧
         map window_id (children s') = [100; 2; 2]%nat ∧
         map (λ c, map window_id (kids c)) (children s') = [[1; 9]; []; []]%nat).
Proof.
  split.
  - destruct (split_same_orientation float_below_min float_share 1 3 1 three_rows
                (Some (placed_pane 1 0 0 10 80)) (new_pane 9) WM_HORIZONTAL 100 1)
      as (s' & Hs' & _ & _ & _ & Hids);
      [lia|lia|repeat constructor|simpl; lia|reflexivity|reflexivity|simpl; lia|].
    exists s'. split; [exact Hs'|]. rewrite Hids. reflexivity.
  - destruct (split_other_orientation 1 3 0 three_rows (placed_pane 1 0 0 10 80)
                (new_pane 9) WM_VERTICAL 100 O (placed_pane 1 0 0 10 80))
      as (s' & created & Hs' & Hid & Ho & Hcs & Hids & Hkids);
      [lia|lia|repeat constructor|simpl; lia|reflexivity|reflexivity|reflexivity|].
    exists s'. split; [exact Hs'|]. rewrite Hids, Hkids.
    unfold array_insert. simpl.
    unfold window_id at 1. simpl. rewrite Hid, Hcs. done.
Qed.

(** Where at most one child follows the target, the children after
    [wm_splitter_split] along the splitter are the children before with
    the new window inserted right after the target. *)
Lemma split_near_end n fuel depth_fuel s w new_window new_splitter i :
  (0 < n)%nat → (n < fuel)%nat →
  Forall (λ c, (depth c < n)%nat) (children s) → (depth new_window < n)%nat →
  wm_splitter_find_child s (window_id w) = Some i →
  (length (children s) ≤ S (S i))%nat →
  ∃ s', split (S depth_fuel) fuel s (Some w) new_window (orientation s) new_splitter
        = Some (0, s') ∧
        map window_id (children s')
        = take (S i) (map window_id (children s)) ++ window_id new_window
            :: drop (S i) (map window_id (children s)).
Proof.
  intros Hn Hfuel Hfits Hnew Hfind Hlen.
  pose proof (find_child_Some s _ i Hfind) as (target & Ht & _).
  apply lookup_lt_Some in Ht.
  destruct (split_same_orientation float_below_min float_share n fuel depth_fuel s
              (Some w) new_window (orientation s) new_splitter (S i))
    as (s' & Hs' & _ & _ & _ & Hids);
    [done|done|done|done|apply orientation_eqb_refl|by rewrite Hfind|lia|].
  exists s'. split; [done|]. rewrite Hids.
  rewrite array_insert_near_end by lia.
  rewrite map_app. simpl. rewrite window_id_set_context.
  by rewrite <- !fmap_take, <- !fmap_drop.
Qed.

End splitter_split.

(** ** The splitter: resize *)

Lemma moved_refl c : moved c c.
Proof. unfold moved. by destruct c as [[] ? ?|[] ? ?]. Qed.

Lemma moved_add_dimension o d c c1 : moved c c1 → moved c (add_dimension o d c1).
Proof.
  unfold moved. intros H.
  destruct c as [[] ? ?|[] ? ?], c1 as [[] ? ?|[] ? ?], o; simpl in *;
    try discriminate; injection H as -> -> -> ->; reflexivity.
Qed.

Lemma moved_add_position o d c c1 : moved c c1 → moved c (add_position o d c1).
Proof.
  unfold moved. intros H.
  destruct c as [[] ? ?|[] ? ?], c1 as [[] ? ?|[] ? ?], o; simpl in *;
    try discriminate; injection H as -> -> -> ->; reflexivity.
Qed.

Lemma moved_same_fields c c' : moved c c' → fields c' = fields c → c' = c.
Proof.
  unfold moved. intros H Hf. rewrite H, Hf. by destruct c as [[] ? ?|[] ? ?].
Qed.

Lemma moved_keeps c c' :
  moved c c' →
  w_id (fields c') = w_id (fields c) ∧ cwindow (fields c') = cwindow (fields c) ∧
  depth c' = depth c.
Proof.
  unfold moved. intros ->. unfold replace_placement.
  rewrite fields_with_fields, depth_with_fields. done.
Qed.

Lemma get_dimension_add_dimension o d w :
  get_dimension o (add_dimension o d w) = get_dimension o w + d.
Proof. unfold get_dimension, add_dimension. rewrite fields_with_fields. by destruct o. Qed.

Lemma get_dimension_add_position o d w :
  get_dimension o (add_position o d w) = get_dimension o w.
Proof. unfold get_dimension, add_position. rewrite fields_with_fields. by destruct o. Qed.

Lemma total_cons o x cs : total o (x :: cs) = get_dimension o x + total o cs.
Proof. reflexivity. Qed.

Lemma total_alter_dimension o d : ∀ cs k c,
  cs !! k = Some c → total o (alter (add_dimension o d) k cs) = total o cs + d.
Proof.
  induction cs as [|x cs IH]; intros [|k] c Hc; try done;
    cbn [alter list_alter]; rewrite !total_cons.
  - rewrite get_dimension_add_dimension. lia.
  - rewrite (IH k c Hc). lia.
Qed.

Lemma total_alter_position o d : ∀ cs k,
  total o (alter (add_position o d) k cs) = total o cs.
Proof.
  induction cs as [|x cs IH]; intros [|k]; try done;
    cbn [alter list_alter]; rewrite !total_cons.
  - by rewrite get_dimension_add_position.
  - by rewrite IH.
Qed.

Lemma total_shift_between o d lo hi cs :
  total o (shift_between o d lo hi cs) = total o cs.
Proof.
  unfold total, shift_between. f_equal. apply list_eq. intros k.
  rewrite !list_lookup_fmap, list_lookup_imap.
  destruct (cs !! k) as [c|]; simpl; [|done].
  destruct (_ && _); [|done]. by rewrite get_dimension_add_position.
Qed.

Lemma moved_shift_between o d lo hi cs0 cs :
  Forall2 moved cs0 cs → Forall2 moved cs0 (shift_between o d lo hi cs).
Proof.
  intros H. apply Forall2_same_length_lookup. split.
  - unfold shift_between. rewrite length_imap. by eapply Forall2_length.
  - intros k c0 c' Hc0. unfold shift_between. rewrite list_lookup_imap.
    intros Hc'. apply fmap_Some in Hc' as (c & Hc & ->).
    pose proof (Forall2_lookup_lr _ _ _ _ _ _ H Hc0 Hc) as Hm.
    destruct (_ && _); [by apply moved_add_position|done].
Qed.

Lemma borrow_successors_spec o i desired_change cs0 fuel : ∀ j actual_change cs,
  Forall2 moved cs0 cs → (i < j)%nat → (i < length cs)%nat →
  (length cs - j < fuel)%nat →
  ∃ a cs', borrow_successors fuel o i j desired_change actual_change cs = Some (a, cs') ∧
           total o cs' = total o cs ∧ Forall2 moved cs0 cs'.
Proof.
  induction fuel as [|fuel IH]; intros j actual_change cs Hm Hij Hi Hf; [lia|].
  cbn [borrow_successors].
  destruct (negb (actual_change =? desired_change)); cbn [andb]; [|by eauto].
  destruct (Nat.ltb_spec j (length cs)) as [Hj|]; [|by eauto].
  destruct (lookup_lt_is_Some_2 cs j Hj) as [child Hchild].
  rewrite Hchild. cbn [mbind option_bind].
  set (this_change := if _ <? _ then _ else _).
  destruct (lookup_lt_is_Some_2 cs i Hi) as [ci Hci].
  edestruct (IH (S j)) as (a & cs' & Hb & Ht & Hm'); [| | | |
    exists a, cs'; split; [exact Hb|]; split; [|exact Hm']; rewrite Ht ].
  - apply moved_shift_between.
    repeat (apply Forall2_alter_r; [|intros; first [by apply moved_add_dimension
                                                    |by apply moved_add_position]]).
    done.
  - lia.
  - unfold shift_between. rewrite length_imap, !length_alter. done.
  - unfold shift_between. rewrite length_imap, !length_alter. lia.
  - rewrite total_shift_between.
    erewrite (total_alter_dimension o this_change _ i);
      [|rewrite !list_lookup_alter_ne by lia; exact Hci].
    erewrite (total_alter_dimension o (- this_change) _ j);
      [|rewrite list_lookup_alter_eq, Hchild; done].
    rewrite total_alter_position. lia.
Qed.

Lemma borrow_predecessors_spec o i desired_change cs0 : ∀ m actual_change cs,
  Forall2 moved cs0 cs → (m ≤ i)%nat → (i < length cs)%nat →
  ∃ a cs', borrow_predecessors m o i desired_change actual_change cs = Some (a, cs') ∧
           total o cs' = total o cs ∧ Forall2 moved cs0 cs'.
Proof.
  induction m as [|j IH]; intros actual_change cs Hm Hji Hi; [by eauto|].
  cbn [borrow_predecessors].
  destruct (negb (actual_change =? desired_change)); [|by eauto].
  destruct (lookup_lt_is_Some_2 cs j ltac:(lia)) as [child Hchild].
  rewrite Hchild. cbn [mbind option_bind].
  set (this_change := if _ <? _ then _ else _).
  destruct (lookup_lt_is_Some_2 cs i Hi) as [ci Hci].
  edestruct IH as (a & cs' & Hb & Ht & Hm'); [| | |
    exists a, cs'; split; [exact Hb|]; split; [|exact Hm']; rewrite Ht ].
  - apply moved_shift_between.
    repeat (apply Forall2_alter_r; [|intros; first [by apply moved_add_dimension
                                                    |by apply moved_add_position]]).
    done.
  - lia.
  - unfold shift_between. rewrite length_imap, !length_alter. done.
  - rewrite total_shift_between.
    erewrite (total_alter_dimension o this_change _ i);
      [|rewrite list_lookup_alter_eq, list_lookup_alter_ne, Hci by lia; done].
    rewrite total_alter_position.
    erewrite (total_alter_dimension o (- this_change) _ j); [|exact Hchild]. lia.
Qed.

(** The arithmetic of [wm_splitter_resize_window] moves rows or columns
    between children: their sum stays, and nothing but placements changes. *)
Lemma resize_children_spec o i desired_change cs :
  (i < length cs)%nat → length cs ≠ 1%nat →
  ∃ cs', resize_children o i desired_change cs = Some cs' ∧
         total o cs' = total o cs ∧ Forall2 moved cs cs'.
Proof.
  intros Hi Hlen. unfold resize_children.
  assert (Forall2 moved cs cs) as Hrefl.
  { apply Forall_Forall2_diag, Forall_forall. intros c _. apply moved_refl. }
  destruct (lookup_lt_is_Some_2 cs i Hi) as [ci Hci].
  destruct (desired_change <? 0).
  - set (next := if (S i =? length cs)%nat then pred i else S i).
    assert (next < length cs ∧ next ≠ i)%nat as [Hnext Hne].
    { subst next. destruct (Nat.eqb_spec (S i) (length cs)); lia. }
    destruct (lookup_lt_is_Some_2 cs next Hnext) as [cn Hcn].
    rewrite Hcn. cbn [mbind option_bind]. eexists. split; [done|].
    split.
    + destruct (S i =? length cs)%nat; rewrite total_alter_position;
        (erewrite (total_alter_dimension o desired_change _ i);
           [|rewrite list_lookup_alter_ne by done; exact Hci]);
        (erewrite (total_alter_dimension o (- desired_change) _ next); [|exact Hcn]);
        lia.
    + destruct (S i =? length cs)%nat;
        repeat (apply Forall2_alter_r; [|intros; first [by apply moved_add_dimension
                                                        |by apply moved_add_position]]);
        done.
  - destruct (borrow_successors_spec o i desired_change cs (length cs) (S i) 0 cs)
      as (a & cs1 & Hb1 & Ht1 & Hm1); [done|lia|done|lia|].
    rewrite Hb1. cbn [mbind option_bind].
    destruct (borrow_predecessors_spec o i desired_change cs i a cs1)
      as (a' & cs2 & Hb2 & Ht2 & Hm2); [done|lia| |].
    { by rewrite <- (Forall2_length Hm1). }
    rewrite Hb2. cbn [mbind option_bind]. eexists. split; [done|].
    split; [congruence|done].
Qed.

Section splitter_resize.

Variable float_below_min : Z → Z → Z → bool.
Variable float_share : Z → Z → Z → Z.

Local Abbreviation resize := (wm_splitter_resize_window float_below_min float_share).

Lemma resize_place_spec fuel : ∀ cs,
  Forall (λ c, (depth c < fuel)%nat) cs →
  ∃ cs', resize_place float_below_min float_share fuel cs = Some cs' ∧
         Forall2 replaced cs cs'.
Proof.
  induction cs as [|c cs IH]; intros Hd; [by exists []|].
  apply Forall_cons_1 in Hd as [Hc Hcs].
  destruct (IH Hcs) as (cs' & Hcs' & Hrep).
  cbn [resize_place]. unfold replaced at 1.
  destruct (in_place c) eqn:Hin.
  - cbn [mbind option_bind]. rewrite Hcs'. cbn [mbind option_bind].
    eexists. split; [done|]. constructor; [|done].
    unfold replaced. rewrite Hin. done.
  - unfold wm_splitter_place_window.
    edestruct (layout_event_spec float_below_min float_share fuel)
      as (c' & Hc' & Hf & _ & Hid & _); [|rewrite Hc'].
    { unfold set_cwindow. by rewrite depth_with_fields. }
    cbn [mbind option_bind]. rewrite Hcs'. cbn [mbind option_bind].
    eexists. split; [done|]. constructor; [|done].
    unfold replaced. rewrite Hin.
    unfold read_geometry, set_cwindow, window_id in *.
    rewrite !fields_with_fields in *. rewrite Hf. done.
Qed.

Lemma replaced_dimension o c1 c' :
  replaced c1 c' → get_dimension o c' = get_dimension o c1.
Proof. intros (_ & _ & _ & Hh & Hw & _). unfold get_dimension. by destruct o. Qed.

(** A child whose fields are the same before and after is untouched, with
    all that is nested in it. *)
Lemma moved_replaced_same c c1 c' :
  moved c c1 → replaced c1 c' → fields c' = fields c → c' = c.
Proof.
  intros Hm (Hid & Ht & Hl & Hh & Hw & Hp) Hf.
  pose proof (moved_keeps c c1 Hm) as (Hid1 & Hcw1 & _).
  assert (fields c1 = fields c) as Hf1.
  { destruct (fields c1) as [i1 cw1 t1 l1 h1 w1], (fields c) as [i0 cw0 t0 l0 h0 w0],
             (fields c') as [i' cw' t' l' h' w'].
    simpl in *. congruence. }
  pose proof (moved_same_fields c c1 Hm Hf1) as ->.
  destruct (in_place c) eqn:Hin; [done|]. exfalso.
  unfold in_place in Hin. rewrite <- Hf in Hin. rewrite Hp in Hin. simpl in Hin.
  rewrite Hf in Hin. rewrite !Z.eqb_refl in Hin. done.
Qed.


End splitter_resize.

Lemma layout_event_pane float_below_min float_share fuel f h v :
  wm_window_layout_event float_below_min float_share (S fuel) (Pane f h v)
  = Some (read_geometry (Pane f h v)).
Proof. reflexivity. Qed.



(* ================================================================== *)
(** * Part III: further properties of the code *)

(** ** Scrolling up and down *)

Lemma at_rc_self scr : at_rc scr (current_r scr) (current_c scr) = scr.
Proof. by destruct scr. Qed.

Lemma sanity_check_multiple scr k :
  1 ≤ win_width scr → current_c scr = k * win_width scr → sanity_check scr = Some scr.
Proof.
  intros HW Hc. unfold sanity_check, c_mod. destruct (0 <? current_c scr); [|done].
  destruct (Z.eqb_spec (win_width scr) 0); [lia|]. cbn [mbind option_bind].
  rewrite Hc, Z.rem_mul by lia. done.
Qed.

Lemma scr_up_tick scr r k :
  1 ≤ win_width scr → 0 ≤ k →
  scr_up (at_rc scr r (k * win_width scr)) 1
  = if 0 <? k then Some (at_rc scr r ((k - 1) * win_width scr))
    else if 0 <? r then
           line ← at_index (buffer scr) (r - 1);
           Some (at_rc scr (r - 1)
                   (if win_width scr <? strlen line
                    then Z.quot (strlen line - 1) (win_width scr) * win_width scr
                    else 0))
         else Some (at_rc scr r (k * win_width scr)).
Proof.
  intros HW Hk. unfold scr_up.
  rewrite (sanity_check_multiple _ k) by done.
  cbn [mbind option_bind]. change (Z.to_nat 1) with 1%nat.
  cbn [scr_up_loop at_rc set_current_c set_current_r current_c current_r buffer
       win_width win_height current_pos].
  destruct (Z.ltb_spec 0 k) as [Hpos|Hzero].
  - destruct (Z.ltb_spec 0 (k * win_width scr)); [|nia].
    do 2 f_equal. lia.
  - assert (k = 0) as -> by lia. cbn [Z.mul Z.ltb Z.compare].
    destruct (0 <? r); [|done].
    destruct (at_index (buffer scr) (r - 1)) as [line|]; [|done].
    cbn [mbind option_bind]. unfold c_div.
    destruct (Z.ltb_spec (win_width scr) (strlen line)); [|done].
    destruct (Z.eqb_spec (win_width scr) 0); [lia|]. done.
Qed.

Lemma same_text_refl a : same_text a a.
Proof. by repeat split. Qed.

Lemma same_text_trans a b c : same_text a b → same_text b c → same_text a c.
Proof. unfold same_text. intros (?&?&?&?) (?&?&?&?). repeat split; congruence. Qed.

Lemma scr_down_loop_keeps n : ∀ scr,
  viewport_ok scr →
  ∃ scr', scr_down_loop n scr = Some scr' ∧ viewport_ok scr' ∧ same_text scr scr' ∧
          current_r scr ≤ current_r scr'.
Proof.
  induction n as [|n IH]; intros scr Hok.
  { exists scr. split; [done|]. split; [done|]. split; [apply same_text_refl|lia]. }
  pose proof Hok as (HW & line & k & Hline & Hk & Hc & Hb).
  cbn [scr_down_loop]. rewrite Hline. cbn [mbind option_bind].
  pose proof Hline as Hline'. apply at_index_Some in Hline' as [Hr Hlook].
  destruct (Z.ltb_spec (current_c scr) (strlen line - win_width scr)) as [Hlt|Hge].
  - destruct (IH (set_current_c scr (current_c scr + win_width scr)))
      as (scr' & Hloop & Hok' & Hsame & Hrow).
    { split; [done|]. exists line, (k + 1). cbn [set_current_c buffer current_r current_c
                                                  win_width].
      split; [done|]. split; [lia|]. split; [lia|]. right. lia. }
    exists scr'. split; [done|]. split; [done|]. split; [|done].
    eapply same_text_trans; [|exact Hsame]. by repeat split.
  - destruct (Z.ltb_spec (current_r scr) (scr_length scr - 1)) as [Hrow|Hlast].
    + destruct (lookup_lt_is_Some_2 (buffer scr) (Z.to_nat (current_r scr + 1)))
        as [next Hnext]; [unfold scr_length in Hrow; lia|].
      destruct (IH (set_current_c (set_current_r scr (current_r scr + 1)) 0))
        as (scr' & Hloop & Hok' & Hsame & Hrow').
      { split; [done|]. exists next, 0.
        cbn [set_current_c set_current_r buffer current_r current_c win_width].
        split; [apply at_index_Some; split; [lia|done]|]. split; [lia|]. split; [lia|].
        by left. }
      exists scr'. split; [done|]. split; [done|]. split.
      * eapply same_text_trans; [|exact Hsame]. by repeat split.
      * cbn [set_current_c set_current_r current_r] in Hrow'. lia.
    + exists scr. split; [done|]. split; [done|]. split; [apply same_text_refl|lia].
Qed.

(** X1.  From a viewport that rests on a row of the buffer at a multiple of
    the window width within that line, [scr_down] returns for every
    number of lines; it leaves the buffer, the caret and the window as
    they were, never moves the row back, and leaves the viewport on a row
    of the buffer at a multiple of the width within its line. *)
Theorem scr_down_keeps_viewport (scr : scroller) (nlines : Z) :
  viewport_ok scr →
  ∃ scr', scr_down scr nlines = Some scr' ∧ viewport_ok scr' ∧ same_text scr scr' ∧
          current_r scr ≤ current_r scr'.
Proof.
  intros Hok. pose proof Hok as (HW & line & k & Hline & Hk & Hc & Hb).
  unfold scr_down. rewrite (sanity_check_multiple scr k) by done.
  cbn [mbind option_bind]. by apply scr_down_loop_keeps.
Qed.

(** Scrolling down three rows from the top of a buffer of two lines. *)
Lemma scr_down_keeps_viewport_witness :
  ∃ scr', scr_down (mk_scroller [[97; 98; 99]; [100]] 0 0 1 4 2) 3 = Some scr' ∧
          viewport_ok scr' ∧
          same_text (mk_scroller [[97; 98; 99]; [100]] 0 0 1 4 2) scr' ∧
          current_r (mk_scroller [[97; 98; 99]; [100]] 0 0 1 4 2) ≤ current_r scr'.
Proof.
  apply (scr_down_keeps_viewport (mk_scroller [[97; 98; 99]; [100]] 0 0 1 4 2) 3).
  split; [simpl; lia|]. exists [97; 98; 99], 0.
  split; [reflexivity|]. split; [lia|]. split; [reflexivity|]. left. reflexivity.
Defined.

Lemma scr_up_loop_keeps n : ∀ scr,
  viewport_ok scr →
  ∃ scr', scr_up_loop n scr = Some scr' ∧ viewport_ok scr' ∧ same_text scr scr' ∧
          current_r scr' ≤ current_r scr.
Proof.
  induction n as [|n IH]; intros scr Hok.
  { exists scr. split; [done|]. split; [done|]. split; [apply same_text_refl|lia]. }
  pose proof Hok as (HW & line & k & Hline & Hk & Hc & Hb).
  cbn [scr_up_loop].
  pose proof Hline as Hline'. apply at_index_Some in Hline' as [Hr Hlook].
  destruct (Z.ltb_spec 0 (current_c scr)) as [Hpos|Hzero].
  - destruct (IH (set_current_c scr (current_c scr - win_width scr)))
      as (scr' & Hloop & Hok' & Hsame & Hrow).
    { split; [done|]. exists line, (k - 1).
      cbn [set_current_c buffer current_r current_c win_width].
      split; [done|]. split; [nia|]. split; [lia|]. right. lia. }
    exists scr'. split; [done|]. split; [done|]. split; [|done].
    eapply same_text_trans; [|exact Hsame]. by repeat split.
  - destruct (Z.ltb_spec 0 (current_r scr)) as [Hrow|Htop].
    + cbn [set_current_r buffer current_r win_width].
      destruct (lookup_lt_is_Some_2 (buffer scr) (Z.to_nat (current_r scr - 1)))
        as [above Habove]; [apply lookup_lt_Some in Hlook; lia|].
      assert (at_index (buffer scr) (current_r scr - 1) = Some above) as Hat
          by (apply at_index_Some; split; [lia|done]).
      rewrite Hat. cbn [mbind option_bind]. unfold c_div.
      destruct (Z.ltb_spec (win_width scr) (strlen above)) as [Hwide|Hfits].
      * destruct (Z.eqb_spec (win_width scr) 0); [lia|]. cbn [mbind option_bind].
        pose proof (Z.quot_rem' (strlen above - 1) (win_width scr)) as Hqr.
        pose proof (Z.rem_bound_pos (strlen above - 1) (win_width scr)
                      ltac:(lia) ltac:(lia)) as Hrem.
        pose proof (Z.quot_pos (strlen above - 1) (win_width scr) ltac:(lia) ltac:(lia)).
        destruct (IH (set_current_c (set_current_r scr (current_r scr - 1))
                        (Z.quot (strlen above - 1) (win_width scr) * win_width scr)))
          as (scr' & Hloop & Hok' & Hsame & Hrow').
        { split; [done|]. exists above, (Z.quot (strlen above - 1) (win_width scr)).
          cbn [set_current_c set_current_r buffer current_r current_c win_width].
          split; [done|]. split; [done|]. split; [done|]. right. lia. }
        exists scr'. split; [done|]. split; [done|]. split.
        -- eapply same_text_trans; [|exact Hsame]. by repeat split.
        -- cbn [set_current_c set_current_r current_r] in Hrow'. lia.
      * destruct (IH (set_current_r scr (current_r scr - 1)))
          as (scr' & Hloop & Hok' & Hsame & Hrow').
        { split; [done|]. exists above, 0.
          cbn [set_current_r buffer current_r current_c win_width].
          split; [done|]. split; [lia|]. split; [lia|]. left. lia. }
        exists scr'. split; [done|]. split; [done|]. split.
        -- eapply same_text_trans; [|exact Hsame]. by repeat split.
        -- cbn [set_current_r current_r] in Hrow'. lia.
    + exists scr. split; [done|]. split; [done|]. split; [apply same_text_refl|lia].
Qed.

(** X2.  From a viewport that rests on a row of the buffer at a multiple of
    the window width within that line, [scr_up] returns for every number
    of lines; it leaves the buffer, the caret and the window as they were,
    never moves the row forward, and leaves the viewport on a row of the
    buffer at a multiple of the width within its line. *)
Theorem scr_up_keeps_viewport (scr : scroller) (nlines : Z) :
  viewport_ok scr →
  ∃ scr', scr_up scr nlines = Some scr' ∧ viewport_ok scr' ∧ same_text scr scr' ∧
          current_r scr' ≤ current_r scr.
Proof.
  intros Hok. pose proof Hok as (HW & line & k & Hline & Hk & Hc & Hb).
  unfold scr_up. rewrite (sanity_check_multiple scr k) by done.
  cbn [mbind option_bind]. by apply scr_up_loop_keeps.
Qed.

(** Scrolling up three rows from the second line of a buffer of two. *)
Lemma scr_up_keeps_viewport_witness :
  ∃ scr', scr_up (mk_scroller [[97; 98; 99]; [100]] 1 0 1 4 2) 3 = Some scr' ∧
          viewport_ok scr' ∧
          same_text (mk_scroller [[97; 98; 99]; [100]] 1 0 1 4 2) scr' ∧
          current_r scr' ≤ current_r (mk_scroller [[97; 98; 99]; [100]] 1 0 1 4 2).
Proof.
  apply (scr_up_keeps_viewport (mk_scroller [[97; 98; 99]; [100]] 1 0 1 4 2) 3).
  split; [simpl; lia|]. exists [100], 0.
  split; [reflexivity|]. split; [lia|]. split; [reflexivity|]. left. reflexivity.
Defined.

Lemma viewport_at scr :
  viewport_ok scr →
  ∃ line k, 1 ≤ win_width scr ∧ 0 ≤ k ∧ 0 ≤ current_r scr ∧
            buffer scr !! Z.to_nat (current_r scr) = Some line ∧
            current_c scr = k * win_width scr ∧
            (k = 0 ∨ k * win_width scr < strlen line) ∧
            scr = at_rc scr (current_r scr) (k * win_width scr).
Proof.
  intros (HW & line & k & Hline & Hk & Hc & Hb).
  apply at_index_Some in Hline as [Hr Hline].
  exists line, k. repeat split; try done.
  - destruct Hb as [Hb|Hb]; [left; nia|right; lia].
  - rewrite <- Hc. by rewrite at_rc_self.
Qed.

(** X3.  One row down and one row up again gives the scroller back:
    whenever [scr_down(scr, 1)] moves a well-placed viewport,
    [scr_up(scr, 1)] takes it back to where it was. *)
Theorem scr_up_undoes_scr_down (scr scr' : scroller) :
  viewport_ok scr → scr_down scr 1 = Some scr' → scr' ≠ scr →
  scr_up scr' 1 = Some scr.
Proof.
  intros Hok Hdown Hmoved.
  destruct (viewport_at scr Hok) as (line & k & HW & Hk & Hr & Hline & Hc & Hb & Hscr).
  rewrite Hscr in Hdown. rewrite (scr_down_tick scr _ k line) in Hdown by done.
  injection Hdown as <-.
  destruct (Z.ltb_spec (k * win_width scr) (strlen line - win_width scr)) as [Hlt|Hge].
  - rewrite (scr_up_tick scr _ (k + 1)) by (done || lia).
    destruct (Z.ltb_spec 0 (k + 1)); [|lia].
    replace (k + 1 - 1) with k by lia. by rewrite <- Hscr.
  - destruct (Z.ltb_spec (current_r scr) (scr_length scr - 1)) as [Hrow|Hlast];
      [|by rewrite <- Hscr in Hmoved].
    replace 0 with (0 * win_width scr) by lia.
    rewrite (scr_up_tick scr _ 0) by (done || lia).
    cbn [Z.ltb Z.compare]. destruct (Z.ltb_spec 0 (current_r scr + 1)); [|lia].
    replace (current_r scr + 1 - 1) with (current_r scr) by lia.
    assert (at_index (buffer scr) (current_r scr) = Some line) as ->
        by (apply at_index_Some; done).
    cbn [mbind option_bind].
    transitivity (Some (at_rc scr (current_r scr) (k * win_width scr)));
      [|by rewrite <- Hscr].
    do 2 f_equal.
    destruct (Z.ltb_spec (win_width scr) (strlen line)) as [Hwide|Hfits].
    + rewrite <- (Z.quot_unique (strlen line - 1) (win_width scr) k
                    (strlen line - 1 - k * win_width scr)); [done|unfold strlen in *; lia..].
    + destruct (decide (k = 0)) as [->|Hne]; [lia|].
      assert (win_width scr ≤ k * win_width scr) by nia. lia.
Qed.

(** One row down from the top of a line three cells long in a window two
    cells wide, and up again. *)
Lemma scr_up_undoes_scr_down_witness :
  scr_down (mk_scroller [[97; 98; 99]; [100]] 0 0 1 4 2) 1
  = Some (mk_scroller [[97; 98; 99]; [100]] 0 2 1 4 2) ∧
  scr_up (mk_scroller [[97; 98; 99]; [100]] 0 2 1 4 2) 1
  = Some (mk_scroller [[97; 98; 99]; [100]] 0 0 1 4 2).
Proof.
  split; [reflexivity|].
  apply (scr_up_undoes_scr_down (mk_scroller [[97; 98; 99]; [100]] 0 0 1 4 2)).
  - split; [simpl; lia|]. exists [97; 98; 99], 0.
    split; [reflexivity|]. split; [lia|]. split; [reflexivity|]. left. reflexivity.
  - reflexivity.
  - discriminate.
Defined.

(** X4.  One row up and one row down again gives the scroller back:
    whenever [scr_up(scr, 1)] moves a well-placed viewport,
    [scr_down(scr, 1)] takes it back to where it was. *)
Theorem scr_down_undoes_scr_up (scr scr' : scroller) :
  viewport_ok scr → scr_up scr 1 = Some scr' → scr' ≠ scr →
  scr_down scr' 1 = Some scr.
Proof.
  intros Hok Hup Hmoved.
  destruct (viewport_at scr Hok) as (line & k & HW & Hk & Hr & Hline & Hc & Hb & Hscr).
  rewrite Hscr in Hup. rewrite (scr_up_tick scr _ k) in Hup by done.
  destruct (Z.ltb_spec 0 k) as [Hpos|Hzero].
  - injection Hup as <-.
    rewrite (scr_down_tick scr _ (k - 1) line) by (done || lia).
    destruct (Z.ltb_spec ((k - 1) * win_width scr) (strlen line - win_width scr)); [|lia].
    replace (k - 1 + 1) with k by lia. by rewrite <- Hscr.
  - assert (k = 0) as -> by lia.
    destruct (Z.ltb_spec 0 (current_r scr)) as [Hrow|Htop].
    2: { injection Hup as <-. by rewrite <- Hscr in Hmoved. }
    apply bind_Some in Hup as (above & Habove & Hup). injection Hup as <-.
    apply at_index_Some in Habove as [_ Habove].
    pose proof (lookup_lt_Some _ _ _ Hline) as Hlen.
    set (q := if win_width scr <? strlen above
              then Z.quot (strlen above - 1) (win_width scr) else 0).
    assert (0 ≤ q ∧ strlen above - win_width scr ≤ q * win_width scr) as [Hq Hend].
    { subst q. destruct (Z.ltb_spec (win_width scr) (strlen above)); [|lia].
      pose proof (Z.quot_rem' (strlen above - 1) (win_width scr)) as Hqr.
      pose proof (Z.rem_bound_pos (strlen above - 1) (win_width scr)
                    ltac:(lia) ltac:(lia)) as Hrem.
      pose proof (Z.quot_pos (strlen above - 1) (win_width scr) ltac:(lia) ltac:(lia)).
      lia. }
    replace (if win_width scr <? strlen above
             then Z.quot (strlen above - 1) (win_width scr) * win_width scr else 0)
      with (q * win_width scr) by (subst q; destruct (_ <? _); lia).
    rewrite (scr_down_tick scr _ q above) by (done || lia).
    destruct (Z.ltb_spec (q * win_width scr) (strlen above - win_width scr)); [lia|].
    unfold scr_length.
    destruct (Z.ltb_spec (current_r scr - 1) (Z.of_nat (length (buffer scr)) - 1)); [|lia].
    replace (current_r scr - 1 + 1) with (current_r scr) by lia.
    transitivity (Some (at_rc scr (current_r scr) (0 * win_width scr)));
      [done|by rewrite <- Hscr].
Qed.

(** One row up from the second line of a buffer, and down again. *)
Lemma scr_down_undoes_scr_up_witness :
  scr_up (mk_scroller [[97; 98; 99]; [100]] 1 0 1 4 2) 1
  = Some (mk_scroller [[97; 98; 99]; [100]] 0 2 1 4 2) ∧
  scr_down (mk_scroller [[97; 98; 99]; [100]] 0 2 1 4 2) 1
  = Some (mk_scroller [[97; 98; 99]; [100]] 1 0 1 4 2).
Proof.
  split; [reflexivity|].
  apply (scr_down_undoes_scr_up (mk_scroller [[97; 98; 99]; [100]] 1 0 1 4 2)).
  - split; [simpl; lia|]. exists [100], 0.
    split; [reflexivity|]. split; [lia|]. split; [reflexivity|]. left. reflexivity.
  - reflexivity.
  - discriminate.
Defined.

Lemma scr_up_loop_from_col scr r home (k : nat) : ∀ n0,
  1 ≤ win_width scr →
  (∀ n, (n0 ≤ n)%nat → scr_up_loop n (at_rc scr r 0) = Some home) →
  ∀ n, (n0 + k ≤ n)%nat →
       scr_up_loop n (at_rc scr r (Z.of_nat k * win_width scr)) = Some home.
Proof.
  induction k as [|k IH]; intros n0 HW Hcol n Hn.
  { apply Hcol. lia. }
  destruct n as [|n]; [lia|]. cbn [scr_up_loop at_rc set_current_c set_current_r current_c
                                   current_r win_width].
  destruct (Z.ltb_spec 0 (Z.of_nat (S k) * win_width scr)); [|nia].
  replace (Z.of_nat (S k) * win_width scr - win_width scr)
    with (Z.of_nat k * win_width scr) by lia.
  apply (IH n0); [done|done|lia].
Qed.

Lemma scr_up_loop_from_row scr (r : nat) :
  1 ≤ win_width scr → (r < length (buffer scr))%nat →
  ∃ n0, ∀ n, (n0 ≤ n)%nat →
             scr_up_loop n (at_rc scr (Z.of_nat r) 0) = Some (scr_home scr).
Proof.
  intros HW. induction r as [|r IH]; intros Hr.
  { exists O. intros [|n] _; reflexivity. }
  destruct IH as [n0 Hn0]; [lia|].
  destruct (lookup_lt_is_Some_2 (buffer scr) r) as [above Habove]; [lia|].
  set (q := if win_width scr <? strlen above
            then Z.quot (strlen above - 1) (win_width scr) else 0).
  assert (0 ≤ q) as Hq.
  { subst q. destruct (Z.ltb_spec (win_width scr) (strlen above)); [|lia].
    apply Z.quot_pos; lia. }
  exists (S (n0 + Z.to_nat q)). intros [|n] Hn; [lia|].
  cbn [scr_up_loop at_rc set_current_c set_current_r current_c current_r win_width buffer].
  cbn [Z.ltb Z.compare]. destruct (Z.ltb_spec 0 (Z.of_nat (S r))); [|lia].
  replace (Z.of_nat (S r) - 1) with (Z.of_nat r) by lia.
  assert (at_index (buffer scr) (Z.of_nat r) = Some above) as ->
      by (apply at_index_Some; rewrite Nat2Z.id; split; [lia|done]).
  cbn [mbind option_bind]. unfold c_div.
  pose proof (scr_up_loop_from_col scr (Z.of_nat r) (scr_home scr) (Z.to_nat q) n0 HW Hn0 n
                ltac:(lia)) as Hcol.
  rewrite Z2Nat.id in Hcol by done. subst q.
  destruct (Z.ltb_spec (win_width scr) (strlen above)).
  - destruct (Z.eqb_spec (win_width scr) 0); [lia|]. exact Hcol.
  - exact Hcol.
Qed.

(** X5.  Scrolling up far enough ends at home: from every well-placed
    viewport there is a number of rows from which on [scr_up] gives
    exactly what [scr_home] gives. *)
Theorem scr_up_reaches_home (scr : scroller) :
  viewport_ok scr →
  ∃ n0, ∀ nlines, n0 ≤ nlines → scr_up scr nlines = Some (scr_home scr).
Proof.
  intros Hok.
  destruct (viewport_at scr Hok) as (line & k & HW & Hk & Hr & Hline & Hc & Hb & Hscr).
  destruct (scr_up_loop_from_row scr (Z.to_nat (current_r scr)) HW) as [n0 Hn0].
  { by apply lookup_lt_Some in Hline. }
  rewrite Z2Nat.id in Hn0 by done.
  exists (Z.of_nat (n0 + Z.to_nat k)). intros nlines Hn.
  unfold scr_up. rewrite (sanity_check_multiple scr k) by done.
  cbn [mbind option_bind]. rewrite Hscr at 1.
  pose proof (scr_up_loop_from_col scr (current_r scr) (scr_home scr) (Z.to_nat k) n0 HW Hn0
                (Z.to_nat nlines) ltac:(lia)) as Hcol.
  by rewrite Z2Nat.id in Hcol by done.
Qed.

(** From the end of a buffer of two lines, four rows up are enough. *)
Lemma scr_up_reaches_home_witness :
  ∃ n0, ∀ nlines, n0 ≤ nlines →
    scr_up (mk_scroller [[97; 98; 99]; [100; 101; 102]] 1 2 1 4 2) nlines
    = Some (mk_scroller [[97; 98; 99]; [100; 101; 102]] 0 0 1 4 2).
Proof.
  apply (scr_up_reaches_home (mk_scroller [[97; 98; 99]; [100; 101; 102]] 1 2 1 4 2)).
  split; [simpl; lia|]. exists [100; 101; 102], 1.
  split; [reflexivity|]. split; [lia|]. split; [reflexivity|]. right.
  unfold strlen. simpl. lia.
Defined.

(** ** Adding text *)

Lemma poke_filled rv i x rv' :
  0 ≤ i → x ≠ 0 → poke rv i x = Some rv' → filled rv i → filled rv' (i + 1).
Proof.
  intros Hi Hx Hp Hf. unfold poke in Hp.
  destruct (_ && _); [|done]. injection Hp as <-.
  intros k c Hk Hc. destruct (decide (k = Z.to_nat i)) as [->|Hne].
  - apply list_lookup_insert_Some in Hc as [(_ & <- & _)|[? _]]; done.
  - rewrite list_lookup_insert_ne in Hc by done. apply (Hf k); [lia|done].
Qed.

Lemma tab_fill_filled fuel : ∀ rv i rv' i',
  0 ≤ i → tab_fill fuel rv i = Some (rv', i') → filled rv i → filled rv' i' ∧ 0 ≤ i'.
Proof.
  induction fuel as [|fuel IH]; intros rv i rv' i' Hi H Hf; [done|].
  cbn [tab_fill] in H. apply bind_Some in H as (rv1 & Hp & H).
  pose proof (poke_filled rv i 32 rv1 Hi ltac:(done) Hp Hf) as Hf1.
  destruct (_ =? 0).
  - injection H as <- <-. split; [done|lia].
  - apply (IH rv1 (i + 1)); [lia|done|done].
Qed.

Lemma parse_char_filled rv i ch rv' i' :
  0 ≤ i → parse_char rv i ch = Some (rv', i') → filled rv i → filled rv' i' ∧ 0 ≤ i'.
Proof.
  intros Hi H Hf. unfold parse_char in H.
  destruct ((ch =? 8) || (ch =? 127)).
  { injection H as <- <-. destruct (Z.ltb_spec 0 i); (split; [|lia]); [|done].
    intros k c Hk. apply Hf. lia. }
  destruct (ch =? 9); [by eapply tab_fill_filled|].
  destruct (ch =? 13).
  { injection H as <- <-. split; [|lia]. intros k c Hk. simpl in Hk. lia. }
  destruct (isprint ch) eqn:Hp; [|by injection H as <- <-].
  apply bind_Some in H as (rv1 & Hpoke & H). injection H as <- <-.
  split; [|lia]. apply (poke_filled rv i ch); try done.
  unfold isprint in Hp. apply andb_true_iff in Hp as [Hp _]. apply Z.leb_le in Hp. lia.
Qed.

Lemma parse_loop_filled : ∀ buf rv i rv' i',
  0 ≤ i → parse_loop buf rv i = Some (rv', i') → filled rv i → filled rv' i' ∧ 0 ≤ i'.
Proof.
  induction buf as [|ch buf IH]; intros rv i rv' i' Hi H Hf; cbn [parse_loop] in H.
  { by injection H as <- <-. }
  apply bind_Some in H as ([rv1 i1] & Hch & H).
  destruct (parse_char_filled rv i ch rv1 i1 Hi Hch Hf) as [Hf1 Hi1].
  by apply (IH rv1 i1).
Qed.

(** [parse] returns whenever the caret lies within the line, and leaves
    the caret within the line it returns. *)
Lemma parse_returns scr orig buf :
  c_string orig → 0 ≤ current_pos scr ≤ strlen orig →
  ∃ i line, parse scr orig buf = Some (set_current_pos scr i, line) ∧
            c_string line ∧ 0 ≤ i ≤ strlen line.
Proof.
  intros Horig Hpos.
  destruct (parse_interpret_defined (current_pos scr) orig buf Hpos)
    as (rv & i & len & Hint & Hi & Hlen).
  assert (filled rv i) as Hfilled.
  { unfold parse_interpret in Hint.
    apply (parse_loop_filled buf (parse_alloc orig buf) (current_pos scr)); [lia|done|].
    intros k c Hk Hc. unfold parse_alloc in Hc. cbv zeta in Hc.
    rewrite lookup_app_l in Hc by (unfold strlen in Hpos; lia).
    by eapply (Forall_lookup_1 _ _ _ _ Horig). }
  unfold parse. rewrite Hint. cbn [mbind option_bind]. rewrite Hlen.
  cbn [mbind option_bind].
  pose proof Hlen as Hlen'. apply strlen_arr_Some in Hlen' as (Hlen0 & Hz & Hnz).
  pose proof (lookup_lt_Some _ _ _ Hz) as Hlt.
  assert (i ≤ len) as Hile.
  { destruct (Z.le_gt_cases i len) as [|Hgt]; [done|]. exfalso.
    apply (Hfilled (Z.to_nat len) 0); [lia|done|done]. }
  destruct (trim_scan_spec (S (Z.to_nat len)) rv i (len - 1))
    as (j & Hj & Hb & Hall & Hend); try lia.
  rewrite Hj. cbn [mbind option_bind].
  rewrite poke_Some by lia. cbn [mbind option_bind].
  assert (strlen_arr (<[Z.to_nat (j + 1) := 0]> rv) = Some (j + 1)) as ->.
  { apply strlen_arr_Some. split; [lia|]. split.
    - apply list_lookup_insert_eq. lia.
    - intros k c Hk. rewrite list_lookup_insert_ne by lia. apply Hnz. lia. }
  cbn [mbind option_bind]. rewrite take_insert_ge by lia.
  eexists _, _. split; [done|]. split.
  - apply Forall_lookup. intros k c Hk. apply lookup_take_Some in Hk as [Hk Hkj].
    apply (Hnz k); [lia|done].
  - unfold strlen. rewrite length_take_le by lia.
    destruct (decide (j = len - 1)) as [->|Hne]; [lia|].
    destruct (Hall (j + 1)) as [Hij _]; lia.
Qed.

Lemma count_cons x s ch : count (x :: s) ch = (if x =? ch then 1 else 0) + count s ch.
Proof. reflexivity. Qed.

Lemma list_find_count ch : ∀ s,
  match list_find (λ x, x = ch) s with
  | Some (i, _) => s !! i = Some ch ∧ count s ch = count (drop i s) ch
  | None => count s ch = 0
  end.
Proof.
  induction s as [|x s IH]; [done|]. cbn [list_find]. rewrite count_cons.
  destruct (decide (x = ch)) as [->|Hne]; [done|].
  destruct (Z.eqb_spec x ch); [done|].
  destruct (list_find _ s) as [[i y]|]; simpl; [|lia].
  destruct IH as [Hi Hc]. split; [done|lia].
Qed.

Lemma strchr_count s p ch :
  match strchr s p ch with
  | Some q => (p ≤ q)%nat ∧ s !! q = Some ch ∧ count (drop p s) ch = count (drop q s) ch
  | None => count (drop p s) ch = 0
  end.
Proof.
  unfold strchr. pose proof (list_find_count ch (drop p s)) as H.
  destruct (list_find _ (drop p s)) as [[i y]|]; simpl; [|done].
  destruct H as [Hi Hc]. rewrite lookup_drop in Hi. rewrite drop_drop in Hc.
  split; [lia|]. done.
Qed.

Lemma count_drop_S s q ch :
  s !! q = Some ch → count (drop q s) ch = 1 + count (drop (S q) s) ch.
Proof.
  intros Hq. rewrite (drop_S _ _ _ Hq), count_cons. by rewrite Z.eqb_refl.
Qed.

Lemma caret_within_snoc scr i line :
  c_string line → 0 ≤ i ≤ strlen line →
  caret_within (set_buffer (set_current_pos scr i) (buffer scr ++ [line])).
Proof.
  intros Hline Hi. exists line. split; [|done].
  apply at_index_Some. unfold scr_length. cbn [set_buffer buffer].
  rewrite length_app. simpl. split; [lia|].
  rewrite lookup_app_r by lia. replace (_ - _)%nat with O by lia. done.
Qed.

(** The loop of [scr_add] over the new lines: it returns, adds one line
    for each new line character from [x] on, and leaves the caret within
    the last of them. *)
Lemma scr_add_lines_spec text : ∀ fuel scr x,
  match x with
  | Some q => text !! q = Some 10 ∧ (length text < fuel + q)%nat
  | None => (0 < fuel)%nat
  end →
  ∃ scr' new,
    scr_add_lines fuel scr text x = Some scr' ∧
    buffer scr' = buffer scr ++ new ∧
    Z.of_nat (length new) = match x with
                            | Some q => count (drop q text) 10
                            | None => 0
                            end ∧
    match x with Some _ => caret_within scr' | None => scr' = scr end ∧
    current_r scr' = current_r scr ∧ current_c scr' = current_c scr ∧
    win_height scr' = win_height scr ∧ win_width scr' = win_width scr.
Proof.
  induction fuel as [|fuel IH]; intros scr x Hx.
  { destruct x as [q|]; [|lia]. destruct Hx as [Hq Hfuel].
    apply lookup_lt_Some in Hq. lia. }
  destruct x as [q|]; cbn [scr_add_lines].
  2: { exists scr, []. rewrite app_nil_r. by repeat split. }
  destruct Hx as [Hq Hfuel].
  pose proof (lookup_lt_Some _ _ _ Hq) as Hlt.
  destruct (parse_returns (set_current_pos scr 0) []
              (take (distance_to text (S q) (strchr text (S q) 10)) (drop (S q) text)))
    as (i & line & Hparse & Hline & Hi); [constructor|simpl; unfold strlen; simpl; lia|].
  rewrite Hparse. cbn [mbind option_bind].
  pose proof (strchr_count text (S q) 10) as Hnext.
  rewrite (count_drop_S _ _ _ Hq).
  destruct (IH (set_buffer (set_current_pos (set_current_pos scr 0) i)
                  (buffer (set_current_pos (set_current_pos scr 0) i) ++ [line]))
               (strchr text (S q) 10))
    as (scr' & new & Hloop & Hbuf & Hlen & Hcaret & Hr & Hc & Hh & Hw).
  { destruct (strchr text (S q) 10) as [q'|]; [|lia].
    destruct Hnext as (Hle & Hq' & _). split; [done|lia]. }
  exists scr', (line :: new). split; [done|].
  cbn [set_buffer set_current_pos buffer current_r current_c win_height win_width] in *.
  split; [by rewrite Hbuf, <- app_assoc|]. split.
  { cbn [length]. destruct (strchr text (S q) 10) as [q'|].
    - destruct Hnext as (_ & _ & ->). lia.
    - rewrite Hnext. lia. }
  split; [|done].
  destruct (strchr text (S q) 10) as [q'|]; [done|]. subst scr'.
  by apply (caret_within_snoc (set_current_pos scr 0)).
Qed.

(** What [scr_add] does before it scrolls to the end. *)
Lemma scr_add_spec scr buf :
  win_width scr ≠ 0 → caret_within scr →
  ∃ scr2 line new,
    scr_add scr buf = scr_end scr2 ∧
    buffer scr2 = take (pred (length (buffer scr))) (buffer scr) ++ line :: new ∧
    Z.of_nat (length new) = count buf 10 ∧ caret_within scr2 ∧
    win_height scr2 = win_height scr ∧ win_width scr2 = win_width scr.
Proof.
  intros HW (last & Hlast & Hcs & Hpos). unfold scr_add. rewrite Hlast.
  cbn [mbind option_bind].
  pose proof Hlast as Hlast'. apply at_index_Some in Hlast' as [Hn Hlook].
  pose proof (lookup_lt_Some _ _ _ Hlook) as Hlt. unfold scr_length in *.
  assert (∃ scr1 line,
            (if (0 <? distance_to buf 0 (strchr buf 0 10))%nat
             then '(scr1, line) ← parse scr last (take (distance_to buf 0 (strchr buf 0 10)) buf);
                  Some (set_buffer scr1
                          (<[Z.to_nat (Z.of_nat (length (buffer scr1)) - 1) := line]>
                             (buffer scr1)))
             else Some scr) = Some scr1 ∧
            buffer scr1 = take (pred (length (buffer scr))) (buffer scr) ++ [line] ∧
            caret_within scr1 ∧ win_height scr1 = win_height scr ∧
            win_width scr1 = win_width scr)
    as (scr1 & line & -> & Hbuf1 & Hcaret1 & Hh1 & Hw1).
  { assert (∀ l, <[Z.to_nat (Z.of_nat (length (buffer scr)) - 1) := l]> (buffer scr)
                 = take (pred (length (buffer scr))) (buffer scr) ++ [l]) as Hins.
    { intros l. replace (Z.to_nat (Z.of_nat (length (buffer scr)) - 1))
        with (pred (length (buffer scr))) by lia.
      rewrite insert_take_drop by lia.
      replace (S (pred (length (buffer scr)))) with (length (buffer scr)) by lia.
      by rewrite drop_all. }
    destruct (0 <? _)%nat.
    - destruct (parse_returns scr last
                  (take (distance_to buf 0 (strchr buf 0 10)) buf) Hcs Hpos)
        as (i & line & -> & Hline & Hi).
      cbn [mbind option_bind set_current_pos buffer].
      eexists _, line. split; [done|]. cbn [set_buffer buffer win_height win_width].
      split; [apply Hins|]. split; [|done].
      exists line. unfold scr_length. cbn [set_buffer buffer current_pos].
      split; [|done]. rewrite Hins. apply at_index_Some.
      rewrite length_app, length_take. simpl. split; [lia|].
      rewrite lookup_app_r by (rewrite length_take; lia).
      rewrite length_take. replace (_ - _)%nat with O by lia. done.
    - exists scr, last. split; [done|]. split; [|split; [by exists last|done]].
      rewrite <- Hins. symmetry. by apply list_insert_id. }
  cbn [mbind option_bind].
  pose proof (strchr_count buf 0 10) as Hx. rewrite drop_0 in Hx.
  destruct (scr_add_lines_spec buf (S (length buf)) scr1 (strchr buf 0 10))
    as (scr2 & new & -> & Hbuf2 & Hlen & Hcaret2 & _ & _ & Hh2 & Hw2).
  { destruct (strchr buf 0 10) as [q|]; [|lia]. destruct Hx as (_ & Hq & _).
    split; [done|lia]. }
  cbn [mbind option_bind].
  exists scr2, line, new. split; [done|].
  split; [by rewrite Hbuf2, Hbuf1, <- app_assoc|]. split.
  { destruct (strchr buf 0 10) as [q|]; [|lia]. destruct Hx as (_ & _ & ->). done. }
  split; [|split; congruence].
  destruct (strchr buf 0 10) as [q|]; [done|]. by subst scr2.
Qed.

Lemma scr_end_caret scr :
  win_width scr ≠ 0 → caret_within scr →
  ∃ scr', scr_end scr = Some scr' ∧ buffer scr' = buffer scr ∧
          current_pos scr' = current_pos scr ∧ current_r scr' = scr_length scr - 1 ∧
          win_height scr' = win_height scr ∧ win_width scr' = win_width scr ∧
          caret_within scr'.
Proof.
  intros HW (last & Hlast & Hcs & Hpos).
  rewrite (scr_end_at scr last HW Hlast). eexists. split; [done|].
  repeat split; try done. by exists last.
Qed.

(** X6.  [scr_add] returns for every text, whatever control characters it
    holds, on a scroller whose caret lies within its last line; and it
    leaves the caret within the last line, and the window as it was. *)
Theorem scr_add_keeps_caret (scr : scroller) (buf : list Z) :
  win_width scr ≠ 0 → caret_within scr →
  ∃ scr', scr_add scr buf = Some scr' ∧ caret_within scr' ∧
          win_height scr' = win_height scr ∧ win_width scr' = win_width scr.
Proof.
  intros HW Hcaret.
  destruct (scr_add_spec scr buf HW Hcaret) as (scr2 & line & new & -> & _ & _ & Hc2 & Hh & Hw).
  destruct (scr_end_caret scr2) as (scr' & -> & _ & _ & _ & Hh' & Hw' & Hc'); [congruence|done|].
  exists scr'. split; [done|]. split; [done|]. split; congruence.
Qed.

(** A tab, a backspace and a new line added to a new scroller. *)
Lemma scr_add_keeps_caret_witness :
  ∃ scr', scr_add (scr_new 0 0 24 80) [97; 9; 8; 10; 98] = Some scr' ∧ caret_within scr' ∧
          win_height scr' = 24 ∧ win_width scr' = 80.
Proof.
  apply (scr_add_keeps_caret (scr_new 0 0 24 80) [97; 9; 8; 10; 98]).
  - simpl. lia.
  - exists []. split; [reflexivity|]. split; [constructor|]. simpl. unfold strlen. simpl. lia.
Defined.

(** X7.  [scr_add] adds one line to the buffer for every new line
    character of the text, changes no line but the last of the lines
    there were, and leaves the viewport on the last line. *)
Theorem scr_add_grows_buffer (scr : scroller) (buf : list Z) :
  win_width scr ≠ 0 → caret_within scr →
  ∃ scr', scr_add scr buf = Some scr' ∧
          scr_length scr' = scr_length scr + count buf 10 ∧
          take (pred (length (buffer scr))) (buffer scr')
          = take (pred (length (buffer scr))) (buffer scr) ∧
          current_r scr' = scr_length scr' - 1.
Proof.
  intros HW Hcaret.
  destruct (scr_add_spec scr buf HW Hcaret) as (scr2 & line & new & -> & Hbuf & Hlen & Hc2 & Hh & Hw).
  destruct (scr_end_caret scr2) as (scr' & -> & Hbuf' & _ & Hr & _); [congruence|done|].
  destruct Hcaret as (last & Hlast & _). apply at_index_Some in Hlast as [_ Hlast].
  apply lookup_lt_Some in Hlast. unfold scr_length in *.
  exists scr'. split; [done|]. rewrite Hbuf', Hbuf. split; [|split].
  - rewrite length_app, length_take. simpl. lia.
  - rewrite take_app_le by (rewrite length_take; lia).
    rewrite take_take. f_equal. lia.
  - by rewrite Hr, Hbuf.
Qed.

(** Two new line characters added to a scroller of one line. *)
Lemma scr_add_grows_buffer_witness :
  ∃ scr', scr_add (mk_scroller [[97; 98]] 0 0 2 24 80) [99; 10; 10; 100] = Some scr' ∧
          scr_length scr' = 1 + 2 ∧
          take 0 (buffer scr') = [] ∧
          current_r scr' = scr_length scr' - 1.
Proof.
  apply (scr_add_grows_buffer (mk_scroller [[97; 98]] 0 0 2 24 80) [99; 10; 10; 100]).
  - simpl. lia.
  - exists [97; 98]. split; [reflexivity|]. split; [repeat constructor; lia|].
    simpl. unfold strlen. simpl. lia.
Defined.

Lemma printable_not_control ch :
  isprint ch = true → ch ≠ 0 ∧ ch ≠ 8 ∧ ch ≠ 9 ∧ ch ≠ 10 ∧ ch ≠ 13 ∧ ch ≠ 127.
Proof.
  unfold isprint. intros H. apply andb_true_iff in H as [H1 H2].
  apply Z.leb_le in H1, H2. lia.
Qed.

Lemma parse_loop_printable : ∀ buf rv i,
  printable buf → 0 ≤ i → i + strlen buf ≤ Z.of_nat (length rv) →
  parse_loop buf rv i
  = Some (take (Z.to_nat i) rv ++ buf ++ drop (Z.to_nat (i + strlen buf)) rv,
          i + strlen buf).
Proof.
  unfold strlen.
  induction buf as [|ch buf IH]; intros rv i Hp Hi Hlen; cbn [parse_loop].
  { cbn [length app Z.of_nat]. rewrite Z.add_0_r. by rewrite take_drop. }
  apply Forall_cons_1 in Hp as [Hch Hp]. cbn [length] in Hlen.
  pose proof (printable_not_control ch Hch) as (_ & H8 & H9 & _ & H13 & H127).
  unfold parse_char.
  destruct (Z.eqb_spec ch 8); [done|]. destruct (Z.eqb_spec ch 127); [done|].
  destruct (Z.eqb_spec ch 9); [done|]. destruct (Z.eqb_spec ch 13); [done|].
  cbn [orb]. rewrite Hch. rewrite poke_Some by lia. cbn [mbind option_bind].
  rewrite IH by (done || lia || rewrite length_insert; lia).
  cbn [length]. f_equal. f_equal; [|lia].
  replace (Z.to_nat (i + 1)) with (S (Z.to_nat i)) by lia.
  rewrite (take_S_r _ _ ch) by (apply list_lookup_insert_eq; lia).
  rewrite take_insert_ge by lia. rewrite drop_insert_lt by lia.
  rewrite <- app_assoc. simpl. do 3 f_equal. f_equal. lia.
Qed.

Lemma printable_c_string s : printable s → c_string s.
Proof.
  apply Forall_impl. intros ch Hch. by apply printable_not_control in Hch as (? & _).
Qed.

(** Printable text typed at the end of a line is appended to it. *)
Lemma parse_printable scr orig buf :
  c_string orig → printable buf → current_pos scr = strlen orig →
  parse scr orig buf = Some (set_current_pos scr (strlen orig + strlen buf), orig ++ buf).
Proof.
  intros Horig Hbuf Hpos. unfold parse, parse_interpret. rewrite Hpos.
  pose proof (count_nonneg buf 9) as Hcount.
  assert (parse_alloc orig buf
          = orig ++ replicate (length buf) 0
              ++ 0 :: replicate (Z.to_nat ((tab_size - 1) * count buf 9)) 0) as Halloc.
  { unfold parse_alloc. cbv zeta. f_equal.
    change (0 :: replicate ?n 0) with (replicate (S n) 0).
    rewrite <- replicate_add. f_equal. unfold strlen, tab_size in *. lia. }
  rewrite parse_loop_printable;
    [|done|unfold strlen; lia
     |rewrite Halloc, !length_app, length_replicate; simpl; unfold strlen; lia].
  cbn [mbind option_bind].
  assert (take (Z.to_nat (strlen orig)) (parse_alloc orig buf) ++ buf
            ++ drop (Z.to_nat (strlen orig + strlen buf)) (parse_alloc orig buf)
          = (orig ++ buf) ++ 0 :: replicate (Z.to_nat ((tab_size - 1) * count buf 9)) 0)
    as ->.
  { rewrite Halloc. unfold strlen. rewrite Nat2Z.id.
    rewrite take_app_length. rewrite <- app_assoc. do 2 f_equal.
    replace (Z.to_nat (Z.of_nat (length orig) + Z.of_nat (length buf)))
      with (length orig + length buf)%nat by lia.
    rewrite drop_app_add'. 2: done.
    rewrite drop_app_length'; [done|by rewrite length_replicate]. }
  assert (c_string (orig ++ buf)) as Hcs.
  { apply Forall_app. split; [done|by apply printable_c_string]. }
  rewrite (strlen_arr_app _ _ Hcs). cbn [mbind option_bind].
  assert (strlen (orig ++ buf) = strlen orig + strlen buf) as Hlen.
  { unfold strlen. rewrite length_app. lia. }
  rewrite Hlen. cbn [trim_scan].
  destruct (Z.ltb_spec (strlen orig + strlen buf) (strlen orig + strlen buf - 1)); [lia|].
  cbn [mbind option_bind].
  rewrite poke_Some by (rewrite length_app; simpl; unfold strlen in *; lia).
  cbn [mbind option_bind].
  replace (Z.to_nat (strlen orig + strlen buf - 1 + 1)) with (length (orig ++ buf))
    by (unfold strlen in *; lia).
  rewrite insert_app_r_alt by done. rewrite Nat.sub_diag. cbn [insert list_insert].
  rewrite (strlen_arr_app _ _ Hcs). cbn [mbind option_bind].
  unfold strlen at 3. rewrite Nat2Z.id. by rewrite take_app_length.
Qed.

Lemma list_find_new_line l tl :
  printable l → list_find (λ x, x = 10) (l ++ 10 :: tl) = Some (length l, 10).
Proof.
  induction l as [|ch l IH]; intros Hl; [done|].
  apply Forall_cons_1 in Hl as [Hch Hl].
  apply printable_not_control in Hch as (_ & _ & _ & H10 & _).
  cbn [app list_find]. destruct (decide (ch = 10)); [done|].
  by rewrite IH.
Qed.

Lemma list_find_no_new_line l :
  printable l → list_find (λ x, x = 10) l = None.
Proof.
  intros Hl. apply list_find_None. eapply Forall_impl; [|exact Hl].
  intros ch Hch. by apply printable_not_control in Hch as (_ & _ & _ & H10 & _).
Qed.

Lemma last_default {A} (l : list A) d d' : l ≠ [] → List.last l d = List.last l d'.
Proof.
  induction l as [|x [|y l] IH]; intros Hne; [done|done|].
  change (List.last (y :: l) d = List.last (y :: l) d'). by apply IH.
Qed.

(** The loop of [scr_add] on printable lines: each becomes a line of the
    buffer as it is. *)
Lemma scr_add_lines_printable : ∀ lines pre scr fuel,
  Forall printable lines → (length lines < fuel)%nat →
  scr_add_lines fuel scr (pre ++ concat (map (cons 10) lines))
    (match lines with [] => None | _ => Some (length pre) end)
  = Some (match lines with
          | [] => scr
          | _ => set_buffer (set_current_pos scr (strlen (List.last lines [])))
                            (buffer scr ++ lines)
          end).
Proof.
  induction lines as [|l rest IH]; intros pre scr fuel Hp Hfuel.
  { destruct fuel; [simpl in Hfuel; lia|done]. }
  apply Forall_cons_1 in Hp as [Hl Hrest].
  destruct fuel as [|fuel]; [lia|]. cbn [length] in Hfuel.
  cbn [scr_add_lines map concat].
  assert (drop (S (length pre)) (pre ++ (10 :: l) ++ concat (map (cons 10) rest))
          = l ++ concat (map (cons 10) rest)) as Hdrop.
  { change (S (length pre)) with (1 + length pre)%nat. rewrite Nat.add_comm.
    rewrite <- drop_drop. by rewrite drop_app_length. }
  assert (strchr (pre ++ (10 :: l) ++ concat (map (cons 10) rest)) (S (length pre)) 10
          = match rest with [] => None | _ => Some (length (pre ++ 10 :: l)) end) as Hx.
  { unfold strchr. rewrite Hdrop. destruct rest as [|l2 rest].
    - cbn [map concat]. rewrite app_nil_r. by rewrite list_find_no_new_line.
    - cbn [map concat app].
      rewrite list_find_new_line by done. cbn [fmap option_fmap option_map fst].
      f_equal. rewrite length_app. simpl. lia. }
  rewrite Hx, Hdrop.
  assert (take (distance_to (pre ++ (10 :: l) ++ concat (map (cons 10) rest)) (S (length pre))
                  match rest with [] => None | _ => Some (length (pre ++ 10 :: l)) end)
               (l ++ concat (map (cons 10) rest)) = l) as ->.
  { destruct rest as [|l2 rest]; cbn [distance_to map concat].
    - rewrite !length_app. cbn [length]. rewrite app_nil_r. rewrite Nat.add_0_r.
      apply take_ge. lia.
    - rewrite length_app. cbn [length].
      replace (length pre + S (length l) - S (length pre))%nat with (length l) by lia.
      by rewrite take_app_length. }
  rewrite (parse_printable _ [] l); [|constructor|done|done].
  cbn [mbind option_bind].
  replace (pre ++ (10 :: l) ++ concat (map (cons 10) rest))
    with ((pre ++ 10 :: l) ++ concat (map (cons 10) rest))
    by (by rewrite <- app_assoc).
  rewrite IH by (done || lia).
  f_equal. destruct rest as [|l2 rest]; [reflexivity|].
  cbn [set_buffer set_current_pos buffer current_r current_c current_pos win_height win_width].
  rewrite <- app_assoc. reflexivity.
Qed.

Lemma length_concat_new_lines (lines : list (list Z)) :
  (length lines ≤ length (concat (map (cons 10%Z) lines)))%nat.
Proof.
  induction lines as [|l lines IH]; [done|].
  cbn [map concat]. rewrite length_app. simpl. lia.
Qed.

(** X8.  Printable text added at the end of the last line goes into the
    buffer as it is, split at its new line characters: the text before
    the first new line is appended to the last line, every piece after a
    new line becomes a line of its own, the caret ends after the last
    character, and the viewport is on the last line. *)
Theorem scr_add_printable (scr : scroller) (last text : list Z) (lines : list (list Z)) :
  win_width scr ≠ 0 →
  at_index (buffer scr) (scr_length scr - 1) = Some last → c_string last →
  current_pos scr = strlen last → printable text → Forall printable lines →
  ∃ scr',
    scr_add scr (text ++ concat (map (cons 10) lines)) = Some scr' ∧
    buffer scr' = take (pred (length (buffer scr))) (buffer scr) ++ (last ++ text) :: lines ∧
    current_pos scr' = strlen (List.last lines (last ++ text)) ∧
    current_r scr' = scr_length scr + Z.of_nat (length lines) - 1.
Proof.
  intros HW Hlast Hcs Hpos Htext Hlines.
  set (scr2 := set_buffer (set_current_pos scr (strlen (List.last lines (last ++ text))))
                 (take (pred (length (buffer scr))) (buffer scr) ++ (last ++ text) :: lines)).
  assert (scr_add scr (text ++ concat (map (cons 10) lines)) = scr_end scr2) as ->.
  { unfold scr_add. rewrite Hlast. cbn [mbind option_bind].
    pose proof Hlast as Hlast'. apply at_index_Some in Hlast' as [Hn Hlook].
    pose proof (lookup_lt_Some _ _ _ Hlook) as Hlt. unfold scr_length in *.
    assert (strchr (text ++ concat (map (cons 10) lines)) 0 10
            = match lines with [] => None | _ => Some (length text) end) as Hx.
    { unfold strchr. rewrite drop_0. destruct lines as [|l lines].
      - cbn [map concat]. rewrite app_nil_r. by rewrite list_find_no_new_line.
      - cbn [map concat app].
        by rewrite list_find_new_line by done. }
    rewrite Hx.
    assert (distance_to (text ++ concat (map (cons 10) lines)) 0
              match lines with [] => None | _ => Some (length text) end = length text)
      as ->.
    { destruct lines as [|l lines]; cbn [distance_to map concat]; [|lia].
      rewrite app_nil_r. lia. }
    rewrite take_app_length.
    assert ((if (0 <? length text)%nat
             then '(scr1, line) ← parse scr last text;
                  Some (set_buffer scr1
                          (<[Z.to_nat (Z.of_nat (length (buffer scr1)) - 1) := line]>
                             (buffer scr1)))
             else Some scr)
            = Some (set_buffer (set_current_pos scr (strlen (last ++ text)))
                      (take (pred (length (buffer scr))) (buffer scr) ++ [last ++ text])))
      as ->.
    { assert (∀ l, <[Z.to_nat (Z.of_nat (length (buffer scr)) - 1) := l]> (buffer scr)
                   = take (pred (length (buffer scr))) (buffer scr) ++ [l]) as Hins.
      { intros l. replace (Z.to_nat (Z.of_nat (length (buffer scr)) - 1))
          with (pred (length (buffer scr))) by lia.
        rewrite insert_take_drop by lia.
        replace (S (pred (length (buffer scr)))) with (length (buffer scr)) by lia.
        by rewrite drop_all. }
      destruct (Nat.ltb_spec 0 (length text)) as [Hsome|Hnone].
      - rewrite (parse_printable scr last text) by done.
        cbn [mbind option_bind set_current_pos buffer]. rewrite Hins.
        do 3 f_equal. unfold strlen. rewrite length_app. lia.
      - destruct text; [|simpl in Hnone; lia]. rewrite app_nil_r, <- Hins.
        rewrite list_insert_id by done. rewrite <- Hpos. by destruct scr. }
    cbn [mbind option_bind].
    rewrite scr_add_lines_printable
      by (done || pose proof (length_concat_new_lines lines); rewrite length_app; lia).
    cbn [mbind option_bind]. f_equal. subst scr2.
    destruct lines as [|l lines]; [reflexivity|].
    cbn [set_buffer set_current_pos buffer current_r current_c current_pos win_height
         win_width].
    rewrite <- app_assoc. cbn [app].
    by rewrite (last_default (l :: lines) [] (last ++ text)). }
  assert (at_index (buffer scr2) (scr_length scr2 - 1)
          = Some (List.last lines (last ++ text))) as Hfinal.
  { subst scr2. unfold scr_length. cbn [set_buffer buffer].
    apply at_index_Some. rewrite length_app. cbn [length]. split; [lia|].
    rewrite lookup_app_r by lia.
    replace (Z.to_nat _ - _)%nat with (length lines) by lia.
    clear. generalize (last ++ text). induction lines as [|l lines IH]; intros d; [done|].
    change ((d :: l :: lines) !! length (l :: lines)) with ((l :: lines) !! length lines).
    rewrite (IH l). f_equal.
    destruct lines as [|l2 lines]; [done|].
    change (List.last (l2 :: lines) l = List.last (l2 :: lines) d). by apply last_default. }
  rewrite (scr_end_at scr2 _ HW Hfinal). eexists. split; [done|].
  subst scr2. unfold scr_length.
  cbn [at_rc set_buffer set_current_pos set_current_c set_current_r buffer current_pos
       current_r].
  split; [done|]. split; [done|].
  apply at_index_Some in Hlast as [_ Hlast]. apply lookup_lt_Some in Hlast.
  rewrite length_app, length_take. cbn [length]. lia.
Qed.

(** "ab", a new line and "cd" added to a new scroller. *)
Lemma scr_add_printable_witness :
  ∃ scr',
    scr_add (scr_new 0 0 24 80) [97; 98; 10; 99; 100] = Some scr' ∧
    buffer scr' = [[97; 98]; [99; 100]] ∧ current_pos scr' = 2 ∧ current_r scr' = 1.
Proof.
  apply (scr_add_printable (scr_new 0 0 24 80) [] [97; 98] [[99; 100]]).
  - simpl. lia.
  - reflexivity.
  - constructor.
  - reflexivity.
  - repeat constructor.
  - repeat constructor.
Defined.

(** ** The cells of a line: counted and drawn *)

(** X9.  What [scr_refresh] draws of a line is what [get_line_height]
    counts: the segment loop returns, and the total length of the segments
    it prints is the number of cells counted outside format sequences, so
    that the rows cleared for a line are the rows its text takes. *)
Theorem draw_segments_total_is_line_cells (line : list Z) (st : draw_state) (W : Z) :
  c_string line → 1 ≤ W →
  ∃ st', draw_segments (S (length line)) line O st = Some st' ∧
         line_cells line = Some (d_total_length st' - d_total_length st) ∧
         get_line_height line W
         = Some (Z.max 1 (ceil_div (d_total_length st' - d_total_length st) W)).
Proof.
  intros Hcs HW.
  destruct (draw_segments_cells (S (length line)) line O st 0 Hcs) as (st' & Hst' & Hcount);
    [lia|lia|].
  exists st'. split; [done|].
  assert (line_cells line = Some (d_total_length st' - d_total_length st)) as Hcells.
  { unfold line_cells. by rewrite Hcount, Z.add_0_l. }
  split; [done|]. rewrite (get_line_height_spec line W _ HW Hcells). f_equal. lia.
Qed.

(** A line with a recognised and an unrecognised format sequence. *)
Lemma draw_segments_total_is_line_cells_witness :
  ∃ st', draw_segments 10 [91; 51; 49; 109; 104; 105; 91; 120; 109] O
           (draw_init (scr_new 0 0 24 80)) = Some st' ∧
         line_cells [91; 51; 49; 109; 104; 105; 91; 120; 109]
         = Some (d_total_length st' - 0) ∧
         get_line_height [91; 51; 49; 109; 104; 105; 91; 120; 109] 2
         = Some (Z.max 1 (ceil_div (d_total_length st' - 0) 2)).
Proof.
  apply (draw_segments_total_is_line_cells [91; 51; 49; 109; 104; 105; 91; 120; 109]
           (draw_init (scr_new 0 0 24 80)) 2).
  - repeat constructor; lia.
  - lia.
Defined.

(** X10.  A line without '[' takes one cell for each of its characters:
    its height in a window [W] cells wide is its length over [W], rounded
    up, and 1 for an empty line. *)
Theorem get_line_height_plain (line : list Z) (W : Z) :
  c_string line → Forall (λ ch, ch ≠ 91) line → 1 ≤ W →
  line_cells line = Some (strlen line) ∧
  get_line_height line W = Some (Z.max 1 (ceil_div (strlen line) W)).
Proof.
  intros Hcs Hplain HW.
  assert (line_cells line = Some (strlen line)) as Hcells.
  { unfold line_cells. rewrite (count_cells_run line (length line)).
    - by rewrite count_cells_end by lia.
    - intros k Hk. split; [|apply peek_c_string; [done|lia]].
      destruct (lookup_lt_is_Some_2 line k ltac:(lia)) as [ch Hch].
      rewrite (peek_lookup _ _ _ Hch). by eapply (Forall_lookup_1 _ _ _ _ Hplain). }
  split; [done|]. rewrite (get_line_height_spec line W _ HW Hcells). f_equal. lia.
Qed.

(** "hello" in a window two cells wide. *)
Lemma get_line_height_plain_witness :
  line_cells [104; 101; 108; 108; 111] = Some 5 ∧
  get_line_height [104; 101; 108; 108; 111] 2 = Some 3.
Proof.
  apply (get_line_height_plain [104; 101; 108; 108; 111] 2).
  - repeat constructor; lia.
  - repeat constructor; lia.
  - lia.
Defined.

(** ** Rendering writes the viewport column *)

(** X11.  [scr_refresh] leaves in [current.c] the length of the last line
    it has drawn, and then reads the line of the viewport from that
    column on: when the viewport is on the second line of the buffer, the
    window is high enough for the first line to be drawn as well, and
    the first line has more cells than the second has characters, the
    read is beyond the end of the line. *)
Theorem scr_refresh_reads_past_line (scr : scroller) (focus : bool)
    (above cur : list Z) (L h : Z) :
  1 ≤ win_width scr → current_r scr = 1 →
  buffer scr !! 0%nat = Some above → buffer scr !! 1%nat = Some cur →
  c_string above → c_string cur →
  line_cells above = Some L → get_line_height cur (win_width scr) = Some h →
  h < win_height scr → strlen cur < L →
  ∃ st, scr_refresh_draw scr = Some st ∧
        buffer (d_scr st) = buffer scr ∧ current_r (d_scr st) = 1 ∧
        current_c (d_scr st) = L ∧
        scr_refresh scr focus = None.
Proof.
  intros HW Hr Habove Hcur Hcsa Hcsc HL Hh Hhigh Hlong.
  destruct (sanity_check_total scr) as (scr0 & H0); [lia|].
  pose proof (sanity_check_same _ _ H0) as (Hb0 & Hr0 & Hp0 & Hh0 & Hw0).
  destruct (line_cells_total cur) as (Lc & HLc & _).
  (* the line of the viewport *)
  destruct (draw_line_at (draw_init scr0) cur Lc) as
    (st1 & h1 & Hst1 & Hh1 & Hge1 & Hrow1 & Hn1 & Hsame1 & _);
    cbn [draw_init d_scr d_row]; try done.
  { lia. }
  { rewrite Hr0, Hr, Hb0. by apply at_index_Some. }
  cbn [draw_init d_scr d_row d_nlines] in *. rewrite Hw0, Hh in Hh1. injection Hh1 as <-.
  destruct Hsame1 as (Hb1 & Hr1 & Hp1 & Hhe1 & Hw1).
  (* the line above it *)
  destruct (draw_line_at st1 above L) as
    (st2 & h2 & Hst2 & Hh2 & Hge2 & Hrow2 & Hn2 & Hsame2 & Hc2); try done.
  { lia. }
  { rewrite Hrow1, Hr0, Hr, Hb1, Hb0. by apply at_index_Some. }
  destruct Hsame2 as (Hb2 & Hr2 & Hp2 & Hhe2 & Hw2).
  assert (above ≠ []) as Hne.
  { intros ->. injection HL as <-. unfold strlen in Hlong. lia. }
  specialize (Hc2 Hne).
  (* the rows left *)
  destruct (draw_loop_total (Z.to_nat (win_height scr0) - 1) st2) as (st & Hst & _).
  { lia. }
  { unfold scr_length. rewrite Hrow2, Hrow1, Hr0, Hr. lia. }
  { rewrite Hhe2, Hhe1, Hn2, Hn1. lia. }
  assert (d_row st2 < 0) as Hneg by lia.
  pose proof (draw_loop_blank _ _ _ Hneg Hst) as Hscr.
  assert (scr_refresh_draw scr = Some st) as Hdraw.
  { unfold scr_refresh_draw. rewrite H0. cbn [mbind option_bind].
    replace (S (Z.to_nat (win_height scr0)))
      with (S (S (Z.to_nat (win_height scr0) - 1))) by lia.
    cbn [draw_loop]. cbn [draw_init d_nlines d_scr].
    destruct (Z.leb_spec 1 (win_height scr0)); [|lia].
    rewrite Hst1. cbn [mbind option_bind].
    destruct (Z.leb_spec (d_nlines st1) (win_height (d_scr st1))); [|lia].
    rewrite Hst2. cbn [mbind option_bind]. exact Hst. }
  exists st. split; [done|].
  assert (buffer (d_scr st) = buffer scr) as Hbuf by congruence.
  assert (current_r (d_scr st) = 1) as Hrow by congruence.
  assert (current_c (d_scr st) = L) as Hcol by congruence.
  split; [done|]. split; [done|]. split; [done|].
  unfold scr_refresh. rewrite Hdraw. cbn [mbind option_bind].
  rewrite Hbuf, Hrow.
  assert (at_index (buffer scr) 1 = Some cur) as -> by (by apply at_index_Some).
  cbn [mbind option_bind]. rewrite Hcol. unfold strlen in *.
  destruct (Z.leb_spec 0 L); [|lia].
  destruct (Z.leb_spec L (Z.of_nat (length cur))); [lia|]. done.
Qed.

(** "abc" above "x" in a window of 24 rows. *)
Lemma scr_refresh_reads_past_line_witness :
  ∃ st, scr_refresh_draw (mk_scroller [[97; 98; 99]; [120]] 1 0 1 24 80) = Some st ∧
        buffer (d_scr st) = [[97; 98; 99]; [120]] ∧ current_r (d_scr st) = 1 ∧
        current_c (d_scr st) = 3 ∧
        scr_refresh (mk_scroller [[97; 98; 99]; [120]] 1 0 1 24 80) true = None.
Proof.
  apply (scr_refresh_reads_past_line (mk_scroller [[97; 98; 99]; [120]] 1 0 1 24 80) true
           [97; 98; 99] [120] 3 1).
  - simpl. lia.
  - reflexivity.
  - reflexivity.
  - reflexivity.
  - repeat constructor; lia.
  - repeat constructor; lia.
  - reflexivity.
  - reflexivity.
  - simpl. lia.
  - unfold strlen. simpl. lia.
Defined.

(** ** The splitter: removing from the array, minimum size *)

(** X12.  [wm_splitter_array_remove] takes the first child that is the
    window out of the array and keeps the others in their order, with
    status 0; when no child is the window it returns -1 and leaves the
    splitter as it was. *)
Theorem array_remove_first_occurrence (s : wm_splitter) (window : nat) :
  (∃ before child after,
     children s = before ++ child :: after ∧ window_id child = window ∧
     (window ∉ map window_id before) ∧
     wm_splitter_find_child s window = Some (length before) ∧
     wm_splitter_array_remove s window = (0, set_children s (before ++ after)))
  ∨ ((window ∉ map window_id (children s)) ∧
     wm_splitter_find_child s window = None ∧
     wm_splitter_array_remove s window = (-1, s)).
Proof.
  destruct (wm_splitter_find_child s window) as [i|] eqn:Hfind.
  - left. rewrite (wm_splitter_array_remove_found s window i Hfind).
    unfold wm_splitter_find_child in Hfind.
    apply fmap_Some in Hfind as ([j child] & Hf & ->).
    apply list_find_Some in Hf as (Hl & Hid & Hfirst). cbn [fst].
    pose proof (lookup_lt_Some _ _ _ Hl) as Hlt.
    exists (take j (children s)), child, (drop (S j) (children s)).
    rewrite length_take_le by lia.
    split; [by rewrite <- (take_drop_middle _ _ _ Hl) at 1|].
    split; [done|]. split; [|split; [done|by rewrite delete_take_drop]].
    intros Hin. apply list_elem_of_fmap in Hin as (c & Hc & Hin).
    apply list_elem_of_lookup in Hin as [k Hk].
    apply lookup_take_Some in Hk as [Hk Hkj].
    by apply (Hfirst k c).
  - right. split; [|split; [done|]].
    + intros Hin. apply find_child_In in Hin as [i Hi]. congruence.
    + unfold wm_splitter_array_remove. by rewrite Hfind.
Qed.

Lemma foldr_max_shift (l : list Z) : ∀ w x,
  foldr Z.max (Z.max w x) l = Z.max x (foldr Z.max w l).
Proof. induction l as [|y l IH]; intros w x; simpl; [lia|]. rewrite IH. lia. Qed.

Lemma minimum_size_fold o (l : list (Z * Z)) : ∀ h w,
  fold_left (minimum_size_step o) l (h, w)
  = match o with
    | WM_HORIZONTAL => (h + sum_Z (map fst l), foldr Z.max w (map snd l))
    | WM_VERTICAL => (foldr Z.max h (map fst l), w + sum_Z (map snd l))
    end.
Proof.
  induction l as [|[ch cw] l IH]; intros h w.
  { destruct o; simpl; f_equal; unfold sum_Z; simpl; lia. }
  cbn [fold_left]. unfold minimum_size_step at 2. cbn [fst snd].
  destruct o; rewrite IH; cbn [map foldr fst snd]; unfold sum_Z; cbn [foldr].
  - f_equal; [lia|]. rewrite <- foldr_max_shift. f_equal.
    destruct (Z.ltb_spec w cw); lia.
  - f_equal; [|lia]. rewrite <- foldr_max_shift. f_equal.
    destruct (Z.ltb_spec h ch); lia.
Qed.

(** X13.  The minimum size [wm_splitter_minimum_size] answers: along the
    split the sum of the children's minimum sizes, across it the largest
    of them, and no less than 0; an empty splitter answers 0 by 0. *)
Theorem minimum_size_splitter (f : wm_fields) (o : wm_orientation) (cs : list wm_window) :
  minimum_size (Splitter f o cs)
  = match o with
    | WM_HORIZONTAL => (sum_Z (map (λ c, (minimum_size c).1) cs),
                        foldr Z.max 0 (map (λ c, (minimum_size c).2) cs))
    | WM_VERTICAL => (foldr Z.max 0 (map (λ c, (minimum_size c).1) cs),
                      sum_Z (map (λ c, (minimum_size c).2) cs))
    end.
Proof.
  cbn [minimum_size]. rewrite minimum_size_fold.
  rewrite !map_map. by destruct o.
Qed.

(** ** The splitter: what layout places, and what it keeps *)

Lemma skeleton_with_fields g w :
  (∀ f, w_id (g f) = w_id f) → skeleton (with_fields g w) = skeleton w.
Proof. intros Hg. destruct w; simpl; by rewrite Hg. Qed.

Lemma skeleton_read_geometry w : skeleton (read_geometry w) = skeleton w.
Proof. by apply skeleton_with_fields. Qed.

Lemma skeleton_set_cwindow c w : skeleton (set_cwindow c w) = skeleton w.
Proof. by apply skeleton_with_fields. Qed.

Lemma skeleton_id w w' : skeleton w' = skeleton w → window_id w' = window_id w.
Proof. destruct w, w'; simpl; intros [=]; done. Qed.

Lemma skeleton_depth_below n : ∀ w, (depth w < n)%nat → depth (skeleton w) = depth w.
Proof.
  induction n as [|n IH]; intros w Hd; [lia|].
  destruct w as [f h v|f o cs]; [done|].
  apply depth_lt_children in Hd. cbn [skeleton depth]. do 2 f_equal.
  rewrite map_map. apply map_ext_Forall.
  eapply Forall_impl; [|exact Hd]. intros c Hc. by apply IH.
Qed.

Lemma skeleton_depth w w' : skeleton w' = skeleton w → depth w' = depth w.
Proof.
  intros H. rewrite <- (skeleton_depth_below (S (depth w)) w) by lia.
  rewrite <- (skeleton_depth_below (S (depth w')) w') by lia. by rewrite H.
Qed.

Lemma skeleton_minimum_size_below n : ∀ w,
  (depth w < n)%nat → minimum_size (skeleton w) = minimum_size w.
Proof.
  induction n as [|n IH]; intros w Hd; [lia|].
  destruct w as [f h v|f o cs]; [done|].
  apply depth_lt_children in Hd. cbn [skeleton minimum_size]. f_equal.
  rewrite map_map. apply map_ext_Forall.
  eapply Forall_impl; [|exact Hd]. intros c Hc. by apply IH.
Qed.

Lemma skeleton_minimum_size w w' :
  skeleton w' = skeleton w → minimum_size w' = minimum_size w.
Proof.
  intros H. rewrite <- (skeleton_minimum_size_below (S (depth w)) w) by lia.
  rewrite <- (skeleton_minimum_size_below (S (depth w')) w') by lia. by rewrite H.
Qed.

Section splitter_placement.

Variable float_below_min : Z → Z → Z → bool.
Variable float_share : Z → Z → Z → Z.

Local Abbreviation layout_event := (wm_window_layout_event float_below_min float_share).
Local Abbreviation splitter_layout_event :=
  (wm_splitter_layout_event float_below_min float_share).

(** The last loop of [wm_splitter_layout], given what layout does to each
    child: the children are put one after the other from [position] on,
    each as wide (or as high) as the splitter and at its edge, with the
    dimensions handed out; nothing but placements and canvases changes. *)
Lemma layout_place_tiled (le : wm_window → option wm_window) (n : nat)
    (Hle : ∀ w, (depth w < n)%nat →
                ∃ w', le w = Some w' ∧ fields w' = fields (read_geometry w) ∧
                      skeleton w' = skeleton w)
    (f : wm_fields) (o : wm_orientation) :
  ∀ cs dims position,
    length dims = length cs → Forall (λ c, (depth c < n)%nat) cs →
    ∃ cs', layout_place le f o cs dims position = Some cs' ∧
           map skeleton cs' = map skeleton cs ∧
           map (get_dimension o) cs' = dims ∧
           tiled o position cs' ∧
           Forall (λ c', cross_position o (fields c') = cross_position o f ∧
                         cross_dimension o (fields c') = cross_dimension o f ∧
                         in_place c' = true) cs'.
Proof.
  induction cs as [|c cs IH]; intros [|d dims] position Hlen Hdepth; simpl in Hlen;
    try done.
  { exists []. by repeat split. }
  apply Forall_cons_1 in Hdepth as [Hc Hcs].
  cbn [layout_place]. unfold wm_splitter_place_window.
  set (W := match o with
            | WM_HORIZONTAL => mk_WINDOW position (w_left f) d (real_width f)
            | WM_VERTICAL => mk_WINDOW (w_top f) position (real_height f) d
            end).
  destruct (Hle (set_cwindow W c)) as (placed & Hplaced & Hfp & Hsp).
  { unfold set_cwindow. by rewrite depth_with_fields. }
  replace (match o with
           | WM_HORIZONTAL => le (set_cwindow (mk_WINDOW position (w_left f) d (real_width f)) c)
           | WM_VERTICAL => le (set_cwindow (mk_WINDOW (w_top f) position (real_height f) d) c)
           end) with (Some placed) by (subst W; by destruct o).
  cbn [mbind option_bind].
  rewrite skeleton_set_cwindow in Hsp.
  destruct (Hle placed) as (notified & Hn & Hfn & Hsn).
  { rewrite (skeleton_depth _ _ Hsp). done. }
  rewrite Hn. cbn [mbind option_bind].
  assert (fields notified
          = mk_fields (w_id (fields c)) W (begy W) (begx W) (maxy W) (maxx W)) as Hf.
  { rewrite Hfn. unfold read_geometry. rewrite fields_with_fields, Hfp.
    unfold read_geometry, set_cwindow. rewrite !fields_with_fields. done. }
  edestruct (IH dims) as (cs' & Hcs' & Hsk & Hdims & Htiled & Hcross); [lia|done|].
  rewrite Hcs'. cbn [mbind option_bind].
  exists (notified :: cs'). split; [done|].
  assert (get_dimension o notified = d) as Hd.
  { unfold get_dimension. rewrite Hf. subst W. by destruct o. }
  cbn [map tiled]. split; [f_equal; [congruence|done]|].
  split; [by rewrite Hd, Hdims|]. split.
  - rewrite Hd. split; [unfold get_position; rewrite Hf; subst W; by destruct o|].
    destruct o; cbn [separator]; [by rewrite Z.add_0_r|done].
  - constructor; [|done]. unfold in_place. rewrite Hf. subst W.
    destruct o; cbn; rewrite !Z.eqb_refl; done.
Qed.

(** Layout of a window of depth below the fuel returns, and changes
    nothing but placements and canvases. *)
Lemma layout_event_skeleton fuel : ∀ w,
  (depth w < fuel)%nat →
  ∃ w', layout_event fuel w = Some w' ∧ fields w' = fields (read_geometry w) ∧
        skeleton w' = skeleton w.
Proof.
  induction fuel as [|fuel IH]; intros w Hd; [lia|].
  cbn [wm_window_layout_event].
  destruct w as [f h v|f o cs]; cbn [read_geometry with_fields].
  { eexists. split; [done|]. by split. }
  unfold wm_splitter_layout. cbn [orientation children s_window].
  destruct (layout_sizes _ _ _ _ _) as [new_sizes sum] eqn:Hsizes.
  edestruct (layout_place_tiled (layout_event fuel) fuel IH) as (cs' & Hcs' & Hsk & _).
  - rewrite layout_dimensions_length; [done|].
    match type of Hsizes with
    | layout_sizes _ _ ?o ?a ?c = _ =>
        pose proof (layout_sizes_length float_below_min float_share o a c) as Hl
    end.
    rewrite Hsizes in Hl. exact Hl.
  - by eapply depth_lt_children.
  - rewrite Hcs'. cbn [mbind option_bind fmap option_fmap option_map].
    eexists. split; [done|]. unfold splitter_window, set_children.
    cbn [s_window orientation children fields skeleton w_id].
    split; [done|]. by rewrite Hsk.
Qed.

(** What layout of a splitter gives. *)
Lemma splitter_layout_event_tiled fuel s :
  (depth (splitter_window s) < fuel)%nat →
  ∃ s', splitter_layout_event fuel s = Some s' ∧
        s_window s' = s_window (adopted s) ∧ orientation s' = orientation s ∧
        map skeleton (children s') = map skeleton (children s) ∧
        map (get_dimension (orientation s)) (children s')
        = (let '(new_sizes, sum) :=
             layout_sizes float_below_min float_share (orientation s)
                          (layout_available (adopted s)) (children s) in
           layout_dimensions (orientation s) (children s) new_sizes
                             (layout_available (adopted s) - sum)) ∧
        tiled (orientation s) (get_position (orientation s) (splitter_window (adopted s)))
              (children s') ∧
        Forall (λ c', cross_position (orientation s) (fields c')
                      = cross_position (orientation s) (s_window (adopted s)) ∧
                      cross_dimension (orientation s) (fields c')
                      = cross_dimension (orientation s) (s_window (adopted s)) ∧
                      in_place c' = true) (children s').
Proof.
  intros Hd. destruct fuel as [|fuel]; [lia|].
  cbn [wm_splitter_layout_event]. fold (adopted s).
  unfold wm_splitter_layout.
  change (orientation (adopted s)) with (orientation s).
  change (children (adopted s)) with (children s).
  pose proof (layout_sizes_length float_below_min float_share (orientation s)
                (layout_available (adopted s)) (children s)) as Hlen.
  destruct (layout_sizes _ _ _ _ _) as [new_sizes sum]. cbn [fst] in Hlen.
  edestruct (layout_place_tiled (layout_event fuel) fuel (layout_event_skeleton fuel))
    as (cs' & Hcs' & Hsk & Hdims & Htiled & Hcross).
  - by rewrite layout_dimensions_length.
  - by eapply depth_lt_children.
  - rewrite Hcs'. cbn [mbind option_bind]. eexists. split; [done|].
    cbn [set_children s_window orientation children].
    split; [done|]. split; [done|]. split; [done|]. split; [done|].
    split; [|done]. unfold get_position, splitter_window. cbn [fields].
    by destruct (orientation s).
Qed.

(** X14.  After layout of a splitter whose children are distinct windows
    (no window sits in two slots of the array), the children lie one
    after the other along the split, the first at the origin of the
    splitter and a separator column between neighbours of a vertical
    splitter; across the split each child is at the edge of the splitter
    and as large as the splitter; and the fields of each child are those
    of its canvas. *)
Theorem layout_tiles (fuel : nat) (s : wm_splitter) :
  (depth (splitter_window s) < fuel)%nat →
  NoDup (map window_id (children s)) →
  ∃ s', splitter_layout_event fuel s = Some s' ∧
        tiled (orientation s) (get_position (orientation s) (splitter_window (adopted s)))
              (children s') ∧
        Forall (λ c', cross_position (orientation s) (fields c')
                      = cross_position (orientation s) (s_window (adopted s)) ∧
                      cross_dimension (orientation s) (fields c')
                      = cross_dimension (orientation s) (s_window (adopted s)) ∧
                      in_place c' = true) (children s').
Proof.
  intros Hd _.
  destruct (splitter_layout_event_tiled fuel s Hd) as (s' & Hs' & _ & _ & _ & _ & Ht & Hc).
  by exists s'.
Qed.

(** X15.  Layout changes nothing but placements and canvases: the
    splitter keeps its orientation, and its children are afterwards the
    same windows in the same order, each of the same kind, with the same
    minimum size and the same windows nested in it. *)
Theorem layout_keeps_skeleton (fuel : nat) (s : wm_splitter) :
  (depth (splitter_window s) < fuel)%nat →
  ∃ s', splitter_layout_event fuel s = Some s' ∧
        skeleton (splitter_window s') = skeleton (splitter_window s) ∧
        map window_id (children s') = map window_id (children s) ∧
        map minimum_size (children s') = map minimum_size (children s).
Proof.
  intros Hd.
  destruct (splitter_layout_event_tiled fuel s Hd) as (s' & Hs' & Hw & Ho & Hsk & _).
  exists s'. split; [done|].
  assert (∀ (T : Type) (g : wm_window → T),
            (∀ w w', skeleton w' = skeleton w → g w' = g w) →
            map g (children s') = map g (children s)) as Hmap.
  { intros T g Hg. apply list_eq. intros k. rewrite !list_lookup_fmap.
    assert (map skeleton (children s') !! k = map skeleton (children s) !! k) as Hk
        by (by rewrite Hsk).
    rewrite !list_lookup_fmap in Hk.
    destruct (children s' !! k), (children s !! k); simplify_eq/=; [|done].
    f_equal. by apply Hg. }
  split; [|split].
  - unfold splitter_window. cbn [skeleton]. rewrite Hw, Ho, Hsk. done.
  - apply Hmap. apply skeleton_id.
  - apply Hmap. apply skeleton_minimum_size.
Qed.

End splitter_placement.

(** Layout of [nested_rows]. *)
Lemma layout_tiles_witness :
  ∃ s', wm_splitter_layout_event exact_below_min exact_share 3 nested_rows = Some s' ∧
        tiled WM_HORIZONTAL 0 (children s') ∧
        Forall (λ c', cross_position WM_HORIZONTAL (fields c') = 0 ∧
                      cross_dimension WM_HORIZONTAL (fields c') = 81 ∧
                      in_place c' = true) (children s').
Proof.
  apply (layout_tiles exact_below_min exact_share 3 nested_rows).
  - simpl. lia.
  - apply (bool_decide_unpack _). reflexivity.
Defined.

(** Layout of [nested_rows]. *)
Lemma layout_keeps_skeleton_witness :
  ∃ s', wm_splitter_layout_event exact_below_min exact_share 3 nested_rows = Some s' ∧
        skeleton (splitter_window s') = skeleton (splitter_window nested_rows) ∧
        map window_id (children s') = [1; 2]%nat ∧
        map minimum_size (children s') = [(1, 1); (1, 2)].
Proof.
  apply (layout_keeps_skeleton exact_below_min exact_share 3 nested_rows). simpl. lia.
Defined.

(** ** The splitter: the two ways of sharing out *)

Lemma layout_dimensions_no_remainder o : ∀ cs sizes,
  length sizes = length cs → layout_dimensions o cs sizes 0 = sizes.
Proof.
  induction cs as [|c cs IH]; intros [|size sizes] Hlen; simpl in Hlen; try done.
  cbn [layout_dimensions]. unfold layout_dimension, grow_to_minimum.
  assert (∀ fuel d m, grow_loop fuel d m 0 = (d, 0)) as ->.
  { intros [|fuel] d m; [done|]. cbn [grow_loop]. cbn [Z.eqb negb].
    by rewrite andb_false_r. }
  cbn [Z.eqb negb andb]. f_equal. apply IH. lia.
Qed.

Lemma map_const_replicate {A} (q : Z) (l : list A) :
  map (λ _, q) l = replicate (length l) q.
Proof. induction l as [|x l IH]; [done|]. cbn [map length replicate]. by rewrite IH. Qed.

Lemma sum_Z_replicate (n : nat) (q : Z) : sum_Z (replicate n q) = Z.of_nat n * q.
Proof.
  induction n as [|n IH]; [done|]. cbn [replicate]. unfold sum_Z in *.
  cbn [foldr]. rewrite IH. lia.
Qed.

Section splitter_sharing.

Variable float_below_min : Z → Z → Z → bool.
Variable float_share : Z → Z → Z → Z.

Local Abbreviation splitter_layout_event :=
  (wm_splitter_layout_event float_below_min float_share).

Lemma layout_scan_keeps o avail : ∀ cs prev,
  Forall (λ c, float_below_min avail (get_dimension o c) (wm_splitter_min_dimension o c)
               = false ∧
               (real_height (fields c) =? 1) && (real_width (fields c) =? 1) = false) cs →
  (layout_scan float_below_min o avail cs prev).1 = false.
Proof.
  induction cs as [|c cs IH]; intros prev Hcs; [done|].
  apply Forall_cons_1 in Hcs as [[Hmin Hnew] Hcs].
  cbn [layout_scan]. rewrite Hmin, Hnew. by apply IH.
Qed.

Lemma layout_scan_placeholder o avail : ∀ cs prev,
  Exists (λ c, real_height (fields c) = 1 ∧ real_width (fields c) = 1) cs →
  (layout_scan float_below_min o avail cs prev).1 = true.
Proof.
  induction cs as [|c cs IH]; intros prev Hcs; [by apply Exists_nil in Hcs|].
  cbn [layout_scan]. destruct (float_below_min _ _ _); [done|].
  apply Exists_cons in Hcs as [[-> ->]|Hcs]; [done|].
  destruct (_ && _); [done|]. by apply IH.
Qed.

(** X16.  On a splitter whose children are distinct windows (no window
    sits in two slots of the array): when no child calls for the fallback
    (none is below its minimum by the test of the first loop, none is a
    1 x 1 placeholder), layout hands out all the space there is: the
    dimensions of the children along the split add up to the height of
    the splitter, or to its width less the separator columns, whatever
    the single-precision shares come to. *)
Theorem layout_proportional_conserves (fuel : nat) (s : wm_splitter) :
  (depth (splitter_window s) < fuel)%nat →
  NoDup (map window_id (children s)) → children s ≠ [] →
  Forall (λ c, float_below_min (layout_available (adopted s))
                 (get_dimension (orientation s) c)
                 (wm_splitter_min_dimension (orientation s) c) = false ∧
               (real_height (fields c) =? 1) && (real_width (fields c) =? 1) = false)
         (children s) →
  ∃ s', splitter_layout_event fuel s = Some s' ∧
        total (orientation s) (children s') = layout_available (adopted s).
Proof.
  intros Hd _ Hne Hkeep.
  destruct (splitter_layout_event_tiled float_below_min float_share fuel s Hd)
    as (s' & Hs' & _ & _ & _ & Hdims & _).
  exists s'. split; [done|]. unfold total. rewrite Hdims.
  pose proof (layout_sizes_length float_below_min float_share (orientation s)
                (layout_available (adopted s)) (children s)) as Hlen.
  unfold layout_sizes in *.
  pose proof (layout_scan_keeps (orientation s) (layout_available (adopted s))
                (children s) 0 Hkeep) as Hscan.
  destruct (layout_scan _ _ _ _ _) as [redistribute prev]. cbn [fst] in Hscan.
  subst redistribute. cbn [fst] in Hlen.
  rewrite layout_dimensions_sum by done. rewrite fold_left_add_sum. lia.
Qed.

(** X17.  When a child is a 1 x 1 placeholder, as a window just inserted
    is, layout gives every child the same share: the space there is,
    divided by the number of children and rounded down, whatever the
    minimum sizes are; what the division leaves is handed to no child. *)
Theorem layout_fallback_equal_shares (fuel : nat) (s : wm_splitter) :
  (depth (splitter_window s) < fuel)%nat →
  Exists (λ c, real_height (fields c) = 1 ∧ real_width (fields c) = 1) (children s) →
  ∃ s', splitter_layout_event fuel s = Some s' ∧
        map (get_dimension (orientation s)) (children s')
        = replicate (length (children s))
            (Z.quot (layout_available (adopted s)) (Z.of_nat (length (children s)))) ∧
        total (orientation s) (children s')
        = Z.of_nat (length (children s))
          * Z.quot (layout_available (adopted s)) (Z.of_nat (length (children s))).
Proof.
  intros Hd Hnew.
  destruct (splitter_layout_event_tiled float_below_min float_share fuel s Hd)
    as (s' & Hs' & _ & _ & _ & Hdims & _).
  exists s'. split; [done|].
  assert (map (get_dimension (orientation s)) (children s')
          = replicate (length (children s))
              (Z.quot (layout_available (adopted s)) (Z.of_nat (length (children s)))))
    as Hshares.
  { rewrite Hdims. unfold layout_sizes.
    pose proof (layout_scan_placeholder (orientation s) (layout_available (adopted s))
                  (children s) 0 Hnew) as Hscan.
    destruct (layout_scan _ _ _ _ _) as [redistribute prev]. cbn [fst] in Hscan.
    subst redistribute. rewrite Z.sub_diag.
    rewrite layout_dimensions_no_remainder by (by rewrite length_map).
    apply map_const_replicate. }
  split; [done|]. unfold total. rewrite Hshares. apply sum_Z_replicate.
Qed.

End splitter_sharing.

(** Layout of [three_rows] in a splitter that has grown to 31 rows. *)
Lemma layout_proportional_conserves_witness :
  ∃ s', wm_splitter_layout_event exact_below_min exact_share 2
          (placed_splitter 0 0 0 31 80 WM_HORIZONTAL (children three_rows)) = Some s' ∧
        total WM_HORIZONTAL (children s') = 31.
Proof.
  apply (layout_proportional_conserves exact_below_min exact_share 2
           (placed_splitter 0 0 0 31 80 WM_HORIZONTAL (children three_rows))).
  - simpl. lia.
  - apply (bool_decide_unpack _). reflexivity.
  - discriminate.
  - repeat constructor.
Defined.

(** Layout of [two_rows], whose second pane was just inserted. *)
Lemma layout_fallback_equal_shares_witness :
  ∃ s', wm_splitter_layout_event exact_below_min exact_share 2 two_rows = Some s' ∧
        map (get_dimension WM_HORIZONTAL) (children s') = [10; 10] ∧
        total WM_HORIZONTAL (children s') = 2 * 10.
Proof.
  apply (layout_fallback_equal_shares exact_below_min exact_share 2 two_rows).
  - simpl. lia.
  - apply Exists_cons_tl, Exists_cons_hd. split; reflexivity.
Defined.

(** ** The splitter: what resize does to the row of children *)

Lemma get_position_add_position o d w :
  get_position o (add_position o d w) = get_position o w + d.
Proof. unfold get_position, add_position. rewrite fields_with_fields. by destruct o. Qed.

Lemma get_position_add_dimension o d w :
  get_position o (add_dimension o d w) = get_position o w.
Proof. unfold get_position, add_dimension. rewrite fields_with_fields. by destruct o. Qed.

Lemma minimum_size_with_fields g w : minimum_size (with_fields g w) = minimum_size w.
Proof. by destruct w. Qed.

Lemma min_dimension_add_position o d w :
  wm_splitter_min_dimension o (add_position o d w) = wm_splitter_min_dimension o w.
Proof. unfold wm_splitter_min_dimension, add_position. by rewrite minimum_size_with_fields. Qed.

Lemma min_dimension_add_dimension o d w :
  wm_splitter_min_dimension o (add_dimension o d w) = wm_splitter_min_dimension o w.
Proof. unfold wm_splitter_min_dimension, add_dimension. by rewrite minimum_size_with_fields. Qed.

Lemma tiled_lookup o : ∀ cs position,
  tiled o position cs ↔
  (∀ c, cs !! O = Some c → get_position o c = position) ∧
  (∀ k c c', cs !! k = Some c → cs !! S k = Some c' →
             get_position o c' = get_position o c + get_dimension o c + separator o).
Proof.
  induction cs as [|x cs IH]; intros position; cbn [tiled].
  { split; [|done]. intros _. split; intros; done. }
  rewrite IH. split.
  - intros (Hx & Hfirst & Hnext). split; [by intros c [= <-]|].
    intros [|k] c c' Hc Hc'; simplify_eq/=.
    + rewrite (Hfirst c' Hc'). lia.
    + by apply (Hnext k).
  - intros (Hfirst & Hnext). split; [by apply Hfirst|]. split.
    + intros c Hc. rewrite (Hnext O x c eq_refl Hc), (Hfirst x eq_refl). lia.
    + intros k c c' Hc Hc'. by apply (Hnext (S k)).
Qed.

(** Children whose positions and dimensions change by [dp k] and [dd k]
    at the index [k] still lie one after the other when each change of
    position makes up for the changes before it. *)
Lemma tiled_effect o position (dp dd : nat → Z) cs cs' :
  (∀ k c', cs' !! k = Some c' →
           ∃ c, cs !! k = Some c ∧ get_position o c' = get_position o c + dp k ∧
                get_dimension o c' = get_dimension o c + dd k) →
  dp O = 0 → (∀ k, (S k < length cs)%nat → dp (S k) = dp k + dd k) →
  tiled o position cs → tiled o position cs'.
Proof.
  intros Heff H0 Hstep Ht. apply tiled_lookup in Ht as [Hfirst Hnext].
  apply tiled_lookup. split.
  - intros c' Hc'. destruct (Heff O c' Hc') as (c & Hc & Hp & _).
    rewrite Hp, H0, (Hfirst c Hc). lia.
  - intros k c1' c2' H1 H2.
    destruct (Heff k c1' H1) as (c1 & Hc1 & Hp1 & Hd1).
    destruct (Heff (S k) c2' H2) as (c2 & Hc2 & Hp2 & Hd2).
    rewrite Hp2, Hp1, Hd1, (Hnext k c1 c2 Hc1 Hc2).
    rewrite (Hstep k) by (apply lookup_lt_Some in Hc2; lia). lia.
Qed.

Lemma lookup_shift_between o d lo hi cs k :
  shift_between o d lo hi cs !! k
  = (λ c, if bool_decide (lo ≤ k < hi)%nat then add_position o d c else c) <$> cs !! k.
Proof.
  unfold shift_between. rewrite list_lookup_imap.
  destruct (cs !! k) as [c|]; [|done]. cbn [fmap option_fmap option_map]. f_equal.
  destruct (Nat.leb_spec lo k); destruct (Nat.ltb_spec k hi); cbn [andb];
    (rewrite bool_decide_true by lia) || (rewrite bool_decide_false by lia); done.
Qed.

Create Rewrite HintDb geometry.
#[local] Hint Rewrite get_position_add_position get_position_add_dimension
  get_dimension_add_position get_dimension_add_dimension
  min_dimension_add_position min_dimension_add_dimension : geometry.

Ltac decide_ranges :=
  repeat first [rewrite bool_decide_true by lia | rewrite bool_decide_false by lia].

Ltac lookup_altered H :=
  repeat first [rewrite list_lookup_alter_eq in H
               |rewrite list_lookup_alter_ne in H by lia];
  repeat match type of H with
         | _ <$> _ = Some _ =>
             let c := fresh "c" in
             let Hc := fresh "Hc" in
             apply fmap_Some in H as (c & Hc & ->); rename Hc into H
         end.

(** One turn of "borrow from successors", child by child. *)
Lemma borrow_successor_effect o i j ch cs k c' :
  (i < j)%nat →
  shift_between o ch (S i) j
    (alter (add_dimension o ch) i
       (alter (add_dimension o (- ch)) j (alter (add_position o ch) j cs))) !! k = Some c' →
  ∃ c, cs !! k = Some c ∧
       get_position o c' = get_position o c + (if bool_decide (i < k ≤ j)%nat then ch else 0) ∧
       get_dimension o c'
       = get_dimension o c + (if bool_decide (k = i) then ch else 0)
         - (if bool_decide (k = j) then ch else 0) ∧
       wm_splitter_min_dimension o c' = wm_splitter_min_dimension o c.
Proof.
  intros Hij H. rewrite lookup_shift_between in H.
  apply fmap_Some in H as (c3 & H & ->).
  destruct (decide (k = j)) as [->|Hkj]; [|destruct (decide (k = i)) as [->|Hki]];
    lookup_altered H; eexists; (split; [exact H|]);
    match goal with
    | |- context [bool_decide (?lo ≤ k < ?hi)%nat] => destruct (decide (lo ≤ k < hi)%nat)
    | |- context [bool_decide (?lo ≤ ?k' < ?hi)%nat] => destruct (decide (lo ≤ k' < hi)%nat)
    end;
    decide_ranges; autorewrite with geometry; (split; [lia|]); (split; [lia|done]).
Qed.

(** One turn of "borrow from predecessors", child by child. *)
Lemma borrow_predecessor_effect o i j ch cs k c' :
  (j < i)%nat →
  shift_between o (- ch) (S j) i
    (alter (add_dimension o ch) i
       (alter (add_position o (- ch)) i (alter (add_dimension o (- ch)) j cs))) !! k
  = Some c' →
  ∃ c, cs !! k = Some c ∧
       get_position o c' = get_position o c - (if bool_decide (j < k ≤ i)%nat then ch else 0) ∧
       get_dimension o c'
       = get_dimension o c + (if bool_decide (k = i) then ch else 0)
         - (if bool_decide (k = j) then ch else 0) ∧
       wm_splitter_min_dimension o c' = wm_splitter_min_dimension o c.
Proof.
  intros Hji H. rewrite lookup_shift_between in H.
  apply fmap_Some in H as (c3 & H & ->).
  destruct (decide (k = i)) as [->|Hki]; [|destruct (decide (k = j)) as [->|Hkj]];
    lookup_altered H; eexists; (split; [exact H|]);
    match goal with
    | |- context [bool_decide (?lo ≤ k < ?hi)%nat] => destruct (decide (lo ≤ k < hi)%nat)
    | |- context [bool_decide (?lo ≤ ?k' < ?hi)%nat] => destruct (decide (lo ≤ k' < hi)%nat)
    end;
    decide_ranges; autorewrite with geometry; (split; [lia|]); (split; [lia|done]).
Qed.

Lemma borrow_successors_tiled o i desired_change position fuel : ∀ j actual_change cs a cs',
  (i < j)%nat →
  borrow_successors fuel o i j desired_change actual_change cs = Some (a, cs') →
  tiled o position cs → tiled o position cs'.
Proof.
  induction fuel as [|fuel IH]; intros j actual_change cs a cs' Hij H Ht; [done|].
  cbn [borrow_successors] in H.
  destruct (negb _ && _); [|by injection H as <- <-].
  apply bind_Some in H as (child & Hchild & H). cbv zeta in H.
  set (this_change := if _ <? _ then _ else _) in H.
  eapply IH; [|exact H|]; [lia|].
  eapply (tiled_effect o position
            (λ k, if bool_decide (i < k ≤ j)%nat then this_change else 0)
            (λ k, (if bool_decide (k = i) then this_change else 0)
                  - (if bool_decide (k = j) then this_change else 0)));
    [|by rewrite bool_decide_false by lia| |exact Ht].
  - intros k c' Hc'.
    destruct (borrow_successor_effect o i j this_change cs k c' Hij Hc')
      as (c & Hc & Hp & Hd & _). exists c. split; [done|]. split; [exact Hp|lia].
  - intros k _. repeat case_bool_decide; lia.
Qed.

Lemma borrow_predecessors_tiled o i desired_change position : ∀ m actual_change cs a cs',
  (m ≤ i)%nat →
  borrow_predecessors m o i desired_change actual_change cs = Some (a, cs') →
  tiled o position cs → tiled o position cs'.
Proof.
  induction m as [|j IH]; intros actual_change cs a cs' Hmi H Ht.
  { by injection H as <- <-. }
  cbn [borrow_predecessors] in H.
  destruct (negb _); [|by injection H as <- <-].
  apply bind_Some in H as (child & Hchild & H). cbv zeta in H.
  set (this_change := if _ <? _ then _ else _) in H.
  eapply IH; [|exact H|]; [lia|].
  eapply (tiled_effect o position
            (λ k, - (if bool_decide (j < k ≤ i)%nat then this_change else 0))
            (λ k, (if bool_decide (k = i) then this_change else 0)
                  - (if bool_decide (k = j) then this_change else 0)));
    [|by rewrite bool_decide_false by lia| |exact Ht].
  - intros k c' Hc'.
    destruct (borrow_predecessor_effect o i j this_change cs k c' ltac:(lia) Hc')
      as (c & Hc & Hp & Hd & _). exists c. split; [done|]. split; lia.
  - intros k _. repeat case_bool_decide; lia.
Qed.

(** The arithmetic of [wm_splitter_resize_window] leaves the children one
    after the other. *)
Lemma resize_children_tiled o i desired_change position cs cs' :
  (i < length cs)%nat → length cs ≠ 1%nat →
  resize_children o i desired_change cs = Some cs' →
  tiled o position cs → tiled o position cs'.
Proof.
  intros Hi Hlen H Ht. unfold resize_children in H.
  destruct (desired_change <? 0).
  - destruct (Nat.eqb_spec (S i) (length cs)) as [Hlast|Hmid];
      apply bind_Some in H as (cn & Hcn & H); injection H as <-.
    + eapply (tiled_effect o position
                (λ k, if bool_decide (k = i) then - desired_change else 0)
                (λ k, (if bool_decide (k = i) then desired_change else 0)
                      - (if bool_decide (k = pred i) then desired_change else 0)));
        [|by rewrite bool_decide_false by lia| |exact Ht].
      * intros k c' H.
        destruct (decide (k = i)) as [->|Hki];
          [|destruct (decide (k = pred i)) as [->|Hkn]];
          lookup_altered H; eexists; (split; [exact H|]);
          decide_ranges; autorewrite with geometry; split; lia.
      * intros k Hk. repeat case_bool_decide; lia.
    + eapply (tiled_effect o position
                (λ k, if bool_decide (k = S i) then desired_change else 0)
                (λ k, (if bool_decide (k = i) then desired_change else 0)
                      - (if bool_decide (k = S i) then desired_change else 0)));
        [|by rewrite bool_decide_false by lia| |exact Ht].
      * intros k c' H.
        destruct (decide (k = i)) as [->|Hki];
          [|destruct (decide (k = S i)) as [->|Hkn]];
          lookup_altered H; eexists; (split; [exact H|]);
          decide_ranges; autorewrite with geometry; split; lia.
      * intros k Hk. repeat case_bool_decide; lia.
  - apply bind_Some in H as ([a cs1] & H1 & H).
    apply bind_Some in H as ([a' cs2] & H2 & H). injection H as <-.
    eapply borrow_predecessors_tiled; [|exact H2|]; [lia|].
    eapply borrow_successors_tiled; [|exact H1|exact Ht]. lia.
Qed.

Lemma replaced_position o c1 c' :
  replaced c1 c' → get_position o c' = get_position o c1.
Proof. intros (_ & Ht & Hl & _). unfold get_position. by destruct o. Qed.

Section splitter_resize_rows.

Variable float_below_min : Z → Z → Z → bool.
Variable float_share : Z → Z → Z → Z.

Local Abbreviation resize := (wm_splitter_resize_window float_below_min float_share).


End splitter_resize_rows.


(** ** The splitter: the size resize gives *)

Lemma borrow_successors_borrowing o i desired_change cs0 fuel : ∀ j actual_change cs,
  (i < j)%nat → (length cs - j < fuel)%nat →
  borrowing o i desired_change actual_change cs0 cs (λ k, i < k < j)%nat →
  ∃ a cs', borrow_successors fuel o i j desired_change actual_change cs = Some (a, cs') ∧
           borrowing o i desired_change a cs0 cs' (λ k, i < k)%nat.
Proof.
  induction fuel as [|fuel IH]; intros j actual_change cs Hij Hf Hinv; [lia|].
  pose proof Hinv as (Hlen & Hact & Hall & Hex).
  cbn [borrow_successors].
  destruct (Z.eqb_spec actual_change desired_change) as [Heq|Hne]; cbn [negb andb].
  { exists actual_change, cs. split; [done|]. split; [done|]. split; [done|].
    split; [done|by left]. }
  destruct (Nat.ltb_spec j (length cs)) as [Hj|Hend].
  2: { exists actual_change, cs. split; [done|]. split; [done|]. split; [done|].
       split; [done|]. destruct Hex as [|Hex]; [by left|right].
       intros k c Hk Hc. apply (Hex k c); [|done].
       apply lookup_lt_Some in Hc. lia. }
  destruct (lookup_lt_is_Some_2 cs j Hj) as [child Hchild].
  rewrite Hchild. cbn [mbind option_bind].
  destruct (lookup_lt_is_Some_2 cs0 j ltac:(lia)) as [child0 Hchild0].
  destruct (Hall j child0 child Hchild0 Hchild) as (_ & Hmin & _).
  specialize (Hmin ltac:(lia)).
  set (this_change := if _ <? _ then _ else _).
  assert (0 ≤ this_change ≤ desired_change - actual_change ∧
          this_change ≤ get_dimension o child - wm_splitter_min_dimension o child ∧
          (this_change = desired_change - actual_change
           ∨ this_change = get_dimension o child - wm_splitter_min_dimension o child))
    as (Hthis & Havail & Hwhich).
  { subst this_change.
    destruct (Z.ltb_spec (get_dimension o child - wm_splitter_min_dimension o child)
                (desired_change - actual_change)); lia. }
  apply IH; [lia|unfold shift_between; rewrite length_imap, !length_alter; lia|].
  split; [unfold shift_between; by rewrite length_imap, !length_alter|].
  split; [lia|]. split.
  - intros k c0 c' Hc0 Hc'.
    destruct (borrow_successor_effect o i j this_change cs k c' Hij Hc')
      as (c & Hc & _ & Hd & Hm).
    destruct (Hall k c0 c Hc0 Hc) as (Hm0 & Hmin0 & Hi0).
    split; [congruence|]. split.
    + intros Hki. specialize (Hmin0 Hki). rewrite Hm, Hd.
      rewrite (bool_decide_false (k = i)) by done.
      destruct (decide (k = j)) as [->|Hkj];
        [rewrite bool_decide_true by done|rewrite bool_decide_false by done; lia].
      assert (c = child) as -> by congruence. lia.
    + intros ->. rewrite Hd, (Hi0 eq_refl).
      rewrite bool_decide_true by done. rewrite bool_decide_false by lia. lia.
  - destruct Hwhich as [Hall_taken|Hdry]; [left; lia|right].
    intros k c' Hk Hc'.
    destruct (borrow_successor_effect o i j this_change cs k c' Hij Hc')
      as (c & Hc & _ & Hd & Hm).
    rewrite Hm, Hd. rewrite (bool_decide_false (k = i)) by lia.
    destruct (decide (k = j)) as [->|Hkj];
      [rewrite bool_decide_true by done|rewrite bool_decide_false by done].
    + assert (c = child) as -> by congruence. lia.
    + destruct Hex as [|Hex]; [done|]. rewrite (Hex k c); [lia|lia|done].
Qed.

Lemma borrow_predecessors_borrowing o i desired_change cs0 : ∀ m actual_change cs,
  (m ≤ i)%nat → (i < length cs)%nat →
  borrowing o i desired_change actual_change cs0 cs (λ k, i < k ∨ m ≤ k < i)%nat →
  ∃ a cs', borrow_predecessors m o i desired_change actual_change cs = Some (a, cs') ∧
           borrowing o i desired_change a cs0 cs' (λ k, k ≠ i).
Proof.
  induction m as [|j IH]; intros actual_change cs Hmi Hi Hinv;
    pose proof Hinv as (Hlen & Hact & Hall & Hex).
  { exists actual_change, cs. split; [done|]. split; [done|]. split; [done|].
    split; [done|]. destruct Hex as [|Hex]; [by left|right].
    intros k c Hk Hc. apply (Hex k c); [lia|done]. }
  cbn [borrow_predecessors].
  destruct (Z.eqb_spec actual_change desired_change) as [Heq|Hne]; cbn [negb].
  { exists actual_change, cs. split; [done|]. split; [done|]. split; [done|].
    split; [done|by left]. }
  destruct (lookup_lt_is_Some_2 cs j ltac:(lia)) as [child Hchild].
  rewrite Hchild. cbn [mbind option_bind].
  destruct (lookup_lt_is_Some_2 cs0 j ltac:(lia)) as [child0 Hchild0].
  destruct (Hall j child0 child Hchild0 Hchild) as (_ & Hmin & _).
  specialize (Hmin ltac:(lia)).
  set (this_change := if _ <? _ then _ else _).
  assert (0 ≤ this_change ≤ desired_change - actual_change ∧
          this_change ≤ get_dimension o child - wm_splitter_min_dimension o child ∧
          (this_change = desired_change - actual_change
           ∨ this_change = get_dimension o child - wm_splitter_min_dimension o child))
    as (Hthis & Havail & Hwhich).
  { subst this_change.
    destruct (Z.ltb_spec (get_dimension o child - wm_splitter_min_dimension o child)
                (desired_change - actual_change)); lia. }
  apply IH; [lia|unfold shift_between; rewrite length_imap, !length_alter; lia|].
  split; [unfold shift_between; by rewrite length_imap, !length_alter|].
  split; [lia|]. split.
  - intros k c0 c' Hc0 Hc'.
    destruct (borrow_predecessor_effect o i j this_change cs k c' ltac:(lia) Hc')
      as (c & Hc & _ & Hd & Hm).
    destruct (Hall k c0 c Hc0 Hc) as (Hm0 & Hmin0 & Hi0).
    split; [congruence|]. split.
    + intros Hki. specialize (Hmin0 Hki). rewrite Hm, Hd.
      rewrite (bool_decide_false (k = i)) by done.
      destruct (decide (k = j)) as [->|Hkj];
        [rewrite bool_decide_true by done|rewrite bool_decide_false by done; lia].
      assert (c = child) as -> by congruence. lia.
    + intros ->. rewrite Hd, (Hi0 eq_refl).
      rewrite bool_decide_true by done. rewrite bool_decide_false by lia. lia.
  - destruct Hwhich as [Hall_taken|Hdry]; [left; lia|right].
    intros k c' Hk Hc'.
    destruct (borrow_predecessor_effect o i j this_change cs k c' ltac:(lia) Hc')
      as (c & Hc & _ & Hd & Hm).
    rewrite Hm, Hd. rewrite (bool_decide_false (k = i)) by lia.
    destruct (decide (k = j)) as [->|Hkj];
      [rewrite bool_decide_true by done|rewrite bool_decide_false by done].
    + assert (c = child) as -> by congruence. lia.
    + destruct Hex as [|Hex]; [done|]. rewrite (Hex k c); [lia|lia|done].
Qed.

(** The arithmetic of [wm_splitter_resize_window] on children that are
    all at least as large as their minimum: they stay so; the child at
    [i] gets the change desired, or what the others can give before they
    are all down to their minimum. *)
Lemma resize_children_sizes o i desired_change cs ci :
  cs !! i = Some ci → length cs ≠ 1%nat →
  Forall (λ c, wm_splitter_min_dimension o c ≤ get_dimension o c) cs →
  wm_splitter_min_dimension o ci ≤ get_dimension o ci + desired_change →
  ∃ cs' a,
    resize_children o i desired_change cs = Some cs' ∧ length cs' = length cs ∧
    (∀ k c c', cs !! k = Some c → cs' !! k = Some c' →
               wm_splitter_min_dimension o c' = wm_splitter_min_dimension o c ∧
               wm_splitter_min_dimension o c' ≤ get_dimension o c' ∧
               (k = i → get_dimension o c' = get_dimension o c + a)) ∧
    (a = desired_change
     ∨ 0 ≤ a ≤ desired_change ∧
       ∀ k c', k ≠ i → cs' !! k = Some c' →
               get_dimension o c' = wm_splitter_min_dimension o c').
Proof.
  intros Hci Hlen Hmins Hfits. pose proof (lookup_lt_Some _ _ _ Hci) as Hi.
  unfold resize_children.
  destruct (Z.ltb_spec desired_change 0) as [Hneg|Hpos].
  - destruct (Nat.eqb_spec (S i) (length cs)) as [Hlast|Hmid].
    + destruct (lookup_lt_is_Some_2 cs (pred i) ltac:(lia)) as [cn Hcn].
      rewrite Hcn. cbn [mbind option_bind]. eexists _, desired_change.
      split; [done|]. split; [by rewrite !length_alter|]. split; [|by left].
      intros k c c' Hc H.
      pose proof (Forall_lookup_1 _ _ _ _ Hmins Hc) as Hmin. cbv beta in Hmin.
      destruct (decide (k = i)) as [->|Hki];
        [|destruct (decide (k = pred i)) as [->|Hkn]];
        lookup_altered H; simplify_eq; autorewrite with geometry;
        (split; [done|]); (split; [lia|]); intros; (done || lia).
    + destruct (lookup_lt_is_Some_2 cs (S i) ltac:(lia)) as [cn Hcn].
      rewrite Hcn. cbn [mbind option_bind]. eexists _, desired_change.
      split; [done|]. split; [by rewrite !length_alter|]. split; [|by left].
      intros k c c' Hc H.
      pose proof (Forall_lookup_1 _ _ _ _ Hmins Hc) as Hmin. cbv beta in Hmin.
      destruct (decide (k = i)) as [->|Hki];
        [|destruct (decide (k = S i)) as [->|Hkn]];
        lookup_altered H; simplify_eq; autorewrite with geometry;
        (split; [done|]); (split; [lia|]); intros; (done || lia).
  - destruct (borrow_successors_borrowing o i desired_change cs (length cs) (S i) 0 cs)
      as (a1 & cs1 & Hb1 & Hinv1); [lia|lia| |].
    { split; [done|]. split; [lia|]. split; [|right; intros k c Hk; lia].
      intros k c0 c Hc0 Hc. assert (c = c0) as -> by congruence.
      split; [done|]. split; [|intros _; lia].
      intros _. apply (Forall_lookup_1 _ _ _ _ Hmins Hc0). }
    rewrite Hb1. cbn [mbind option_bind].
    pose proof Hinv1 as (Hlen1 & _).
    destruct (borrow_predecessors_borrowing o i desired_change cs i a1 cs1)
      as (a & cs' & Hb2 & Hlen' & Hact & Hall & Hex); [lia|lia| |].
    { destruct Hinv1 as (? & ? & ? & Hex1). split; [done|]. split; [done|].
      split; [done|]. destruct Hex1 as [|Hex1]; [by left|right].
      intros k c Hk Hc. apply (Hex1 k c); [lia|done]. }
    rewrite Hb2. cbn [mbind option_bind]. exists cs', a.
    split; [done|]. split; [done|]. split.
    + intros k c c' Hc Hc'. destruct (Hall k c c' Hc Hc') as (Hm & Hmin & Hgrow).
      split; [done|]. split; [|done].
      destruct (decide (k = i)) as [->|Hki]; [|by apply Hmin].
      rewrite (Hgrow eq_refl), Hm. assert (c = ci) as -> by congruence.
      pose proof (Forall_lookup_1 _ _ _ _ Hmins Hci) as Hmin_i. cbv beta in Hmin_i. lia.
    + destruct Hex as [|Hex]; [by left|right]. split; [done|].
      intros k c' Hk Hc'. by apply (Hex k c').
Qed.

Lemma sum_Z_le {A} (f g : A → Z) : ∀ cs : list A,
  (∀ k c, cs !! k = Some c → f c ≤ g c) → sum_Z (map f cs) ≤ sum_Z (map g cs).
Proof.
  induction cs as [|x cs IH]; intros H; [done|].
  unfold sum_Z in *. cbn [map foldr].
  pose proof (H O x eq_refl). specialize (IH (λ k c, H (S k) c)). lia.
Qed.

Lemma sum_except_le {A} (f g : A → Z) : ∀ (cs : list A) i ci,
  cs !! i = Some ci → (∀ k c, k ≠ i → cs !! k = Some c → f c ≤ g c) →
  sum_Z (map f cs) - f ci ≤ sum_Z (map g cs) - g ci.
Proof.
  induction cs as [|x cs IH]; intros [|i] ci Hci H; try done.
  - injection Hci as ->. unfold sum_Z. cbn [map foldr].
    pose proof (sum_Z_le f g cs (λ k c, H (S k) c ltac:(lia))) as Hle.
    unfold sum_Z in Hle. lia.
  - unfold sum_Z in *. cbn [map foldr].
    pose proof (H O x ltac:(lia) eq_refl).
    specialize (IH i ci Hci (λ k c Hk, H (S k) c ltac:(lia))). lia.
Qed.

Lemma sum_except {A} (f g : A → Z) (cs : list A) i ci :
  cs !! i = Some ci → (∀ k c, k ≠ i → cs !! k = Some c → f c = g c) →
  sum_Z (map f cs) - f ci = sum_Z (map g cs) - g ci.
Proof.
  intros Hci H.
  pose proof (sum_except_le f g cs i ci Hci) as H1.
  pose proof (sum_except_le g f cs i ci Hci) as H2.
  assert (sum_Z (map f cs) - f ci ≤ sum_Z (map g cs) - g ci)
    by (apply H1; intros k c Hk Hc; rewrite (H k c Hk Hc); lia).
  assert (sum_Z (map g cs) - g ci ≤ sum_Z (map f cs) - f ci)
    by (apply H2; intros k c Hk Hc; rewrite (H k c Hk Hc); lia).
  lia.
Qed.

Lemma sum_Z_pointwise {A} (f : A → Z) : ∀ cs cs' : list A,
  length cs' = length cs →
  (∀ k c c', cs !! k = Some c → cs' !! k = Some c' → f c' = f c) →
  sum_Z (map f cs') = sum_Z (map f cs).
Proof.
  induction cs as [|x cs IH]; intros [|x' cs'] Hlen H; try done.
  unfold sum_Z in *. cbn [map foldr].
  rewrite (H O x x' eq_refl eq_refl).
  rewrite (IH cs'); [done|simpl in Hlen; lia|]. intros k c c'. apply (H (S k)).
Qed.

(** [max] in [wm_splitter_resize_window]: the space there is, less the
    minimum sizes of the other children. *)
Lemma resize_max_sum s i window :
  NoDup (map window_id (children s)) → children s !! i = Some window →
  resize_max s (window_id window)
  = layout_available s
    - (sum_Z (map (wm_splitter_min_dimension (orientation s)) (children s))
       - wm_splitter_min_dimension (orientation s) window).
Proof.
  intros Hnd Hi. unfold resize_max.
  assert (∀ cs a,
            fold_left (λ max child,
                         if decide (window_id child = window_id window) then max
                         else max - wm_splitter_min_dimension (orientation s) child) cs a
            = a - sum_Z (map (λ c, if decide (window_id c = window_id window) then 0
                                   else wm_splitter_min_dimension (orientation s) c) cs))
    as ->.
  { induction cs as [|x cs IH]; intros a; [unfold sum_Z; simpl; lia|].
    cbn [fold_left map]. rewrite IH. unfold sum_Z. cbn [foldr].
    destruct (decide _); lia. }
  pose proof (sum_except
                (λ c, if decide (window_id c = window_id window) then 0
                      else wm_splitter_min_dimension (orientation s) c)
                (wm_splitter_min_dimension (orientation s)) (children s) i window Hi) as H.
  cbv beta in H. rewrite decide_True in H by done. rewrite <- H; [lia|].
  intros k c Hk Hc. rewrite decide_False; [done|]. intros Hid. apply Hk.
  apply (NoDup_lookup _ k i (window_id window) Hnd).
  - by rewrite list_lookup_fmap, Hc, <- Hid.
  - by rewrite list_lookup_fmap, Hi.
Qed.

Lemma find_child_NoDup s i window :
  NoDup (map window_id (children s)) → children s !! i = Some window →
  wm_splitter_find_child s (window_id window) = Some i.
Proof.
  intros Hnd Hi.
  destruct (find_child_In s (window_id window)) as [j Hj].
  { apply list_elem_of_fmap. exists window. split; [done|].
    by apply list_elem_of_lookup_2 in Hi. }
  rewrite Hj. f_equal.
  apply find_child_Some in Hj as (child & Hchild & Hid).
  apply (NoDup_lookup _ j i (window_id window) Hnd).
  - by rewrite list_lookup_fmap, Hchild, <- Hid.
  - by rewrite list_lookup_fmap, Hi.
Qed.

Section splitter_resize_size.

Variable float_below_min : Z → Z → Z → bool.
Variable float_share : Z → Z → Z → Z.

Local Abbreviation resize := (wm_splitter_resize_window float_below_min float_share).

(** "Place windows that have been updated" changes no minimum size. *)
Lemma resize_place_minimum fuel : ∀ cs cs',
  Forall (λ c, (depth c < fuel)%nat) cs →
  resize_place float_below_min float_share fuel cs = Some cs' →
  Forall2 (λ c c', minimum_size c' = minimum_size c) cs cs'.
Proof.
  induction cs as [|c cs IH]; intros cs' Hd H.
  { injection H as <-. constructor. }
  apply Forall_cons_1 in Hd as [Hc Hcs]. cbn [resize_place] in H.
  apply bind_Some in H as (c' & Hc' & H). apply bind_Some in H as (rest' & Hrest & H).
  injection H as <-. constructor; [|by apply IH].
  destruct (in_place c); [by injection Hc' as <-|].
  unfold wm_splitter_place_window in Hc'.
  edestruct (layout_event_skeleton float_below_min float_share fuel)
    as (c'' & Hc'' & _ & Hsk); [|rewrite Hc'' in Hc'].
  { unfold set_cwindow. by rewrite depth_with_fields. }
  injection Hc' as <-. rewrite skeleton_set_cwindow in Hsk.
  by apply skeleton_minimum_size.
Qed.


End splitter_resize_size.


(** ** The splitter: the window at the cursor, and the neighbours *)

Lemma window_at_splitter cursor_pos f o cs :
  window_at cursor_pos (Splitter f o cs)
  = child ← find_child_at o cursor_pos cs true; window_at cursor_pos child.
Proof.
  cbn [window_at].
  match goal with
  | |- ?loop cs true = _ =>
      assert (∀ first, loop cs first
                       = find_child_at o cursor_pos cs first ≫= window_at cursor_pos)
        as H; [|apply H]
  end.
  induction cs as [|c cs IH]; intros first; [done|].
  cbn [find_child_at]. destruct (window_at_hit _ _ _ _ _); [done|]. apply IH.
Qed.

Lemma find_child_at_elem o cursor_pos : ∀ cs first child,
  find_child_at o cursor_pos cs first = Some child → child ∈ cs.
Proof.
  induction cs as [|c cs IH]; intros first child H; [done|].
  cbn [find_child_at] in H. destruct (window_at_hit _ _ _ _ _).
  - injection H as <-. apply list_elem_of_here.
  - apply list_elem_of_further. by eapply IH.
Qed.

Lemma window_at_pane cursor_pos n : ∀ w found,
  (depth w < n)%nat → window_at cursor_pos w = Some found → is_pane found.
Proof.
  induction n as [|n IH]; intros w found Hd H; [lia|].
  destruct w as [f h v|f o cs]; [by injection H as <-|].
  rewrite window_at_splitter in H. apply bind_Some in H as (child & Hchild & H).
  apply find_child_at_elem in Hchild. apply depth_lt_children in Hd.
  apply list_elem_of_lookup in Hchild as [k Hk].
  apply (IH child); [|done]. by apply (Forall_lookup_1 _ _ _ _ Hd Hk).
Qed.

(** X20.  [wm_splitter_find_window_at] never answers with a splitter:
    what it finds is a pane, however deep the search goes. *)
Theorem find_window_at_is_pane (s : wm_splitter) (cursor_pos : wm_position)
    (found : wm_window) :
  wm_splitter_find_window_at s cursor_pos = Some found → is_pane found.
Proof.
  unfold wm_splitter_find_window_at.
  apply (window_at_pane cursor_pos (S (depth (splitter_window s)))). lia.
Qed.

(** The pane of [nested_rows] at row 12, column 50. *)
Lemma find_window_at_is_pane_witness :
  wm_splitter_find_window_at nested_rows (mk_position 12 50) = Some (placed_pane 4 10 41 10 40) ∧
  is_pane (placed_pane 4 10 41 10 40).
Proof.
  split; [reflexivity|].
  apply (find_window_at_is_pane nested_rows (mk_position 12 50)). reflexivity.
Defined.

Lemma find_child_at_rows cursor_pos : ∀ cs position first,
  cs ≠ [] → tiled WM_HORIZONTAL position cs →
  first = true ∨ position ≤ p_top cursor_pos →
  ∃ child, find_child_at WM_HORIZONTAL cursor_pos cs first = Some child.
Proof.
  induction cs as [|c cs IH]; intros position first Hne Ht Hfirst; [done|].
  destruct Ht as [Hpos Ht].
  cbn [find_child_at]. unfold window_at_hit. cbv zeta. rewrite Hpos.
  destruct (Z.leb_spec position (p_top cursor_pos));
    destruct (Z.ltb_spec (p_top cursor_pos) (position + get_dimension WM_HORIZONTAL c));
    destruct (Z.ltb_spec (p_top cursor_pos) position);
    destruct (Z.leb_spec (position + get_dimension WM_HORIZONTAL c) (p_top cursor_pos));
    try lia;
    destruct first, cs as [|c' cs]; cbn [andb orb]; try (by eauto);
    try (destruct Hfirst; [done|lia]);
    (apply (IH (position + get_dimension WM_HORIZONTAL c + separator WM_HORIZONTAL));
     [done|done|right; cbn [separator]; lia]).
Qed.

(** X21.  In a horizontal splitter whose children are panes lying one
    below the other, [wm_splitter_find_window_at] finds a child for every
    cursor position, above, within or below the splitter. *)
Theorem find_window_at_rows (f : wm_fields) (cs : list wm_window) (position : Z)
    (cursor_pos : wm_position) :
  cs ≠ [] → tiled WM_HORIZONTAL position cs → Forall is_pane cs →
  ∃ child, wm_splitter_find_window_at (mk_splitter f WM_HORIZONTAL cs) cursor_pos
           = Some child ∧ child ∈ cs.
Proof.
  intros Hne Ht Hpanes. unfold wm_splitter_find_window_at, splitter_window.
  cbn [s_window orientation children]. rewrite window_at_splitter.
  destruct (find_child_at_rows cursor_pos cs position true Hne Ht ltac:(by left))
    as [child Hchild].
  rewrite Hchild. cbn [mbind option_bind].
  pose proof (find_child_at_elem _ _ _ _ _ Hchild) as Hin.
  exists child. split; [|done].
  apply list_elem_of_lookup in Hin as [k Hk].
  pose proof (Forall_lookup_1 _ _ _ _ Hpanes Hk) as Hpane.
  by destruct child.
Qed.

(** A cursor below the three panes of [three_rows]. *)
Lemma find_window_at_rows_witness :
  ∃ child, wm_splitter_find_window_at three_rows (mk_position 99 0) = Some child ∧
           child ∈ children three_rows.
Proof.
  apply (find_window_at_rows (s_window three_rows) (children three_rows) 0
           (mk_position 99 0)).
  - discriminate.
  - simpl. repeat split; reflexivity.
  - repeat constructor.
Defined.

Lemma tiled_position_ge o : ∀ cs position k c,
  tiled o position cs → Forall (λ c, 0 ≤ get_dimension o c) cs →
  cs !! k = Some c → position ≤ get_position o c.
Proof.
  induction cs as [|x cs IH]; intros position [|k] c Ht Hdims Hc; try done;
    destruct Ht as [Hpos Ht]; simplify_eq/=.
  - lia.
  - apply Forall_cons_1 in Hdims as [Hx Hdims].
    pose proof (IH _ k c Ht Hdims Hc). destruct o; cbn [separator] in *; lia.
Qed.

Lemma find_child_at_beyond cursor_pos : ∀ cs position,
  tiled WM_VERTICAL position cs → Forall (λ c, 0 ≤ get_dimension WM_VERTICAL c) cs →
  p_left cursor_pos < position →
  find_child_at WM_VERTICAL cursor_pos cs false = None.
Proof.
  induction cs as [|c cs IH]; intros position Ht Hdims Hleft; [done|].
  destruct Ht as [Hpos Ht].
  apply Forall_cons_1 in Hdims as [Hc Hdims].
  cbn [find_child_at]. unfold window_at_hit. cbv zeta. rewrite Hpos.
  destruct (Z.leb_spec position (p_left cursor_pos)); [lia|].
  destruct (Z.leb_spec (position + get_dimension WM_VERTICAL c) (p_left cursor_pos));
    [lia|]. rewrite andb_false_r. cbn [andb orb].
  apply (IH (position + get_dimension WM_VERTICAL c + separator WM_VERTICAL));
    [done|done|]. cbn [separator]. lia.
Qed.

Lemma find_child_at_separator cursor_pos : ∀ cs position first k c,
  tiled WM_VERTICAL position cs → Forall (λ c, 0 ≤ get_dimension WM_VERTICAL c) cs →
  cs !! k = Some c → (S k < length cs)%nat →
  p_left cursor_pos = get_position WM_VERTICAL c + get_dimension WM_VERTICAL c →
  find_child_at WM_VERTICAL cursor_pos cs first = None.
Proof.
  induction cs as [|x cs IH]; intros position first k c Ht Hdims Hc Hk Hleft; [done|].
  pose proof Ht as [Hpos Ht']. pose proof Hdims as Hdims'.
  apply Forall_cons_1 in Hdims' as [Hx Hrest].
  destruct cs as [|c' cs]; [simpl in Hk; lia|].
  assert (get_position WM_VERTICAL x + get_dimension WM_VERTICAL x ≤ p_left cursor_pos)
    as Hbeyond.
  { destruct k as [|k]; [injection Hc as ->; lia|].
    change ((c' :: cs) !! k = Some c) in Hc.
    pose proof (tiled_position_ge _ _ _ _ _ Ht' Hrest Hc) as Hge.
    pose proof (Forall_lookup_1 _ _ _ _ Hrest Hc) as Hc0. cbv beta in Hc0.
    cbn [separator] in Hge. lia. }
  remember (c' :: cs) as rest eqn:Hrest_eq.
  cbn [find_child_at]. unfold window_at_hit. cbv zeta. rewrite Hpos in *.
  destruct (Z.ltb_spec (p_left cursor_pos) (position + get_dimension WM_VERTICAL x));
    [lia|].
  destruct (Z.ltb_spec (p_left cursor_pos) position); [lia|].
  rewrite !andb_false_r. subst rest. cbn [andb orb].
  destruct k as [|k].
  - injection Hc as ->. eapply find_child_at_beyond; [done..|]. cbn [separator]. lia.
  - change ((c' :: cs) !! k = Some c) in Hc.
    eapply (IH _ false k c); [done..|simpl in *; lia|done].
Qed.

(** X22.  In a vertical splitter laid out with a separator column
    between neighbours, [wm_splitter_find_window_at] finds no window for
    a cursor on a separator column: the column belongs to neither
    neighbour, and the answer is NULL. *)
Theorem find_window_at_separator (f : wm_fields) (cs : list wm_window) (position : Z)
    (k : nat) (c : wm_window) (cursor_pos : wm_position) :
  tiled WM_VERTICAL position cs → Forall (λ c, 0 ≤ get_dimension WM_VERTICAL c) cs →
  cs !! k = Some c → (S k < length cs)%nat →
  p_left cursor_pos = get_position WM_VERTICAL c + get_dimension WM_VERTICAL c →
  wm_splitter_find_window_at (mk_splitter f WM_VERTICAL cs) cursor_pos = None.
Proof.
  intros Ht Hdims Hc Hk Hleft. unfold wm_splitter_find_window_at, splitter_window.
  cbn [s_window orientation children]. rewrite window_at_splitter.
  by rewrite (find_child_at_separator cursor_pos cs position true k c).
Qed.

(** Two panes of 40 columns with the separator in column 40. *)
Lemma find_window_at_separator_witness :
  wm_splitter_find_window_at
    (placed_splitter 2 10 0 10 81 WM_VERTICAL
       [placed_pane 3 10 0 10 40; placed_pane 4 10 41 10 40])
    (mk_position 12 40) = None.
Proof.
  apply (find_window_at_separator _ _ 0 0 (placed_pane 3 10 0 10 40)).
  - simpl. repeat split; reflexivity.
  - repeat constructor; simpl; lia.
  - reflexivity.
  - simpl. lia.
  - reflexivity.
Defined.

Lemma neighbor_after_next window : ∀ cs k a b,
  cs !! k = Some a → cs !! S k = Some b → window_id a = window →
  (∀ j c, (j < k)%nat → cs !! j = Some c → window_id c ≠ window) →
  neighbor_after window cs = Some b.
Proof.
  induction cs as [|x cs IH]; intros k a b Ha Hb Hid Hfirst; [done|].
  destruct cs as [|y cs]; [done|]. cbn [neighbor_after].
  destruct k as [|k].
  - injection Ha as ->. injection Hb as ->. by rewrite decide_True.
  - rewrite decide_False by (by apply (Hfirst O x ltac:(lia))).
    apply (IH k a b); [done|done|done|].
    intros j c Hj Hc. apply (Hfirst (S j) c); [lia|done].
Qed.

Lemma neighbor_before_previous window : ∀ cs previous k a b,
  (previous :: cs) !! k = Some a → cs !! k = Some b → window_id b = window →
  (∀ j c, (j < k)%nat → cs !! j = Some c → window_id c ≠ window) →
  neighbor_before window previous cs = Some a.
Proof.
  induction cs as [|x cs IH]; intros previous k a b Ha Hb Hid Hfirst; [done|].
  cbn [neighbor_before]. destruct k as [|k].
  - injection Ha as ->. injection Hb as ->. by rewrite decide_True.
  - rewrite decide_False by (by apply (Hfirst O x ltac:(lia))).
    apply (IH x k a b); [done|done|done|].
    intros j c Hj Hc. apply (Hfirst (S j) c); [lia|done].
Qed.

Lemma neighbor_before_none window : ∀ cs previous,
  (∀ c, c ∈ cs → window_id c ≠ window) → neighbor_before window previous cs = None.
Proof.
  induction cs as [|x cs IH]; intros previous H; [done|].
  cbn [neighbor_before]. rewrite decide_False by (apply H, list_elem_of_here).
  apply IH. intros c Hc. apply H. by apply list_elem_of_further.
Qed.

Lemma neighbor_after_none window : ∀ cs,
  (∀ k c, cs !! k = Some c → (S k < length cs)%nat → window_id c ≠ window) →
  neighbor_after window cs = None.
Proof.
  induction cs as [|x cs IH]; intros H; [done|].
  destruct cs as [|y cs]; [done|]. cbn [neighbor_after].
  rewrite decide_False by (apply (H O x eq_refl); simpl; lia).
  apply IH. intros k c Hc Hk. apply (H (S k) c Hc). simpl in *. lia.
Qed.

Lemma get_neighbor_along splitter parents window dir cursor_pos :
  across (orientation splitter) dir = false →
  wm_splitter_get_neighbor splitter parents window dir cursor_pos
  = found ← match dir with
            | WM_UP | WM_LEFT =>
                match children splitter with
                | [] => None
                | first :: rest => neighbor_before window first rest
                end
            | WM_DOWN | WM_RIGHT => neighbor_after window (children splitter)
            end;
    window_at cursor_pos found.
Proof.
  intros Hdir. destruct parents as [|parent parents]; cbn [wm_splitter_get_neighbor];
    rewrite Hdir;
    match goal with
    | |- match ?r with _ => _ end = _ => destruct r as [[f h v|f o cs]|]; done
    end.
Qed.

Lemma NoDup_lookup_ids (cs : list wm_window) j k c c' :
  NoDup (map window_id cs) → cs !! j = Some c → cs !! k = Some c' →
  window_id c = window_id c' → j = k.
Proof.
  intros Hnd Hj Hk Hid. apply (NoDup_lookup _ j k (window_id c) Hnd).
  - by rewrite list_lookup_fmap, Hj.
  - by rewrite list_lookup_fmap, Hk, Hid.
Qed.

(** X23.  Neighbours along the split are next to each other in the array:
    of two children that follow each other, [wm_splitter_get_neighbor]
    gives the second for the first in the forward direction and the first
    for the second in the backward direction, each descended into at the
    cursor when it is a splitter; the parents are not looked at. *)
Theorem get_neighbor_adjacent (splitter : wm_splitter) (parents : list wm_splitter)
    (k : nat) (a b : wm_window) (cursor_pos : wm_position) :
  NoDup (map window_id (children splitter)) →
  children splitter !! k = Some a → children splitter !! S k = Some b →
  wm_splitter_get_neighbor splitter parents (window_id a)
    (forward (orientation splitter)) cursor_pos = window_at cursor_pos b ∧
  wm_splitter_get_neighbor splitter parents (window_id b)
    (backward (orientation splitter)) cursor_pos = window_at cursor_pos a.
Proof.
  intros Hnd Ha Hb. split.
  - rewrite get_neighbor_along by (by destruct (orientation splitter)).
    assert (neighbor_after (window_id a) (children splitter) = Some b) as Hnext.
    { apply (neighbor_after_next _ _ k a b); [done..|].
      intros j c Hj Hc Hid. pose proof (NoDup_lookup_ids _ _ _ _ _ Hnd Hc Ha Hid). lia. }
    destruct (orientation splitter); cbn [forward]; by rewrite Hnext.
  - rewrite get_neighbor_along by (by destruct (orientation splitter)).
    destruct (children splitter) as [|first rest] eqn:Hcs; [done|].
    assert (neighbor_before (window_id b) first rest = Some a) as Hprev.
    { apply (neighbor_before_previous _ _ _ k a b); [done..|].
      intros j c Hj Hc Hid.
      pose proof (NoDup_lookup_ids (first :: rest) (S j) (S k) c b Hnd Hc Hb Hid). lia. }
    destruct (orientation splitter); cbn [backward]; by rewrite Hprev.
Qed.

(** The panes 1 and 2 of [three_rows]. *)
Lemma get_neighbor_adjacent_witness :
  wm_splitter_get_neighbor three_rows [] 1 WM_DOWN (mk_position 0 0)
  = Some (placed_pane 2 10 0 10 80) ∧
  wm_splitter_get_neighbor three_rows [] 2 WM_UP (mk_position 0 0)
  = Some (placed_pane 1 0 0 10 80).
Proof.
  apply (get_neighbor_adjacent three_rows [] 0 (placed_pane 1 0 0 10 80)
           (placed_pane 2 10 0 10 80) (mk_position 0 0)).
  - apply (bool_decide_unpack _). reflexivity.
  - reflexivity.
  - reflexivity.
Defined.

(** X24.  At the edge of a splitter [wm_splitter_get_neighbor] answers
    NULL: the first child has no neighbour backward and the last none
    forward, whatever the parents hold in that direction; and across the
    split a splitter without a parent has no neighbour to give. *)
Theorem get_neighbor_edge (splitter : wm_splitter) (parents : list wm_splitter)
    (a : wm_window) (cursor_pos : wm_position) :
  NoDup (map window_id (children splitter)) →
  (children splitter !! O = Some a →
   wm_splitter_get_neighbor splitter parents (window_id a)
     (backward (orientation splitter)) cursor_pos = None) ∧
  (children splitter !! pred (length (children splitter)) = Some a →
   wm_splitter_get_neighbor splitter parents (window_id a)
     (forward (orientation splitter)) cursor_pos = None) ∧
  (∀ window dir, across (orientation splitter) dir = true →
     wm_splitter_get_neighbor splitter [] window dir cursor_pos = None).
Proof.
  intros Hnd. split; [|split].
  - intros Ha. rewrite get_neighbor_along by (by destruct (orientation splitter)).
    destruct (children splitter) as [|first rest] eqn:Hcs; [done|].
    injection Ha as ->.
    assert (neighbor_before (window_id a) a rest = None) as Hnone.
    { apply neighbor_before_none. intros c Hc Hid.
      apply list_elem_of_lookup in Hc as [j Hj].
      pose proof (NoDup_lookup_ids (a :: rest) (S j) O c a Hnd Hj eq_refl Hid). lia. }
    destruct (orientation splitter); cbn [backward]; by rewrite Hnone.
  - intros Ha. rewrite get_neighbor_along by (by destruct (orientation splitter)).
    assert (neighbor_after (window_id a) (children splitter) = None) as Hnone.
    { apply neighbor_after_none. intros k c Hc Hk Hid.
      pose proof (NoDup_lookup_ids _ _ _ _ _ Hnd Hc Ha Hid). lia. }
    destruct (orientation splitter); cbn [forward]; by rewrite Hnone.
  - intros window dir Hdir. cbn [wm_splitter_get_neighbor]. by rewrite Hdir.
Qed.

(** The vertical splitter nested in [nested_rows], whose parent holds a
    pane above it: no neighbour to the left of its first pane, none to
    the right of its last; and, taken without a parent, none above. *)
Lemma get_neighbor_edge_witness :
  wm_splitter_get_neighbor
    (placed_splitter 2 10 0 10 81 WM_VERTICAL
       [placed_pane 3 10 0 10 40; placed_pane 4 10 41 10 40])
    [nested_rows] 3 WM_LEFT (mk_position 12 0) = None ∧
  wm_splitter_get_neighbor
    (placed_splitter 2 10 0 10 81 WM_VERTICAL
       [placed_pane 3 10 0 10 40; placed_pane 4 10 41 10 40])
    [nested_rows] 4 WM_RIGHT (mk_position 12 0) = None ∧
  wm_splitter_get_neighbor
    (placed_splitter 2 10 0 10 81 WM_VERTICAL
       [placed_pane 3 10 0 10 40; placed_pane 4 10 41 10 40])
    [] 3 WM_UP (mk_position 12 0) = None.
Proof.
  split; [|split].
  - refine (proj1 (get_neighbor_edge
             (placed_splitter 2 10 0 10 81 WM_VERTICAL
                [placed_pane 3 10 0 10 40; placed_pane 4 10 41 10 40])
             [nested_rows] (placed_pane 3 10 0 10 40) (mk_position 12 0) _) _).
    + apply (bool_decide_unpack _). reflexivity.
    + reflexivity.
  - refine (proj1 (proj2 (get_neighbor_edge
             (placed_splitter 2 10 0 10 81 WM_VERTICAL
                [placed_pane 3 10 0 10 40; placed_pane 4 10 41 10 40])
             [nested_rows] (placed_pane 4 10 41 10 40) (mk_position 12 0) _)) _).
    + apply (bool_decide_unpack _). reflexivity.
    + reflexivity.
  - refine (proj2 (proj2 (get_neighbor_edge
             (placed_splitter 2 10 0 10 81 WM_VERTICAL
                [placed_pane 3 10 0 10 40; placed_pane 4 10 41 10 40])
             [nested_rows] (placed_pane 4 10 41 10 40) (mk_position 12 0) _)) 3%nat WM_UP _).
    + apply (bool_decide_unpack _). reflexivity.
    + reflexivity.
Defined.

(** ** The splitter: the last removal, and splitting at any child *)

Section splitter_collapse.

Variable float_below_min : Z → Z → Z → bool.
Variable float_share : Z → Z → Z → Z.

Local Abbreviation remove := (wm_splitter_remove float_below_min float_share).
Local Abbreviation split := (wm_splitter_split float_below_min float_share).

Lemma replace_child_found p self child j :
  wm_splitter_find_child p self = Some j →
  replace_child self child (children p) = <[j := child]> (children p).
Proof.
  unfold wm_splitter_find_child, replace_child. intros H.
  apply fmap_Some in H as ([i c] & Hf & ->). by rewrite Hf.
Qed.

Lemma array_remove_pair s a b other window :
  children s = [a; b] → window_id a ≠ window_id b →
  (window = window_id a ∧ other = b) ∨ (window = window_id b ∧ other = a) →
  wm_splitter_array_remove s window = (0, set_children s [other]).
Proof.
  intros Hcs Hab Hwhich.
  assert (∃ i, wm_splitter_find_child s window = Some i ∧ delete i [a; b] = [other])
    as (i & Hfind & Hdel).
  { unfold wm_splitter_find_child. rewrite Hcs.
    destruct Hwhich as [[-> ->]|[-> ->]]; cbn [list_find].
    - exists O. by rewrite decide_True.
    - exists 1%nat. rewrite decide_False by done. cbn [list_find fmap option_fmap option_map].
      by rewrite decide_True. }
  rewrite (wm_splitter_array_remove_found s window i Hfind). by rewrite Hcs, Hdel.
Qed.

(** X25.  [wm_splitter_remove] on a splitter of two children dissolves the
    splitter: without a parent the child that remains is handed over as
    the new main window; with a parent the child takes the slot the
    splitter had among the parent's children, which are otherwise as they
    were, and the focus goes to that child when the window removed had
    it and stays where it was otherwise. *)
Theorem remove_collapses (n fuel : nat) (wm : window_manager) (s p : wm_splitter)
    (a b other : wm_window) (window j : nat) :
  children s = [a; b] → window_id a ≠ window_id b →
  (window = window_id a ∧ other = b) ∨ (window = window_id b ∧ other = a) →
  (0 < n)%nat → (n < fuel)%nat →
  Forall (λ c, (depth c < n)%nat) (children p) → (depth other < n)%nat →
  wm_splitter_find_child p (w_id (s_window s)) = Some j →
  remove fuel wm None s window = Some (0, wm, New_main other) ∧
  ∃ p' wm',
    remove fuel wm (Some p) s window = Some (0, wm', Collapsed p') ∧
    focused wm' = (if wm_is_focused wm window then window_id other else focused wm) ∧
    orientation p' = orientation p ∧
    map window_id (children p') = <[j := window_id other]> (map window_id (children p)).
Proof.
  intros Hcs Hab Hwhich Hn Hfuel Hfits Hother Hj.
  pose proof (array_remove_pair s a b other window Hcs Hab Hwhich) as Hrm.
  unfold wm_splitter_remove. rewrite Hrm, Hcs.
  change (length [a; b] <? 2)%nat with false.
  change (negb (0 =? 0)) with false. cbn [children set_children].
  split; [done|].
  rewrite (replace_child_found p _ _ j Hj).
  edestruct (splitter_layout_event_children float_below_min float_share n fuel
               (set_children p
                  (<[j := wm_window_set_context other (cwindow (s_window s))]> (children p))))
    as (p' & Hp' & Ho & _ & _ & Hids & _); [done|done| |].
  { cbn [set_children children]. apply Forall_insert; [done|].
    by rewrite depth_set_context. }
  rewrite Hp'. cbn [mbind option_bind].
  eexists p', _. split; [done|]. split; [|split; [exact Ho|]].
  - destruct (wm_is_focused wm window); [|done].
    cbn [wm_focus focused]. by rewrite window_id_set_context.
  - rewrite Hids. cbn [set_children children].
    by rewrite list_fmap_insert, window_id_set_context.
Qed.

(** X26.  [wm_splitter_split] at a window, along the splitter: when the
    window is no child the status is -1 and the splitter is as it was;
    when it is the child [i], the children up to it stay, the new window
    comes right after it, and every slot behind holds the child that
    followed the target: the children further on are overwritten. *)
Theorem split_along_at_child (n fuel depth_fuel : nat) (s : wm_splitter)
    (w new_window : wm_window) (new_splitter : nat) :
  (0 < n)%nat → (n < fuel)%nat →
  Forall (λ c, (depth c < n)%nat) (children s) → (depth new_window < n)%nat →
  match wm_splitter_find_child s (window_id w) with
  | None =>
      split (S depth_fuel) fuel s (Some w) new_window (orientation s) new_splitter
      = Some (-1, s)
  | Some i =>
      ∃ s', split (S depth_fuel) fuel s (Some w) new_window (orientation s) new_splitter
            = Some (0, s') ∧
            length (children s') = S (length (children s)) ∧
            map window_id (children s')
            = take (S i) (map window_id (children s)) ++ window_id new_window
                :: match map window_id (children s) !! S i with
                   | Some next => replicate (length (children s) - S i) next
                   | None => []
                   end
  end.
Proof.
  intros Hn Hfuel Hfits Hnew.
  destruct (wm_splitter_find_child s (window_id w)) as [i|] eqn:Hfind.
  - pose proof (find_child_Some s _ i Hfind) as (target & Ht & _).
    apply lookup_lt_Some in Ht.
    destruct (split_same_orientation float_below_min float_share n fuel depth_fuel s
                (Some w) new_window (orientation s) new_splitter (S i))
      as (s' & Hs' & _ & _ & _ & Hids);
      [done|done|done|done|apply orientation_eqb_refl|by rewrite Hfind|lia|].
    exists s'. split; [done|].
    rewrite array_insert_spec in Hids by lia.
    rewrite map_app in Hids. cbn [map] in Hids.
    rewrite window_id_set_context in Hids.
    assert (map window_id (children s')
            = take (S i) (map window_id (children s)) ++ window_id new_window
                :: match map window_id (children s) !! S i with
                   | Some next => replicate (length (children s) - S i) next
                   | None => []
                   end) as Hids'.
    { rewrite Hids, <- fmap_take. f_equal. f_equal.
      rewrite list_lookup_fmap.
      destruct (children s !! S i) as [next|]; [|done].
      cbn [fmap option_fmap option_map]. clear.
      induction (length (children s) - S i)%nat as [|k IH]; [done|].
      simpl. by rewrite IH. }
    split; [|exact Hids'].
    rewrite <- (length_map window_id (children s')), Hids'.
    rewrite length_app, length_take, length_map. cbn [length].
    rewrite list_lookup_fmap.
    destruct (children s !! S i) as [next|] eqn:Hnext; cbn [fmap option_fmap option_map].
    + apply lookup_lt_Some in Hnext. rewrite length_replicate. lia.
    + apply lookup_ge_None in Hnext. cbn [length]. lia.
  - cbn [wm_splitter_split]. by rewrite Hfind.
Qed.

End splitter_collapse.

(** The vertical splitter 2 of [nested_rows] loses its pane 3, which had
    the focus: pane 4 takes the slot of the splitter below pane 1, with
    the focus. *)
Lemma remove_collapses_witness :
  wm_splitter_remove exact_below_min exact_share 3 (mk_wm 3) None
    (placed_splitter 2 10 0 10 81 WM_VERTICAL
       [placed_pane 3 10 0 10 40; placed_pane 4 10 41 10 40]) 3
  = Some (0, mk_wm 3, New_main (placed_pane 4 10 41 10 40)) ∧
  ∃ p' wm',
    wm_splitter_remove exact_below_min exact_share 3 (mk_wm 3) (Some nested_rows)
      (placed_splitter 2 10 0 10 81 WM_VERTICAL
         [placed_pane 3 10 0 10 40; placed_pane 4 10 41 10 40]) 3
    = Some (0, wm', Collapsed p') ∧
    focused wm' = 4%nat ∧
    orientation p' = WM_HORIZONTAL ∧
    map window_id (children p') = [1; 4]%nat.
Proof.
  apply (remove_collapses exact_below_min exact_share 2 3 (mk_wm 3)
           (placed_splitter 2 10 0 10 81 WM_VERTICAL
              [placed_pane 3 10 0 10 40; placed_pane 4 10 41 10 40])
           nested_rows (placed_pane 3 10 0 10 40) (placed_pane 4 10 41 10 40)
           (placed_pane 4 10 41 10 40) 3 1).
  - reflexivity.
  - vm_compute. lia.
  - left. split; reflexivity.
  - lia.
  - lia.
  - repeat constructor; simpl; lia.
  - simpl. lia.
  - reflexivity.
Defined.

(** Splitting pane 1 of [three_rows] along the splitter, and splitting at
    a pane that is no child of it. *)
Lemma split_along_at_child_witness :
  (∃ s', wm_splitter_split exact_below_min exact_share 1 2 three_rows
           (Some (placed_pane 1 0 0 10 80)) (new_pane 9) WM_HORIZONTAL 100 = Some (0, s') ∧
         length (children s') = 4%nat ∧
         map window_id (children s') = [1; 9; 2; 2]%nat) ∧
  wm_splitter_split exact_below_min exact_share 1 2 three_rows
    (Some (placed_pane 7 0 0 10 80)) (new_pane 9) WM_HORIZONTAL 100
  = Some (-1, three_rows).
Proof.
  split.
  - apply (split_along_at_child exact_below_min exact_share 1 2 0 three_rows
             (placed_pane 1 0 0 10 80) (new_pane 9) 100);
      [lia|lia|repeat constructor|simpl; lia].
  - apply (split_along_at_child exact_below_min exact_share 1 2 0 three_rows
             (placed_pane 7 0 0 10 80) (new_pane 9) 100);
      [lia|lia|repeat constructor|simpl; lia].
Defined.
